(** * Die or Dare: the rules engine of [die_or_dare.py], embedded in Rocq

    The development follows the Python source class by class: cards and
    decks, the joker value and position strategies, the defense deck
    choice, the odds calculator, and the duel / game state machine with its
    shout resolution.  Mutable objects are modelled by explicit state
    passing; Python exceptions by the [exc] monad below. *)

From Stdlib Require Import ZArith List Bool Lia QArith.
From Stdlib Require Import Ascii.
From stdpp Require Import base list relations.
Import ListNotations.

Local Open Scope Z_scope.

(** ** Exceptions *)

Inductive Exn : Set :=
| ValueError | IndexError | TypeError | AttributeError | StopIteration
| ZeroDivisionError.

Inductive exc (A : Type) : Type :=
| Ok (a : A)
| Raise (e : Exn).
Arguments Ok {A} a.
Arguments Raise {A} e.

Definition bind {A B : Type} (m : exc A) (f : A -> exc B) : exc B :=
  match m with
  | Ok a => f a
  | Raise e => Raise e
  end.

Notation "'let!' x ':=' m 'in' k" := (bind m (fun x => k))
  (at level 10, x name, m at level 100, k at level 200).

(** ** Python list primitives *)

Section PyList.
Context {A : Type}.

(** [l[i]] with Python's negative indices; [IndexError] out of range. *)
Definition py_index (l : list A) (i : Z) : exc nat :=
  let n := Z.of_nat (length l) in
  if (0 <=? i) && (i <? n) then Ok (Z.to_nat i)
  else if (i <? 0) && (- n <=? i) then Ok (Z.to_nat (n + i))
  else Raise IndexError.

Definition py_get (l : list A) (i : Z) : exc A :=
  let! k := py_index l i in
  match l !! k with
  | Some x => Ok x
  | None => Raise IndexError
  end.

(** [l[i] = x] *)
Definition py_set (l : list A) (i : Z) (x : A) : exc (list A) :=
  let! k := py_index l i in
  Ok (<[k := x]> l).

(** [max(l, key=key)]: the first element whose key is greatest. *)
Fixpoint max_from (key : A -> Z) (best : A) (l : list A) : A :=
  match l with
  | [] => best
  | x :: t => if key best <? key x then max_from key x t
              else max_from key best t
  end.

Definition py_max (key : A -> Z) (l : list A) : exc A :=
  match l with
  | [] => Raise ValueError
  | x :: t => Ok (max_from key x t)
  end.

(** [min(l, key=key)]: the first element whose key is least. *)
Fixpoint min_from (key : A -> Z) (best : A) (l : list A) : A :=
  match l with
  | [] => best
  | x :: t => if key x <? key best then min_from key x t
              else min_from key best t
  end.

Definition py_min (key : A -> Z) (l : list A) : exc A :=
  match l with
  | [] => Raise ValueError
  | x :: t => Ok (min_from key x t)
  end.

(** [l.index(x)] for an equality test [eqb]. *)
Fixpoint index_from (eqb : A -> A -> bool) (x : A) (l : list A) (i : Z)
  : exc Z :=
  match l with
  | [] => Raise ValueError
  | y :: t => if eqb y x then Ok i else index_from eqb x t (i + 1)
  end.

Definition py_list_index (eqb : A -> A -> bool) (l : list A) (x : A)
  : exc Z := index_from eqb x l 0.

(** [next(x for x in l if p(x))] *)
Definition py_next (p : A -> bool) (l : list A) : exc A :=
  match List.find p l with
  | Some x => Ok x
  | None => Raise StopIteration
  end.

(** [itertools.combinations(l, k)], in itertools' order. *)
Fixpoint combinations (l : list A) (k : nat) {struct l} : list (list A) :=
  match k, l with
  | O, _ => [[]]
  | S _, [] => []
  | S k', x :: t =>
      List.map (cons x) (combinations t k') ++ combinations t k
  end.
End PyList.

(** ** Cards *)

(** [constants.Rank] and [constants.Suit] are enumerations of the module
    [constants], which is not part of the sources at hand.  A rank and a
    suit are identified here by their enumeration value; the joker's rank
    is the separate constant [constants.JOKER]. *)
Inductive CardRank : Set :=
| JOKER
| RankNamed (rank_value : Z).

Definition CardRank_eqb (a b : CardRank) : bool :=
  match a, b with
  | JOKER, JOKER => true
  | RankNamed x, RankNamed y => x =? y
  | _, _ => false
  end.

Definition option_Z_eqb (a b : option Z) : bool :=
  match a, b with
  | None, None => true
  | Some x, Some y => x =? y
  | _, _ => false
  end.

(** [_value] is [None] in the source for a joker that no strategy has
    valued yet; such a joker carries 0 here, and no function below reads
    the value of a joker before a value strategy has run. *)
Record Card : Set := mkCard {
  _suit : option Z;
  _colored : bool;
  _rank : CardRank;
  _value : Z;
  open_ : bool
}.

(** [Card.__eq__]: suit, colour and rank; value and [open_] are ignored. *)
Definition Card_eq (a b : Card) : bool :=
  option_Z_eqb (_suit a) (_suit b)
  && Bool.eqb (_colored a) (_colored b)
  && CardRank_eqb (_rank a) (_rank b).

Definition _is_joker (c : Card) : bool := CardRank_eqb (_rank c) JOKER.

Definition open_up (c : Card) : Card :=
  mkCard (_suit c) (_colored c) (_rank c) (_value c) true.

Definition set_value (c : Card) (v : Z) : Card :=
  mkCard (_suit c) (_colored c) (_rank c) v (open_ c).

Definition sum_values (cards : list Card) : Z :=
  fold_left (fun acc c => acc + _value c) cards 0.

(** ** Joker value strategies *)

Module NextBiggest.
(** The joker object is mutated in place: its slot in [cards] is the
    first slot holding a joker. *)
Fixpoint first_joker_slot (cards : list Card) (i : nat) : option nat :=
  match cards with
  | [] => None
  | c :: t => if _is_joker c then Some i else first_joker_slot t (S i)
  end.

Definition joker_value (biggest smallest : Z) : Z :=
  if biggest =? 1 then 1
  else if biggest =? 2 then 3 - smallest
  else if smallest =? biggest - 1 then biggest - 2
  else biggest - 1.

Definition apply (cards : list Card) : exc (list Card) :=
  if existsb _is_joker cards then
    let! joker := py_next _is_joker cards in
    let cards_without_joker :=
      List.filter (fun card => negb (Card_eq card joker)) cards in
    let! biggest := py_max _value cards_without_joker in
    let! smallest := py_min _value cards_without_joker in
    let v := joker_value (_value biggest) (_value smallest) in
    match first_joker_slot cards 0 with
    | Some k => Ok (<[k := set_value joker v]> cards)
    | None => Raise StopIteration
    end
  else Ok cards.
End NextBiggest.

(** ** Joker position strategies *)

Module JokerPositionStrategy.
Definition biggest (cards : list Card) : exc Card :=
  py_max _value cards.

(** [cards[0], cards[index] = cards[index], cards[0]] *)
Definition to_delegate (cards : list Card) (index : Z)
  : exc (list Card) :=
  let! a := py_get cards index in
  let! b := py_get cards 0 in
  let! cards1 := py_set cards 0 a in
  py_set cards1 index b.

Definition biggest_to_delegate (cards : list Card) : exc (list Card) :=
  let! big := biggest cards in
  let! biggest_index := py_list_index Card_eq cards big in
  to_delegate cards biggest_index.

(** The scan [for i in range(len(cards))] that keeps the last joker. *)
Definition find_joker_index (cards : list Card) : Z :=
  fold_left
    (fun joker_index i =>
       match cards !! i with
       | Some card => if _is_joker card then Z.of_nat i else joker_index
       | None => joker_index
       end)
    (seq 0 (length cards)) (-1).
End JokerPositionStrategy.

Module JokerLast.
Import JokerPositionStrategy.

Definition apply (cards : list Card) : exc (list Card) :=
  let joker_index := find_joker_index cards in
  if joker_index >? -1 then
    let! joker := py_get cards joker_index in
    let cards_without_joker :=
      List.filter (fun card => negb (_is_joker card)) cards in
    let! bigger := biggest cards_without_joker in
    if _value joker >? _value bigger then
      to_delegate cards joker_index
    else
      let! bigger_index := py_list_index Card_eq cards bigger in
      let! cards1 := to_delegate cards bigger_index in
      (* cards[-1], cards[joker_index] = cards[joker_index], cards[-1] *)
      let! a := py_get cards1 joker_index in
      let! b := py_get cards1 (-1) in
      let! cards2 := py_set cards1 (-1) a in
      py_set cards2 joker_index b
  else
    biggest_to_delegate cards.
End JokerLast.

Module JokerFirst.
Import JokerPositionStrategy.

Definition apply (cards : list Card) : exc (list Card) :=
  let joker_index := find_joker_index cards in
  if joker_index >? -1 then
    let! joker := py_get cards joker_index in
    let cards_without_joker :=
      List.filter (fun card => negb (_is_joker card)) cards in
    let! bigger := biggest cards_without_joker in
    let! bigger_index := py_list_index Card_eq cards bigger in
    if _value joker >=? _value bigger then
      to_delegate cards joker_index
    else
      to_delegate cards bigger_index
  else
    biggest_to_delegate cards.
End JokerFirst.

Module JokerAnywhere.
Definition apply (cards : list Card) : exc (list Card) :=
  JokerPositionStrategy.biggest_to_delegate cards.
End JokerAnywhere.

Module JokerNotFirst.
Import JokerPositionStrategy.

Definition apply (cards : list Card) : exc (list Card) :=
  let joker_index := find_joker_index cards in
  if joker_index >? -1 then
    let! joker := py_get cards joker_index in
    let cards_without_joker :=
      List.filter (fun card => negb (Card_eq card joker)) cards in
    let! bigger := biggest cards_without_joker in
    if _value joker >? _value bigger then
      to_delegate cards joker_index
    else
      let! bigger_index := py_list_index Card_eq cards bigger in
      to_delegate cards bigger_index
  else
    biggest_to_delegate cards.
End JokerNotFirst.

(** Cards for the examples: a red joker carrying value [v], and the card
    of rank [r] in the suit of value [s]. *)
Definition red_joker (v : Z) (o : bool) : Card :=
  mkCard None true JOKER v o.
Definition red_card (s r : Z) (o : bool) : Card :=
  mkCard (Some s) true (RankNamed r) r o.


(** ** Constants *)

Module Action.
Inductive t : Set := IDLE | DARE | DIE | DONE | DRAW.
Definition eqb (a b : t) : bool :=
  match a, b with
  | IDLE, IDLE | DARE, DARE | DIE, DIE | DONE, DONE | DRAW, DRAW => true
  | _, _ => false
  end.
End Action.

Module DeckState.
Inductive t : Set := UNDISCLOSED | IN_DUEL | FINISHED.
Definition eqb (a b : t) : bool :=
  match a, b with
  | UNDISCLOSED, UNDISCLOSED | IN_DUEL, IN_DUEL | FINISHED, FINISHED => true
  | _, _ => false
  end.
End DeckState.

Module DuelState.
Inductive t : Set :=
| UNSTARTED | ONGOING | DIED | DRAWN | FINISHED
| ABORTED_BY_CORRECT_DONE | ABORTED_BY_WRONG_CHOICE.
Definition eqb (a b : t) : bool :=
  match a, b with
  | UNSTARTED, UNSTARTED | ONGOING, ONGOING | DIED, DIED | DRAWN, DRAWN
  | FINISHED, FINISHED | ABORTED_BY_CORRECT_DONE, ABORTED_BY_CORRECT_DONE
  | ABORTED_BY_WRONG_CHOICE, ABORTED_BY_WRONG_CHOICE => true
  | _, _ => false
  end.
End DuelState.

Module GameResult.
Inductive t : Set := DONE | FINISHED.
End GameResult.

Module Duration.
Inductive t : Set :=
| BEFORE_DECK_CHOICE | AFTER_DECK_CHOICE | BEFORE_ACTION | ACTION
| FINAL_ACTION | BEFORE_CARD_OPEN | AFTER_DUEL_ENDS | AFTER_GAME_ENDS.
End Duration.

(** The values of the module [constants] that the functions below read.
    The module is not part of the sources at hand, so its values are a
    parameter of the development: [Rank] and [Suit] list the values of the
    two enumerations in definition order, [DuelState_value] is the [.value]
    of a duel state. *)
Record Constants : Type := mkConstants {
  MAX_DIE : Z;
  MAX_DRAW : Z;
  REQUIRED_POINTS : Z;
  Rank : list Z;
  Suit : list Z;
  DuelState_value : DuelState.t -> Z
}.

(** ** Joker value strategies that read the constants *)

Module Thirteen.
(** The loop stops at the first joker; [max] of no rank is a
    [ValueError]. *)
Fixpoint apply (K : Constants) (cards : list Card) : exc (list Card) :=
  match cards with
  | [] => Ok []
  | card :: rest =>
      if _is_joker card then
        let! v := py_max (fun rank_value : Z => rank_value) (Rank K) in
        Ok (set_value card v :: rest)
      else
        let! rest' := apply K rest in
        Ok (card :: rest')
  end.
End Thirteen.

Module SameAsMax.
Definition apply (cards : list Card) : exc (list Card) :=
  if existsb _is_joker cards then
    let! joker := py_next _is_joker cards in
    let cards_without_joker :=
      List.filter (fun card => negb (Card_eq card joker)) cards in
    let! biggest := py_max _value cards_without_joker in
    match NextBiggest.first_joker_slot cards 0 with
    | Some k => Ok (<[k := set_value joker (_value biggest)]> cards)
    | None => Raise StopIteration
    end
  else Ok cards.
End SameAsMax.

(** ** Decks *)

Record Deck : Set := mkDeck {
  _cards : list Card;
  _state : DeckState.t;
  _index : Z;
  _opponent_deck_index : option Z;
  card_to_open_index : option Z
}.

Module Deck_.
Definition is_undisclosed (d : Deck) : bool :=
  DeckState.eqb (_state d) DeckState.UNDISCLOSED.

Definition is_in_duel (d : Deck) : bool :=
  DeckState.eqb (_state d) DeckState.IN_DUEL.

Definition delegate_value (d : Deck) : exc Z :=
  let! c := py_get (_cards d) 0 in Ok (_value c).

Definition finish (d : Deck) : Deck :=
  mkDeck (_cards d) DeckState.FINISHED (_index d)
         (_opponent_deck_index d) (card_to_open_index d).

Definition with_cards (d : Deck) (cs : list Card) : Deck :=
  mkDeck cs (_state d) (_index d) (_opponent_deck_index d)
         (card_to_open_index d).

Definition with_card_to_open_index (d : Deck) (i : option Z) : Deck :=
  mkDeck (_cards d) (_state d) (_index d) (_opponent_deck_index d) i.

(** [for card in deck: card.open_up()] *)
Definition open_all (d : Deck) : Deck :=
  with_cards d (List.map open_up (_cards d)).

(** [meet_opponent(opponent_deck)] *)
Definition meet_opponent (d opponent_deck : Deck) : Deck :=
  mkDeck (_cards d) (_state d) (_index d) (Some (_index opponent_deck))
         (card_to_open_index d).

(** [enter_duel(opponent_deck)]: the deck and, when one is given, the
    opponent's deck, which is updated too.  The two are distinct objects,
    decks of two different players. *)
Definition enter_duel (d : Deck) (opponent_deck : option Deck)
  : Deck * option Deck :=
  let d := mkDeck (_cards d) DeckState.IN_DUEL (_index d)
                  (_opponent_deck_index d) (card_to_open_index d) in
  match opponent_deck with
  | Some od => (meet_opponent d od, Some (meet_opponent od d))
  | None => (d, None)
  end.
End Deck_.

(** ** Players *)

(** The two player objects of a game are told apart by the pile they
    took; a reference to a player is its colour. *)
Inductive Color : Set := Red | Black.

Definition Color_eqb (a b : Color) : bool :=
  match a, b with
  | Red, Red | Black, Black => true
  | _, _ => false
  end.

(** [deck_in_duel] is a reference to one of the deck objects of [decks]:
    it is kept as that deck's slot in [decks], so that finishing and
    opening the deck in duel is seen through [decks] as in the source. *)
Record Player : Set := mkPlayer {
  _deck_in_duel_index : option Z;
  deck_in_duel : option nat;
  points : Z;
  num_shout_die : Z;
  num_shout_done : Z;
  num_shout_draw : Z;
  decks : list Deck;
  recent_action : option Action.t
}.

Module Player_.
Definition with_recent_action (p : Player) (a : option Action.t) :=
  mkPlayer (_deck_in_duel_index p) (deck_in_duel p) (points p)
           (num_shout_die p) (num_shout_done p) (num_shout_draw p)
           (decks p) a.
Definition with_points (p : Player) (n : Z) :=
  mkPlayer (_deck_in_duel_index p) (deck_in_duel p) n
           (num_shout_die p) (num_shout_done p) (num_shout_draw p)
           (decks p) (recent_action p).
Definition with_num_shout_die (p : Player) (n : Z) :=
  mkPlayer (_deck_in_duel_index p) (deck_in_duel p) (points p)
           n (num_shout_done p) (num_shout_draw p)
           (decks p) (recent_action p).
Definition with_num_shout_done (p : Player) (n : Z) :=
  mkPlayer (_deck_in_duel_index p) (deck_in_duel p) (points p)
           (num_shout_die p) n (num_shout_draw p)
           (decks p) (recent_action p).
Definition with_num_shout_draw (p : Player) (n : Z) :=
  mkPlayer (_deck_in_duel_index p) (deck_in_duel p) (points p)
           (num_shout_die p) (num_shout_done p) n
           (decks p) (recent_action p).
Definition with_decks (p : Player) (ds : list Deck) :=
  mkPlayer (_deck_in_duel_index p) (deck_in_duel p) (points p)
           (num_shout_die p) (num_shout_done p) (num_shout_draw p)
           ds (recent_action p).
Definition with_deck_in_duel (p : Player) (d : option nat) :=
  mkPlayer (_deck_in_duel_index p) d (points p)
           (num_shout_die p) (num_shout_done p) (num_shout_draw p)
           (decks p) (recent_action p).

Definition valid_actions (K : Constants) (p : Player) (round_ : Z)
  : exc (list Action.t) :=
  let actions := [Action.DONE] in
  if round_ =? 1 then
    let actions := actions ++ [Action.DARE] in
    Ok (if num_shout_die p <? MAX_DIE K then actions ++ [Action.DIE]
        else actions)
  else if round_ =? 2 then
    let actions := actions ++ [Action.DARE] in
    Ok (if num_shout_die p <? MAX_DIE K then actions ++ [Action.DIE]
        else actions)
  else if round_ =? 3 then
    let actions := actions ++ [Action.IDLE] in
    Ok (if num_shout_draw p <? MAX_DRAW K then actions ++ [Action.DRAW]
        else actions)
  else Raise ValueError.

Definition undisclosed_decks (p : Player) : list Deck :=
  List.filter Deck_.is_undisclosed (decks p).

(** The cards of the deck that [deck_in_duel] refers to; iterating over
    [None] is a [TypeError]. *)
Definition deck_in_duel_cards (p : Player) : exc (list Card) :=
  match deck_in_duel p with
  | None => Raise TypeError
  | Some k => match decks p !! k with
              | Some d => Ok (_cards d)
              | None => Raise IndexError
              end
  end.

Definition open_next_card (p : Player) : exc Player :=
  match _deck_in_duel_index p with
  | None => Raise TypeError
  | Some i =>
      let! k := py_index (decks p) i in
      match decks p !! k with
      | None => Raise IndexError
      | Some deck =>
          let cti := match card_to_open_index deck with
                     | None => 1
                     | Some c => c
                     end in
          let! card_to_open := py_get (_cards deck) cti in
          let! cards := py_set (_cards deck) cti (open_up card_to_open) in
          let cti := cti + 1 in
          let deck := Deck_.with_card_to_open_index
                        (Deck_.with_cards deck cards)
                        (if cti =? 3 then None else Some cti) in
          Ok (with_decks p (<[k := deck]> (decks p)))
      end
  end.

(** [send_to_duel(deck, opponent_deck)] for the deck object [deck] held in
    slot [k] of [decks]; the opponent's deck, as [enter_duel] leaves it,
    is returned beside the player. *)
Definition send_to_duel (p : Player) (k : nat) (deck : Deck)
           (opponent_deck : option Deck) : Player * option Deck :=
  let '(deck, opponent_deck) := Deck_.enter_duel deck opponent_deck in
  (mkPlayer (Some (_index deck)) (Some k) (points p)
            (num_shout_die p) (num_shout_done p) (num_shout_draw p)
            (<[k := deck]> (decks p)) (recent_action p),
   opponent_deck).

(** [revealed_joker]: the [else] belongs to the outer [for]. *)
Definition revealed_joker (p : Player) : bool :=
  existsb (fun deck =>
             existsb (fun card => open_ card && _is_joker card)
                     (_cards deck))
          (decks p).
End Player_.

Module ComputerPlayer.
(** [set.add]: the set of values is kept as a duplicate-free list. *)
Definition set_add (v : Z) (values : list Z) : list Z :=
  if existsb (Z.eqb v) values then values else values ++ [v].

Definition disclosed_values (decks : list Deck) : list Z :=
  fold_left
    (fun values deck =>
       if negb (Deck_.is_undisclosed deck) then
         fold_left
           (fun values card =>
              if open_ card then set_add (_value card) values else values)
           (_cards deck) values
       else values)
    decks [].

(** [values.difference(disclosed_values)] over the values of [Rank]. *)
Definition undisclosed_values (K : Constants) (decks : list Deck)
  : list Z :=
  let disclosed := disclosed_values decks in
  List.filter (fun v => negb (existsb (Z.eqb v) disclosed))
              (fold_left (fun vs v => set_add v vs) (Rank K) []).
End ComputerPlayer.

Definition is_done (K : Constants) (p : Player) : bool :=
  let disclosed_values := ComputerPlayer.disclosed_values (decks p) in
  let num_disclosed_values := Z.of_nat (length disclosed_values) in
  let num_all_values := Z.of_nat (length (Rank K)) in
  num_disclosed_values =? num_all_values.

(** ** Duels and the game *)

Module Duel.
Record t : Set := mk {
  _index : Z;
  _round : Z;
  _over : bool;
  winner : option Color;
  loser : option Color;
  _state : DuelState.t;
  offense : Color;
  defense : Color
}.

(** [Duel(player_red, player_black, index)] *)
Definition init (index : Z) : t :=
  mk index 1 false None None DuelState.UNSTARTED
     (if index mod 2 =? 0 then Red else Black)
     (if index mod 2 =? 0 then Black else Red).

Definition players (d : t) : list Color := [offense d; defense d].

Definition to_next_round (d : t) : t :=
  mk (_index d) (_round d + 1) (_over d) (winner d) (loser d) (_state d)
     (offense d) (defense d).

Definition start (d : t) : t :=
  mk (_index d) (_round d) (_over d) (winner d) (loser d)
     DuelState.ONGOING (offense d) (defense d).

Definition ended (d : t) (state : DuelState.t) (w l : option Color) : t :=
  mk (_index d) (_round d) true w l state (offense d) (defense d).
End Duel.

Inductive Message : Set :=
| MsgOffenseDeckChoice
| MsgDefenseDeckChoice
| MsgActionPrompt
| MsgSomethingWentWrong
| MsgCorrectDone (p : Color)
| MsgDied (p : Color)
| MsgCorrectDraw (p : Color) (game_ends : bool)
| MsgDoubleDare
| MsgGreaterSum (p : Color) (game_ends : bool)
| MsgEqualSums (p : Color) (game_ends : bool).

(** The replies to a deck choice; [deck_number] is [index + 1]. *)
Inductive DeckChoiceMessage : Set :=
| MsgOffenseDeckChosen (deck_number : Z)
| MsgDefenseDeckChosen (deck_number : Z)
| MsgChooseUndisclosedDeck.

Record Shout : Set := mkShout {
  shout_player : Color;
  shout_action : option Action.t
}.

Module Game.
(** Of the nine [duels] only the one [duel_ongoing] refers to is kept:
    no function below touches another duel. *)
Record t : Set := mk {
  player_red : Player;
  player_black : Player;
  _over : bool;
  winner : option Color;
  loser : option Color;
  result : option GameResult.t;
  duel_index : Z;
  duel_ongoing : option Duel.t
}.

Definition player (g : t) (c : Color) : Player :=
  match c with
  | Red => player_red g
  | Black => player_black g
  end.

Definition with_player (g : t) (c : Color) (p : Player) : t :=
  match c with
  | Red => mk p (player_black g) (_over g) (winner g) (loser g)
              (result g) (duel_index g) (duel_ongoing g)
  | Black => mk (player_red g) p (_over g) (winner g) (loser g)
                (result g) (duel_index g) (duel_ongoing g)
  end.

Definition with_duel (g : t) (d : Duel.t) : t :=
  mk (player_red g) (player_black g) (_over g) (winner g) (loser g)
     (result g) (duel_index g) (Some d).

Definition players : list Color := [Red; Black].

Definition duel (g : t) : exc Duel.t :=
  match duel_ongoing g with
  | Some d => Ok d
  | None => Raise AttributeError
  end.

(** [Duel.is_drawn] *)
Definition is_drawn (g : t) (d : Duel.t) : exc bool :=
  let! co := Player_.deck_in_duel_cards (player g (Duel.offense d)) in
  let sum_offense := sum_values co in
  let! cd := Player_.deck_in_duel_cards (player g (Duel.defense d)) in
  let sum_defense := sum_values cd in
  Ok (sum_offense =? sum_defense).

(** The last loop of [Duel.end]: close the deck a player has in duel. *)
Definition close_deck (p : Player) : Player :=
  match deck_in_duel p with
  | Some k =>
      Player_.with_deck_in_duel
        (Player_.with_decks p
           (alter (fun d => Deck_.open_all (Deck_.finish d)) k (decks p)))
        None
  | None => p
  end.

Definition award_point (g : t) (c : Color) : t :=
  let p := player g c in
  with_player g c (Player_.with_points p (points p + 1)).

(** [Duel.end(state, winner, loser)] on the ongoing duel. *)
Definition Duel_end (K : Constants) (g : t) (state : DuelState.t)
           (winner loser : option Color) : exc t :=
  let! d := duel g in
  let v := DuelState_value K state in
  if negb ((3 <=? v) && (v <? 11)) then Raise ValueError else
  let d := Duel.ended d state winner loser in
  let! g :=
    match winner, loser with
    | None, None =>
        match state with
        | DuelState.DIED | DuelState.ABORTED_BY_CORRECT_DONE
        | DuelState.ABORTED_BY_WRONG_CHOICE => Ok (with_duel g d)
        | _ => Raise ValueError
        end
    | None, Some l =>
        let w := if Color_eqb l (Duel.offense d) then Duel.defense d
                 else Duel.offense d in
        Ok (award_point (with_duel g (Duel.ended d state (Some w) loser)) w)
    | Some w, None =>
        let l := if Color_eqb w (Duel.offense d) then Duel.offense d
                 else Duel.defense d in
        Ok (award_point (with_duel g (Duel.ended d state winner (Some l))) w)
    | Some w, Some _ =>
        Ok (award_point (with_duel g d) w)
    end in
  Ok (fold_left (fun g c => with_player g c (close_deck (player g c)))
                (Duel.players d) g).

(** [Game._end(result, winner, loser)] *)
Definition _end (g : t) (res : GameResult.t) (w l : option Color) : t :=
  let '(w, l) :=
    match w, l with
    | None, _ =>
        (Some (if match l with Some Black => true | _ => false end
               then Red else Black), l)
    | Some w', None =>
        (w, Some (if Color_eqb w' Black then Red else Black))
    | Some _, Some _ => (w, l)
    end in
  mk (player_red g) (player_black g) true w l (Some res)
     (duel_index g) (duel_ongoing g).

(** The first loop of [process_shout]: only the first shout of each
    player is heard. *)
Fixpoint hear (shouts : list Shout) (red_shout_heard black_shout_heard : bool)
         (g : t) : t :=
  match shouts with
  | [] => g
  | shout :: rest =>
      let '(rh, bh, g) :=
        if negb red_shout_heard && Color_eqb (shout_player shout) Red then
          (true, black_shout_heard,
           with_player g Red
             (Player_.with_recent_action (player_red g)
                                         (shout_action shout)))
        else if negb black_shout_heard
                && Color_eqb (shout_player shout) Black then
          (red_shout_heard, true,
           with_player g Black
             (Player_.with_recent_action (player_black g)
                                         (shout_action shout)))
        else (red_shout_heard, black_shout_heard, g) in
      if rh && bh then g else hear rest rh bh g
  end.

Definition recent_is (p : Player) (a : Action.t) : bool :=
  match recent_action p with
  | Some b => Action.eqb b a
  | None => false
  end.

Definition Reply : Set := (Message * Duration.t)%type.

(** The three priority loops [for player in duel.players].  Each one
    returns the game as mutated so far and, when the loop returned from
    [process_shout], the reply. *)
Fixpoint done_loop (K : Constants) (round_ : Z) (ps : list Color) (g : t)
  : exc (t * option Reply) :=
  match ps with
  | [] => Ok (g, None)
  | c :: rest =>
      let! valid_actions := Player_.valid_actions K (player g c) round_ in
      if existsb (Action.eqb Action.DONE) valid_actions
         && recent_is (player g c) Action.DONE then
        let p := player g c in
        let g := with_player g c
                   (Player_.with_num_shout_done p (num_shout_done p + 1)) in
        if is_done K (player g c) then
          let! g := Duel_end K g DuelState.ABORTED_BY_CORRECT_DONE
                             None None in
          let g := _end g GameResult.DONE (Some c) None in
          Ok (g, Some (MsgCorrectDone c, Duration.AFTER_GAME_ENDS))
        else done_loop K round_ rest g
      else done_loop K round_ rest g
  end.

Fixpoint die_loop (K : Constants) (round_ : Z) (ps : list Color) (g : t)
  : exc (t * option Reply) :=
  match ps with
  | [] => Ok (g, None)
  | c :: rest =>
      let! valid_actions := Player_.valid_actions K (player g c) round_ in
      if existsb (Action.eqb Action.DIE) valid_actions
         && recent_is (player g c) Action.DIE then
        let p := player g c in
        let g := with_player g c
                   (Player_.with_num_shout_die p (num_shout_die p + 1)) in
        let! g := Duel_end K g DuelState.DIED None None in
        Ok (g, Some (MsgDied c, Duration.AFTER_DUEL_ENDS))
      else die_loop K round_ rest g
  end.

(** The check [duel.winner.points == constants.REQUIRED_POINTS]. *)
Definition winner_reached (K : Constants) (g : t) : exc (option Color) :=
  let! d := duel g in
  match Duel.winner d with
  | None => Raise AttributeError
  | Some w => Ok (if points (player g w) =? REQUIRED_POINTS K
                  then Some w else None)
  end.

Fixpoint draw_loop (K : Constants) (round_ : Z) (ps : list Color) (g : t)
  : exc (t * option Reply) :=
  match ps with
  | [] => Ok (g, None)
  | c :: rest =>
      let! valid_actions := Player_.valid_actions K (player g c) round_ in
      if existsb (Action.eqb Action.DRAW) valid_actions
         && recent_is (player g c) Action.DRAW then
        let p := player g c in
        let g := with_player g c
                   (Player_.with_num_shout_draw p (num_shout_draw p + 1)) in
        let! d := duel g in
        let! drawn := is_drawn g d in
        if drawn then
          let! g := Duel_end K g DuelState.DRAWN (Some c) None in
          let! reached := winner_reached K g in
          match reached with
          | Some w =>
              Ok (_end g GameResult.FINISHED (Some w) None,
                  Some (MsgCorrectDraw c true, Duration.AFTER_GAME_ENDS))
          | None =>
              Ok (g, Some (MsgCorrectDraw c false, Duration.AFTER_DUEL_ENDS))
          end
        else draw_loop K round_ rest g
      else draw_loop K round_ rest g
  end.

(** The tail of [process_shout], reached when no loop returned. *)
Definition compare_sums (K : Constants) (round_ : Z) (g : t)
  : exc (t * Reply) :=
  if (round_ =? 1) || (round_ =? 2) then
    Ok (g, (MsgDoubleDare, Duration.BEFORE_CARD_OPEN))
  else if round_ =? 3 then
    let! d := duel g in
    let! co := Player_.deck_in_duel_cards (player g (Duel.offense d)) in
    let sum_offense := sum_values co in
    let! cd := Player_.deck_in_duel_cards (player g (Duel.defense d)) in
    let sum_defense := sum_values cd in
    let! r :=
      if sum_offense >? sum_defense then
        let! g := Duel_end K g DuelState.FINISHED
                           (Some (Duel.offense d)) None in
        Ok (g, MsgGreaterSum (Duel.offense d))
      else if sum_offense <? sum_defense then
        let! g := Duel_end K g DuelState.FINISHED
                           (Some (Duel.defense d)) None in
        Ok (g, MsgGreaterSum (Duel.defense d))
      else
        let! g := Duel_end K g DuelState.DRAWN
                           (Some (Duel.defense d)) None in
        Ok (g, MsgEqualSums (Duel.defense d)) in
    let '(g, message) := r in
    let! reached := winner_reached K g in
    match reached with
    | Some w =>
        Ok (_end g GameResult.FINISHED (Some w) None,
            (message true, Duration.AFTER_GAME_ENDS))
    | None => Ok (g, (message false, Duration.AFTER_DUEL_ENDS))
    end
  else Raise ValueError.

Definition process_shout (K : Constants) (g : t) (shouts : list Shout)
  : exc (t * Reply) :=
  let! d := duel g in
  let round_ := Duel._round d in
  let g := hear shouts false false g in
  let! r := done_loop K round_ (Duel.players d) g in
  match r with
  | (g, Some reply) => Ok (g, reply)
  | (g, None) =>
      let! r := die_loop K round_ (Duel.players d) g in
      match r with
      | (g, Some reply) => Ok (g, reply)
      | (g, None) =>
          let! r := draw_loop K round_ (Duel.players d) g in
          match r with
          | (g, Some reply) => Ok (g, reply)
          | (g, None) => compare_sums K round_ g
          end
      end
  end.

(** [Game._open_next_cards] *)
Definition _open_next_cards (g : t) : exc t :=
  let! pr := Player_.open_next_card (player_red g) in
  let g := with_player g Red pr in
  let! pb := Player_.open_next_card (player_black g) in
  Ok (with_player g Black pb).

Definition prepare (g : t) : exc (t * (Message * option Duration.t)) :=
  let! d := duel g in
  match deck_in_duel (player g (Duel.offense d)) with
  | None => Ok (g, (MsgOffenseDeckChoice, Some Duration.BEFORE_DECK_CHOICE))
  | Some _ =>
      match deck_in_duel (player g (Duel.defense d)) with
      | None =>
          Ok (g, (MsgDefenseDeckChoice, Some Duration.BEFORE_DECK_CHOICE))
      | Some _ =>
          if (Duel._round d =? 1) || (Duel._round d =? 2) then
            let! g := _open_next_cards g in
            let g := with_duel g (Duel.to_next_round d) in
            Ok (g, (MsgActionPrompt, Some Duration.BEFORE_ACTION))
          else Ok (g, (MsgSomethingWentWrong, None))
      end
  end.



(** [Game.duels], as [__init__] builds it when no duels are given. *)
Definition duels (DECK_PER_PILE : Z) : list Duel.t :=
  List.map (fun i => Duel.init (Z.of_nat i))
           (seq 0 (Z.to_nat DECK_PER_PILE)).

(** [to_next_duel].  [duel_index] only grows, from -1, and a duel is
    touched only while it is the ongoing one: the duel taken from [duels]
    is as [__init__] built it. *)
Definition to_next_duel (DECK_PER_PILE : Z) (g : t) : exc t :=
  let next_index := duel_index g + 1 in
  let! next_duel := py_get (duels DECK_PER_PILE) next_index in
  Ok (mk (Player_.with_recent_action (player_red g) None)
         (Player_.with_recent_action (player_black g) None)
         (_over g) (winner g) (loser g) (result g) next_index
         (Some (Duel.start next_duel))).

(** [duel.summon(offense_deck)], the deck being the one in slot [k] of
    the offense's decks. *)
Definition Duel_summon_offense (g : t) (d : Duel.t) (k : nat)
           (offense_deck : Deck) : t :=
  let '(offense, _) :=
    Player_.send_to_duel (player g (Duel.offense d)) k offense_deck None in
  with_player g (Duel.offense d) offense.

(** [duel.summon(defense_deck=defense_deck)]: the deck the offense has in
    duel, if any, meets the defense deck.  The offense and the defense are
    two players. *)
Definition Duel_summon_defense (g : t) (d : Duel.t) (k : nat)
           (defense_deck : Deck) : exc t :=
  let offense := player g (Duel.offense d) in
  let! offense_deck :=
    match deck_in_duel offense with
    | None => Ok None
    | Some ko => match decks offense !! ko with
                 | Some deck => Ok (Some (ko, deck))
                 | None => Raise IndexError
                 end
    end in
  let '(defense, met) :=
    Player_.send_to_duel (player g (Duel.defense d)) k defense_deck
                         (option_map snd offense_deck) in
  let g := with_player g (Duel.defense d) defense in
  match offense_deck, met with
  | Some (ko, _), Some deck =>
      let offense := player g (Duel.offense d) in
      Ok (with_player g (Duel.offense d)
            (Player_.with_decks offense (<[ko := deck]> (decks offense))))
  | _, _ => Ok g
  end.

Definition process_offense_deck_index_input (g : t) (index : Z)
  : exc (t * (DeckChoiceMessage * Duration.t)) :=
  let! d := duel g in
  let offense := player g (Duel.offense d) in
  let! k := py_index (decks offense) index in
  match decks offense !! k with
  | None => Raise IndexError
  | Some offense_deck =>
      if Deck_.is_undisclosed offense_deck then
        Ok (Duel_summon_offense g d k offense_deck,
            (MsgOffenseDeckChosen (index + 1), Duration.AFTER_DECK_CHOICE))
      else
        Ok (g, (MsgChooseUndisclosedDeck, Duration.AFTER_DECK_CHOICE))
  end.

Definition process_defense_deck_index_input (g : t) (index : Z)
  : exc (t * (DeckChoiceMessage * Duration.t)) :=
  let! d := duel g in
  let defense := player g (Duel.defense d) in
  let! k := py_index (decks defense) index in
  match decks defense !! k with
  | None => Raise IndexError
  | Some defense_deck =>
      if Deck_.is_undisclosed defense_deck then
        let! g := Duel_summon_defense g d k defense_deck in
        Ok (g, (MsgDefenseDeckChosen (index + 1),
                Duration.AFTER_DECK_CHOICE))
      else
        Ok (g, (MsgChooseUndisclosedDeck, Duration.AFTER_DECK_CHOICE))
  end.
End Game.

(** ** Offense deck choice *)

Module BiggestOffenseDeck.
Definition apply (decks_me : list Deck) : exc Deck :=
  let undisclosed_decks_me := List.filter Deck_.is_undisclosed decks_me in
  py_max _index undisclosed_decks_me.
End BiggestOffenseDeck.

(** ** Defense deck choice *)

Module SmallestDefenseDeck.
Definition apply (decks_opponent : list Deck) : exc Deck :=
  let undisclosed_decks_opponent :=
    List.filter Deck_.is_undisclosed decks_opponent in
  py_min _index undisclosed_decks_opponent.
End SmallestDefenseDeck.

Module StatsConsideredBiggest.
Definition apply (K : Constants) (decks_opponent : list Deck)
           (points_me num_shout_die_opponent : Z) : exc Deck :=
  let undisclosed_decks :=
    List.filter Deck_.is_undisclosed decks_opponent in
  let remaining_die_opponent := MAX_DIE K - num_shout_die_opponent in
  let remaining_points_me := REQUIRED_POINTS K - points_me in
  let index := remaining_die_opponent + remaining_points_me - 1 in
  py_get undisclosed_decks index.
End StatsConsideredBiggest.

(** ** Piles *)

Definition pile_cards (K : Constants) (colored : bool) : list Card :=
  let joker := mkCard None colored JOKER 0 false in
  let suits :=
    List.filter (fun suit => suit mod 2 =? (if colored then 0 else 1))
                (Suit K) in
  joker ::
  List.concat
    (List.map
       (fun suit =>
          List.map (fun rank => mkCard (Some suit) colored (RankNamed rank)
                                       rank false)
                   (Rank K))
       suits).

(** [RedPile().cards] and [BlackPile().cards] *)
Definition RedPile (K : Constants) : list Card := pile_cards K true.
Definition BlackPile (K : Constants) : list Card := pile_cards K false.

(** [UnopenedPile(cards)]: a copy of the list, every card opened. *)
Definition UnopenedPile (cards : list Card) : list Card :=
  List.map open_up cards.

(** [unopened_pile.remove(card)], a missing card being ignored. *)
Fixpoint remove_card (card : Card) (pile : list Card) : list Card :=
  match pile with
  | [] => []
  | c :: t => if Card_eq c card then t else c :: remove_card card t
  end.

(** ** The odds calculator *)

Module JokerValueStrategy.
Inductive t : Set := Thirteen | SameAsMax | RandomNumber | NextBiggest.
End JokerValueStrategy.

(** *** Floats

    Odds are floats in the source.  A float is modelled by the rational
    it denotes; [float_of x] is the binary64 number nearest to the
    rational [x], ties going to the even significand, which is what the
    division of two ints and the conversion of a decimal return.  The
    quotients rounded below lie between 0 and 1, so the overflow of the
    format is left out. *)

(** The integer nearest to [n / d], ties going to the even one. *)
Definition round_half_even (n d : Z) : Z :=
  let q := n / d in
  let r := n mod d in
  if 2 * r <? d then q
  else if d <? 2 * r then q + 1
  else if Z.even q then q else q + 1.

(** [n / d] in binary64: 53 bits of significand, the least exponent of a
    bit being -1074. *)
Definition float_of_ratio (n d : positive) : Q :=
  let a := Z.log2 (Zpos n) in
  let b := Z.log2 (Zpos d) in
  (* 2 ^ l <= n / d < 2 ^ (l + 1) *)
  let l := if Zpos d * 2 ^ a <=? Zpos n * 2 ^ b then a - b else a - b - 1 in
  let e := Z.max (l - 52) (-1074) in
  if 0 <=? e then
    Qred (inject_Z (round_half_even (Zpos n) (Zpos d * 2 ^ e) * 2 ^ e))
  else
    Qred (round_half_even (Zpos n * 2 ^ (- e)) (Zpos d)
          # Z.to_pos (2 ^ (- e))).

Definition float_of (x : Q) : Q :=
  match Qnum x with
  | Z0 => 0%Q
  | Zpos n => float_of_ratio n (Qden x)
  | Zneg n => Qopp (float_of_ratio n (Qden x))
  end.

(** [round(num / total, 3)] of the exact quotient [x] of the two ints: the
    quotient is a float; [round] takes the decimal with three digits
    nearest to the value of that float, ties going to the even digit, and
    returns the float nearest to that decimal. *)
Definition round3 (x : Q) : Q :=
  let y := float_of x in
  let k := round_half_even (Qnum y * 1000) (Zpos (Qden y)) in
  float_of (k # 1000).

Section GetChances.
(** [random.randint], read only when a joker of a [RandomNumber] player
    is guessed. *)
Variable randint : Z -> Z -> Z.

Definition guess_joker_value (delegate_value : Z)
           (joker_value_strategy : JokerValueStrategy.t) : Z :=
  match joker_value_strategy with
  | JokerValueStrategy.Thirteen => 13
  | JokerValueStrategy.SameAsMax => delegate_value
  | JokerValueStrategy.NextBiggest => delegate_value - 1
  | JokerValueStrategy.RandomNumber => randint 1 delegate_value
  end.

Definition open_cards (d : Deck) : list Card :=
  List.filter open_ (_cards d).

(** My hidden cards that can still turn up. *)
Definition hidden_cards_me (decks_me : list Deck) (delegate_value_me : Z)
  : list Card :=
  List.concat
    (List.map
       (fun deck =>
          List.filter
            (fun card =>
               negb (open_ card)
               && (_is_joker card || (_value card <=? delegate_value_me)))
            (_cards deck))
       decks_me).

(** The opponent's: the whole pile less every card seen open. *)
Definition hidden_cards_opponent (K : Constants)
           (decks_opponent : list Deck) (is_opponent_red : bool)
           (delegate_value_opponent : Z) : list Card :=
  let entire_pile := if is_opponent_red then RedPile K else BlackPile K in
  let unopened_pile := UnopenedPile entire_pile in
  let unopened_pile :=
    fold_left
      (fun pile deck =>
         fold_left
           (fun pile card =>
              if open_ card then remove_card card pile else pile)
           (_cards deck) pile)
      decks_opponent unopened_pile in
  List.filter
    (fun card => _is_joker card
                 || (_value card <=? delegate_value_opponent))
    unopened_pile.

Definition guessed_sum (current_sum delegate_value : Z)
           (strategy : JokerValueStrategy.t) (cards : list Card) : Z :=
  fold_left
    (fun sum card =>
       if _is_joker card then sum + guess_joker_value delegate_value strategy
       else sum + _value card)
    cards current_sum.

(** The enumeration of all pairs: [(num_win, num_draw, num_lose)]. *)
Definition count_outcomes (current_sum_me delegate_value_me : Z)
           (joker_value_strategy_me : JokerValueStrategy.t)
           (current_sum_opponent delegate_value_opponent : Z)
           (candidates_me candidates_opponent : list (list Card))
  : Z * Z * Z :=
  fold_left
    (fun counts cards_me =>
       fold_left
         (fun '(num_win, num_draw, num_lose) cards_opponent =>
            let sum_me :=
              guessed_sum current_sum_me delegate_value_me
                          joker_value_strategy_me cards_me in
            let sum_opponent :=
              guessed_sum current_sum_opponent delegate_value_opponent
                          JokerValueStrategy.SameAsMax cards_opponent in
            if sum_me >? sum_opponent then
              (num_win + 1, num_draw, num_lose)
            else if sum_me =? sum_opponent then
              (num_win, num_draw + 1, num_lose)
            else (num_win, num_draw, num_lose + 1))
         candidates_opponent counts)
    candidates_me (0, 0, 0).

Definition divide (a b : Z) : exc Q :=
  match b with
  | Zpos d => Ok (a # d)
  | Zneg d => Ok ((- a) # d)
  | Z0 => Raise ZeroDivisionError
  end.

(** [ComputerPlayer.get_chances(decks_me, decks_opponent,
    is_opponent_red, joker_value_strategy_me=...)]; the two optional
    decks are left at their default [None], as at the one call site. *)
Definition get_chances (K : Constants) (decks_me decks_opponent : list Deck)
           (is_opponent_red : bool)
           (joker_value_strategy_me : JokerValueStrategy.t)
  : exc (Q * Q * Q) :=
  let! deck_in_duel_me := py_next Deck_.is_in_duel decks_me in
  let current_sum_me := sum_values (open_cards deck_in_duel_me) in
  let! delegate_value_me := Deck_.delegate_value deck_in_duel_me in
  let hidden_me := hidden_cards_me decks_me delegate_value_me in
  let num_opened := Z.of_nat (length (open_cards deck_in_duel_me)) in
  let num_to_open := 3 - num_opened in
  let! deck_in_duel_opponent := py_next Deck_.is_in_duel decks_opponent in
  let current_sum_opponent :=
    sum_values (open_cards deck_in_duel_opponent) in
  let! delegate_value_opponent :=
    Deck_.delegate_value deck_in_duel_opponent in
  let hidden_opponent :=
    hidden_cards_opponent K decks_opponent is_opponent_red
                          delegate_value_opponent in
  (* itertools.combinations refuses a negative size *)
  if num_to_open <? 0 then Raise ValueError else
  let candidates_me := combinations hidden_me (Z.to_nat num_to_open) in
  let candidates_opponent :=
    combinations hidden_opponent (Z.to_nat num_to_open) in
  let '(num_win, num_draw, num_lose) :=
    count_outcomes current_sum_me delegate_value_me joker_value_strategy_me
                   current_sum_opponent delegate_value_opponent
                   candidates_me candidates_opponent in
  let total := num_win + num_draw + num_lose in
  let! odds_win := divide num_win total in
  let! odds_draw := divide num_draw total in
  let! odds_lose := divide num_lose total in
  Ok (round3 odds_win, round3 odds_draw, round3 odds_lose).
End GetChances.

(** ** The computer player's shout *)

(** [raise Exception(...)]: the class itself, beside the built-in
    exceptions of [Exn]. *)
Inductive Raised : Set :=
| Builtin (e : Exn)
| Exception.

Module SimpleActionChoiceStrategy.
Section Apply.
Variable K : Constants.
Variable randint : Z -> Z -> Z.
(** The odds are floats in the source: the sum and the comparison of two
    floats, and the test [random.random() < x], are parameters. *)
Variable float_add : Q -> Q -> Q.
Variable float_gt : Q -> Q -> bool.
Variable random_lt : Q -> bool.

Definition apply (round_ : Z) (in_turn : bool)
           (decks_me decks_opponent : list Deck) (num_shout_die_me : Z)
           (is_opponent_red : bool) : option Action.t + Raised :=
  match ComputerPlayer.undisclosed_values K decks_me with
  | [] => inl (Some Action.DONE)
  | _ :: _ =>
      if (round_ =? 1) || (round_ =? 2) then
        match get_chances randint K decks_me decks_opponent is_opponent_red
                          JokerValueStrategy.SameAsMax with
        | Raise e => inr (Builtin e)
        | Ok (odds_win, odds_draw, odds_lose) =>
            let odds_lose :=
              if in_turn then float_add odds_lose odds_draw else odds_lose in
            let odds_win :=
              if in_turn then odds_win else float_add odds_win odds_draw in
            if num_shout_die_me <? MAX_DIE K then
              if float_gt odds_lose (float_add odds_win (1 # 10)) then
                if random_lt (7 # 10) then inl (Some Action.DIE)
                else inl (Some Action.DARE)
              else inl (Some Action.DARE)
            else inl (Some Action.DARE)
        end
      else if round_ =? 3 then
        match py_next Deck_.is_in_duel decks_me with
        | Raise e => inr (Builtin e)
        | Ok deck_in_duel_me =>
            match py_next Deck_.is_in_duel decks_opponent with
            | Raise e => inr (Builtin e)
            | Ok deck_in_duel_opponent =>
                let sum_me := sum_values (_cards deck_in_duel_me) in
                let sum_opponent :=
                  sum_values (_cards deck_in_duel_opponent) in
                if sum_me =? sum_opponent then inl (Some Action.DRAW)
                else inl None
            end
        end
      else inr Exception
  end.

(** [in_turn ^ (duel_index % 2 == 0)] *)
Definition is_opponent_red (in_turn : bool) (duel_index : Z) : bool :=
  xorb in_turn (duel_index mod 2 =? 0).

(** [ComputerPlayer.shout] of the player [self], of colour [c], whose
    strategy is [SimpleActionChoiceStrategy]. *)
Definition shout (self : Player) (c : Color) (decks_opponent : list Deck)
           (round_ : Z) (in_turn : bool) (duel_index : Z)
  : Shout + Raised :=
  match apply round_ in_turn (decks self) decks_opponent
              (num_shout_die self) (is_opponent_red in_turn duel_index) with
  | inl action => inl (mkShout c action)
  | inr e => inr e
  end.

(** [Game._get_actions] when a player is not human, both being computer
    players: the offense shouts, then the defense. *)
Definition _get_actions (g : Game.t) : list Shout + Raised :=
  match Game.duel_ongoing g with
  | None => inr (Builtin AttributeError)
  | Some d =>
      let round_ := Duel._round d in
      let shout_of (c : Color) :=
        let in_turn := Color_eqb c (Duel.offense d) in
        let opponent :=
          if in_turn then Duel.defense d else Duel.offense d in
        shout (Game.player g c) c (decks (Game.player g opponent))
              round_ in_turn (Duel._index d) in
      match shout_of (Duel.offense d) with
      | inr e => inr e
      | inl shout_offense =>
          match shout_of (Duel.defense d) with
          | inr e => inr e
          | inl shout_defense => inl [shout_offense; shout_defense]
          end
      end
  end.
End Apply.
End SimpleActionChoiceStrategy.

(** ** Building the decks *)

Section BuildDecks.
Variable DECK_PER_PILE CARD_PER_DECK : Z.
(** [random.shuffle], and the [apply] of the player's two strategies. *)
Variable shuffle : list Card -> list Card.
Variable joker_value_strategy : list Card -> exc (list Card).
Variable joker_position_strategy : list Card -> exc (list Card).

(** [cards.append(pile.pop())], [n] times; [stack] is the pile read from
    its end. *)
Fixpoint deal (n : nat) (stack cards : list Card)
  : exc (list Card * list Card) :=
  match n with
  | O => Ok (stack, cards)
  | S n' =>
      match stack with
      | [] => Raise IndexError
      | new_card :: stack' => deal n' stack' (cards ++ [new_card])
      end
  end.

(** The loop [for j in range(DECK_PER_PILE)]. *)
Fixpoint deal_decks (n : nat) (stack : list Card)
         (decks_previous : list (list Card)) : exc (list (list Card)) :=
  match n with
  | O => Ok decks_previous
  | S n' =>
      let! dealt := deal (Z.to_nat CARD_PER_DECK) stack [] in
      let '(stack, cards) := dealt in
      let! cards := joker_value_strategy cards in
      let! cards := joker_position_strategy cards in
      deal_decks n' stack (decks_previous ++ [cards])
  end.

(** The keys [x[0]._value] that [sort] computes first. *)
Fixpoint delegate_keys (decks_previous : list (list Card))
  : exc (list (Z * list Card)) :=
  match decks_previous with
  | [] => Ok []
  | cards :: rest =>
      let! delegate := py_get cards 0 in
      let! keyed := delegate_keys rest in
      Ok ((_value delegate, cards) :: keyed)
  end.

(** [list.sort] is stable: an element goes behind those of a key not
    greater than its own. *)
Fixpoint insert_sorted (x : Z * list Card) (l : list (Z * list Card))
  : list (Z * list Card) :=
  match l with
  | [] => [x]
  | y :: t => if fst x <? fst y then x :: y :: t
              else y :: insert_sorted x t
  end.

Definition stable_sort (l : list (Z * list Card)) : list (Z * list Card) :=
  fold_left (fun sorted x => insert_sorted x sorted) l [].

(** The loop over [enumerate(decks_previous)]. *)
Fixpoint index_decks (index : Z) (decks_previous : list (list Card))
  : exc (list Deck) :=
  match decks_previous with
  | [] => Ok []
  | cards :: rest =>
      let deck := mkDeck cards DeckState.UNDISCLOSED index None None in
      let! delegate := py_get (_cards deck) 0 in
      let deck := Deck_.with_cards deck (<[0%nat := open_up delegate]> cards) in
      let! decks := index_decks (index + 1) rest in
      Ok (deck :: decks)
  end.

(** [Player.build_decks]: the decks it stores in [self.decks], from the
    player's pile. *)
Definition build_decks (pile : list Card) : exc (list Deck) :=
  let pile := shuffle pile in
  let! decks_previous :=
    deal_decks (Z.to_nat DECK_PER_PILE) (rev pile) [] in
  let! keyed := delegate_keys decks_previous in
  let decks_previous := List.map snd (stable_sort keyed) in
  index_decks 0 decks_previous.
End BuildDecks.

(** ** Shouts by key presses *)

Section Keypress.
Variable K : Constants.
(** [player.key_settings.items()] of the two players, in dict order. *)
Variable key_settings : Color -> list (Action.t * ascii).

(** [{key: action for action, key in player.key_settings.items()}
    .get(key_pressed)]: of two actions on one key the later one stays. *)
Definition key_to_action (c : Color) (key_pressed : ascii)
  : option Action.t :=
  fold_left (fun found item =>
               if Ascii.eqb (snd item) key_pressed then Some (fst item)
               else found)
            (key_settings c) None.

(** The shouts one key gives rise to for the player [c]. *)
Definition key_shouts (g : Game.t) (round_ : Z) (key_pressed : ascii)
           (c : Color) : exc (list Shout) :=
  let! valid_actions := Player_.valid_actions K (Game.player g c) round_ in
  match key_to_action c key_pressed with
  | Some action =>
      if existsb (Action.eqb action) valid_actions
      then Ok [mkShout c (Some action)]
      else Ok []
  | None => Ok []
  end.

Fixpoint keypress_shouts (g : Game.t) (round_ : Z)
         (keys_pressed : list ascii) : exc (list Shout) :=
  match keys_pressed with
  | [] => Ok []
  | key_pressed :: rest =>
      let! shouts_red := key_shouts g round_ key_pressed Red in
      let! shouts_black := key_shouts g round_ key_pressed Black in
      let! shouts := keypress_shouts g round_ rest in
      Ok (shouts_red ++ shouts_black ++ shouts)
  end.

Definition process_shout_keypress (g : Game.t) (keys_pressed : list ascii)
  : exc (Game.t * Game.Reply) :=
  let! d := Game.duel g in
  let round_ := Duel._round d in
  let! shouts := keypress_shouts g round_ keys_pressed in
  Game.process_shout K g shouts.
End Keypress.

(** * Properties *)

(** ** Sample data

    [K0] instantiates the constants so that the functions can be run on
    concrete games; every theorem below is stated for all constants. *)

Definition K0 : Constants :=
  mkConstants 3 1 5 [1; 2; 3; 4; 5; 6; 7; 8; 9; 10; 11; 12; 13] [0; 1; 2; 3]
    (fun s => match s with
              | DuelState.UNSTARTED => 1
              | DuelState.ONGOING => 2
              | DuelState.DIED => 3
              | DuelState.DRAWN => 4
              | DuelState.FINISHED => 5
              | DuelState.ABORTED_BY_CORRECT_DONE => 6
              | DuelState.ABORTED_BY_WRONG_CHOICE => 7
              end).

Definition black_joker (v : Z) (o : bool) : Card :=
  mkCard None false JOKER v o.
Definition black_card (s r : Z) (o : bool) : Card :=
  mkCard (Some s) false (RankNamed r) r o.

(** ** Basic facts on the list primitives *)

Lemma combinations_0 {A : Type} (l : list A) : combinations l 0 = [[]].
Proof. destruct l; reflexivity. Qed.

Lemma combinations_nil_S {A : Type} (k : nat) :
  combinations (@nil A) (S k) = [].
Proof. reflexivity. Qed.

Lemma filter_all {A : Type} (p : A -> bool) (l : list A) :
  forallb p l = true -> List.filter p l = l.
Proof.
  induction l as [|x t IH]; simpl; [reflexivity|].
  intros H. apply andb_prop in H as [Hx Ht].
  rewrite Hx, IH by assumption. reflexivity.
Qed.

Lemma py_get_beyond {A : Type} (l : list A) (i : Z) :
  Z.of_nat (length l) <= i -> py_get l i = Raise IndexError.
Proof.
  intros H. unfold py_get, py_index; cbv zeta.
  replace (i <? Z.of_nat (length l)) with false by (symmetry; apply Z.ltb_ge; lia).
  replace (i <? 0) with false by (symmetry; apply Z.ltb_ge; lia).
  rewrite andb_false_r. reflexivity.
Qed.

Lemma Card_eq_refl (c : Card) : Card_eq c c = true.
Proof.
  destruct c as [[s|] col [|r] v o]; unfold Card_eq; simpl;
    rewrite ?Z.eqb_refl, ?eqb_reflx; reflexivity.
Qed.

(** ** Joker value: NextBiggest *)

(** The value the joker of a deck carries once [NextBiggest] has run. *)
Definition resolved_joker_value (cards : list Card) : exc Z :=
  let! cards' := NextBiggest.apply cards in
  let! joker := py_next _is_joker cards' in
  Ok (_value joker).

(** The values of the deck's cards that are not jokers, in deck order. *)
Definition non_joker_values (cards : list Card) : list Z :=
  List.map _value (List.filter (fun c => negb (_is_joker c)) cards).

Lemma Card_eq_joker_rank (s s' : option Z) (col col' : bool) (r v v' : Z)
      (o o' : bool) :
  Card_eq (mkCard s col (RankNamed r) v o) (mkCard s' col' JOKER v' o') = false.
Proof. unfold Card_eq; simpl. apply andb_false_r. Qed.

Ltac nb_run :=
  unfold resolved_joker_value, NextBiggest.apply; simpl;
  rewrite ?Card_eq_joker_rank, ?Card_eq_refl; simpl; reflexivity.

(** C5 (as the code has it).  For every 3-card deck holding one joker, in
    any slot and with the two other cards in any order: if the two
    non-joker values are 5 and 9, NextBiggest sets the joker to 8; if they
    are 7 and 8, it sets the joker to 6 (the greatest value below 8 that
    the deck does not hold yet). *)
Theorem next_biggest_test_vectors (cards : list Card) :
  length cards = 3%nat ->
  length (List.filter _is_joker cards) = 1%nat ->
  (Permutation (non_joker_values cards) [5; 9] ->
   resolved_joker_value cards = Ok 8)
  /\ (Permutation (non_joker_values cards) [7; 8] ->
      resolved_joker_value cards = Ok 6).
Proof.
  intros Hlen Hjok.
  destruct cards as [|[s1 c1 r1 v1 o1] [|[s2 c2 r2 v2 o2]
                    [|[s3 c3 r3 v3 o3] [|]]]]; try discriminate.
  destruct r1, r2, r3; simpl in Hjok; try discriminate;
    unfold non_joker_values; simpl; split; intros HP;
    apply Permutation_sym, Permutation_length_2_inv in HP;
    destruct HP as [HP|HP]; injection HP as -> ->; nb_run.
Qed.

Lemma next_biggest_test_vectors_witness :
  resolved_joker_value
    [red_card 0 9 false; red_joker 0 false; red_card 2 5 false] = Ok 8.
Proof.
  apply (next_biggest_test_vectors
           [red_card 0 9 false; red_joker 0 false; red_card 2 5 false]).
  - reflexivity.
  - reflexivity.
  - apply perm_swap.
Defined.

(** C5 as stated fails on its second vector: with the non-joker values 7
    and 8 the joker is set to 6, not to 5. *)
Lemma next_biggest_7_8_not_5 :
  resolved_joker_value
    [red_card 0 7 false; red_card 0 8 false; red_joker 0 false] = Ok 6
  /\ resolved_joker_value
       [red_card 0 7 false; red_card 0 8 false; red_joker 0 false] <> Ok 5.
Proof. split; [reflexivity | discriminate]. Qed.

(** ** Joker position: JokerLast *)

Lemma Card_eq_joker_rank' (s s' : option Z) (col col' : bool) (r v v' : Z)
      (o o' : bool) :
  Card_eq (mkCard s' col' JOKER v' o') (mkCard s col (RankNamed r) v o) = false.
Proof. unfold Card_eq; simpl. apply andb_false_r. Qed.

Ltac of_nat_run :=
  repeat (progress (cbn;
                    unfold JokerPositionStrategy.to_delegate,
                      py_get, py_set, py_index;
                    cbn;
                    change (Z.of_nat 0) with 0;
                    change (Z.of_nat 1) with 1;
                    change (Z.of_nat 2) with 2;
                    change (Z.of_nat 3) with 3;
                    change (Z.to_nat 0) with 0%nat;
                    change (Z.to_nat 1) with 1%nat;
                    change (Z.to_nat 2) with 2%nat)).

(** C7 (where the code departs from it).  When the joker is dealt into
    slot 0 and its value does not exceed the best non-joker, JokerLast
    first swaps the best non-joker into slot 0 and then swaps the last
    slot with slot 0 again, where the joker no longer is: the deck ends as
    [joker, x, y] when the best card was last, and as [y, joker, x]
    otherwise.  The joker never reaches the last slot. *)
Theorem joker_last_joker_dealt_first (j x y : Card) :
  _is_joker j = true -> _is_joker x = false -> _is_joker y = false ->
  Card_eq x y = false ->
  _value j <= Z.max (_value x) (_value y) ->
  JokerLast.apply [j; x; y]
  = Ok (if _value x <? _value y then [j; x; y] else [y; j; x]).
Proof.
  destruct j as [sj cj [|rj] vj oj]; [|discriminate].
  destruct x as [sx cx [|rx] vx ox]; [discriminate|].
  destruct y as [sy cy [|ry] vy oy]; [discriminate|].
  intros _ _ _ Hxy Hle; simpl in Hle.
  unfold JokerLast.apply, JokerPositionStrategy.find_joker_index,
    JokerPositionStrategy.biggest, py_list_index; of_nat_run.
  destruct (Z.ltb_spec vx vy) as [Hlt|Hge]; of_nat_run.
  - assert ((vj >? vy) = false) as ->
        by (rewrite Z.gtb_ltb; apply Z.ltb_ge; lia).
    rewrite Card_eq_joker_rank', Hxy, Card_eq_refl.
    of_nat_run; reflexivity.
  - assert ((vj >? vx) = false) as ->
        by (rewrite Z.gtb_ltb; apply Z.ltb_ge; lia).
    rewrite Card_eq_joker_rank', Card_eq_refl.
    of_nat_run; reflexivity.
Qed.

Lemma joker_last_joker_dealt_first_witness :
  JokerLast.apply [red_joker 9 false; red_card 0 5 false; red_card 0 9 false]
  = Ok [red_joker 9 false; red_card 0 5 false; red_card 0 9 false].
Proof.
  apply (joker_last_joker_dealt_first
           (red_joker 9 false) (red_card 0 5 false) (red_card 0 9 false));
    first [reflexivity | simpl; lia].
Defined.

(** The same strategy on a joker dealt into slot 1 or slot 2 does what its
    docstring says: the best non-joker leads and the joker comes last. *)
Lemma joker_last_joker_dealt_later (j x y : Card) :
  _is_joker j = true -> _is_joker x = false -> _is_joker y = false ->
  Card_eq x y = false ->
  _value j <= Z.max (_value x) (_value y) ->
  let best := if _value x <? _value y then y else x in
  let rest := if _value x <? _value y then x else y in
  JokerLast.apply [x; j; y] = Ok [best; rest; j]
  /\ JokerLast.apply [x; y; j] = Ok [best; rest; j].
Proof.
  destruct j as [sj cj [|rj] vj oj]; [|discriminate].
  destruct x as [sx cx [|rx] vx ox]; [discriminate|].
  destruct y as [sy cy [|ry] vy oy]; [discriminate|].
  intros _ _ _ Hxy Hle; simpl in Hle.
  unfold JokerLast.apply, JokerPositionStrategy.find_joker_index,
    JokerPositionStrategy.biggest, py_list_index; of_nat_run.
  destruct (Z.ltb_spec vx vy) as [Hlt|Hge]; of_nat_run.
  - assert ((vj >? vy) = false) as ->
        by (rewrite Z.gtb_ltb; apply Z.ltb_ge; lia).
    rewrite ?Hxy, ?Card_eq_joker_rank', ?Card_eq_refl.
    split; of_nat_run; reflexivity.
  - assert ((vj >? vx) = false) as ->
        by (rewrite Z.gtb_ltb; apply Z.ltb_ge; lia).
    rewrite ?Card_eq_joker_rank', ?Card_eq_refl.
    split; of_nat_run; reflexivity.
Qed.

(** ** Defense deck choice: StatsConsideredBiggest *)

(** Within the list, the computed offset does select an undisclosed deck
    of the opponent. *)
Lemma stats_considered_biggest_in_range (K : Constants)
      (decks_opponent : list Deck) (points_me num_shout_die_opponent : Z) :
  let index := MAX_DIE K - num_shout_die_opponent
               + (REQUIRED_POINTS K - points_me) - 1 in
  0 <= index
  < Z.of_nat (length (List.filter Deck_.is_undisclosed decks_opponent)) ->
  exists deck,
    StatsConsideredBiggest.apply K decks_opponent points_me
                                 num_shout_die_opponent = Ok deck
    /\ In deck decks_opponent /\ Deck_.is_undisclosed deck = true.
Proof.
  intros index Hi. unfold StatsConsideredBiggest.apply, py_get, py_index.
  fold index. cbv zeta.
  set (und := List.filter Deck_.is_undisclosed decks_opponent) in *.
  replace ((0 <=? index) && (index <? Z.of_nat (length und))) with true.
  2:{ symmetry. apply andb_true_intro. split;
      [apply Z.leb_le | apply Z.ltb_lt]; lia. }
  simpl. destruct (und !! Z.to_nat index) as [deck|] eqn:E.
  - exists deck. split; [reflexivity|].
    assert (In deck und) as Hin.
    { apply list_elem_of_In. eapply list_elem_of_lookup_2. exact E. }
    apply filter_In in Hin. exact Hin.
  - apply lookup_ge_None in E. lia.
Qed.

(** C8 (where the code departs from it).  Nothing bounds the offset: as
    soon as it reaches the number of undisclosed decks of the opponent,
    also when there is such a deck, the subscript raises [IndexError]. *)
Theorem stats_considered_biggest_out_of_range (K : Constants)
        (decks_opponent : list Deck) (points_me num_shout_die_opponent : Z) :
  Z.of_nat (length (List.filter Deck_.is_undisclosed decks_opponent))
  <= MAX_DIE K - num_shout_die_opponent + (REQUIRED_POINTS K - points_me) - 1 ->
  StatsConsideredBiggest.apply K decks_opponent points_me
                               num_shout_die_opponent
  = Raise IndexError.
Proof.
  intros H. unfold StatsConsideredBiggest.apply. cbv zeta.
  apply py_get_beyond. exact H.
Qed.

(** The sibling strategy never fails while an undisclosed deck is left. *)
Lemma smallest_defense_deck_total (decks_opponent : list Deck) :
  existsb Deck_.is_undisclosed decks_opponent = true ->
  exists deck, SmallestDefenseDeck.apply decks_opponent = Ok deck.
Proof.
  intros H. unfold SmallestDefenseDeck.apply, py_min.
  destruct (List.filter Deck_.is_undisclosed decks_opponent) as [|d t] eqn:E.
  - apply existsb_exists in H as [d [Hin Hd]].
    assert (In d (List.filter Deck_.is_undisclosed decks_opponent)) as Hf
        by (apply filter_In; split; assumption).
    rewrite E in Hf. destruct Hf.
  - eexists. reflexivity.
Qed.

Definition undisclosed_deck (index : Z) (a b c : Card) : Deck :=
  mkDeck [open_up a; b; c] DeckState.UNDISCLOSED index None None.

(** Two decks of Black are left for the eighth duel; Red has scored no
    point yet and Black has never shouted die. *)
Definition two_decks_left : list Deck :=
  [undisclosed_deck 7 (black_card 1 12 false) (black_card 3 11 false)
                    (black_card 3 12 false);
   undisclosed_deck 8 (black_card 1 13 false) (black_card 3 13 false)
                    (black_joker 4 false)].

Lemma stats_considered_biggest_out_of_range_witness :
  StatsConsideredBiggest.apply K0 two_decks_left 0 0 = Raise IndexError.
Proof.
  apply (stats_considered_biggest_out_of_range K0 two_decks_left 0 0).
  simpl. lia.
Defined.

(** ** The odds calculator *)

(** The distribution that puts all the weight on the outcome of comparing
    the two sums: (win, draw, lose). *)
Definition degenerate_odds (sum_me sum_opponent : Z) : Q * Q * Q :=
  if sum_me >? sum_opponent then (1%Q, 0%Q, 0%Q)
  else if sum_me =? sum_opponent then (0%Q, 1%Q, 0%Q)
  else (0%Q, 0%Q, 1%Q).

(** C9.  When the two decks in duel have all their three cards open,
    [get_chances] returns 1 for the outcome that the comparison of the two
    decks' sums gives and 0 for the two other outcomes. *)
Theorem get_chances_all_open (randint : Z -> Z -> Z) (K : Constants)
        (decks_me decks_opponent : list Deck) (is_opponent_red : bool)
        (joker_value_strategy_me : JokerValueStrategy.t)
        (deck_in_duel_me deck_in_duel_opponent : Deck) :
  py_next Deck_.is_in_duel decks_me = Ok deck_in_duel_me ->
  py_next Deck_.is_in_duel decks_opponent = Ok deck_in_duel_opponent ->
  length (_cards deck_in_duel_me) = 3%nat ->
  forallb open_ (_cards deck_in_duel_me) = true ->
  length (_cards deck_in_duel_opponent) = 3%nat ->
  forallb open_ (_cards deck_in_duel_opponent) = true ->
  get_chances randint K decks_me decks_opponent is_opponent_red
              joker_value_strategy_me
  = Ok (degenerate_odds (sum_values (_cards deck_in_duel_me))
                        (sum_values (_cards deck_in_duel_opponent))).
Proof.
  intros Hme Hop Lme Ome Lop Oop.
  unfold get_chances. rewrite Hme, Hop. cbn [bind]. cbv zeta.
  unfold open_cards. rewrite (filter_all _ _ Ome), (filter_all _ _ Oop).
  rewrite Lme. change (3 - Z.of_nat 3) with 0. change (Z.to_nat 0) with 0%nat.
  assert (forall d, length (_cards d) = 3%nat ->
                    Deck_.delegate_value d
                    = Ok (match _cards d with c :: _ => _value c | [] => 0 end))
    as Hdel.
  { intros d Hd. unfold Deck_.delegate_value.
    destruct (_cards d) as [|c t]; [discriminate|]. reflexivity. }
  rewrite (Hdel _ Lme), (Hdel _ Lop). cbn [bind].
  rewrite !combinations_0.
  change (0 <? 0) with false. cbv iota.
  unfold count_outcomes, degenerate_odds. cbn [fold_left guessed_sum].
  destruct (_ >? _); [reflexivity|].
  destruct (_ =? _); reflexivity.
Qed.

(** *** A game in its second duel

    Red plays JokerLast and was dealt joker, nine, ace into one deck: the
    strategy leaves the ace in front (see [joker_last_dealt_joker_9_ace]).
    The first duel opposed Red's deck 1 to Black's deck 0; in the second
    duel Black attacks with its deck 8 and Red defends with that deck 0.
    [third] tells whether the third cards of the duel are open yet. *)

Definition red_decks (third : bool) : list Deck :=
  [ mkDeck [red_card 0 1 true; red_joker 9 true; red_card 0 9 third]
           DeckState.IN_DUEL 0 (Some 8) (if third then None else Some 2);
    mkDeck [red_card 0 3 true; red_card 0 2 true; red_card 2 1 true]
           DeckState.FINISHED 1 (Some 0) None;
    undisclosed_deck 2 (red_card 0 5 false) (red_card 0 4 false)
                     (red_card 2 2 false);
    undisclosed_deck 3 (red_card 0 7 false) (red_card 0 6 false)
                     (red_card 2 3 false);
    undisclosed_deck 4 (red_card 0 8 false) (red_card 2 4 false)
                     (red_card 2 5 false);
    undisclosed_deck 5 (red_card 0 10 false) (red_card 2 6 false)
                     (red_card 2 7 false);
    undisclosed_deck 6 (red_card 0 11 false) (red_card 2 8 false)
                     (red_card 2 9 false);
    undisclosed_deck 7 (red_card 0 12 false) (red_card 2 10 false)
                     (red_card 2 11 false);
    undisclosed_deck 8 (red_card 0 13 false) (red_card 2 12 false)
                     (red_card 2 13 false) ].

Definition black_decks (third : bool) : list Deck :=
  [ mkDeck [black_card 1 3 true; black_card 1 2 true; black_card 1 1 true]
           DeckState.FINISHED 0 (Some 1) None;
    undisclosed_deck 1 (black_card 1 5 false) (black_card 1 4 false)
                     (black_card 3 1 false);
    undisclosed_deck 2 (black_card 1 7 false) (black_card 1 6 false)
                     (black_card 3 2 false);
    undisclosed_deck 3 (black_card 1 8 false) (black_card 3 3 false)
                     (black_card 3 4 false);
    undisclosed_deck 4 (black_card 1 9 false) (black_card 3 5 false)
                     (black_card 3 6 false);
    undisclosed_deck 5 (black_card 1 10 false) (black_card 3 7 false)
                     (black_card 3 8 false);
    undisclosed_deck 6 (black_card 1 11 false) (black_card 3 9 false)
                     (black_card 3 10 false);
    undisclosed_deck 7 (black_card 1 12 false) (black_card 3 11 false)
                     (black_card 3 12 false);
    mkDeck [black_card 1 13 true; black_card 3 13 true; black_joker 4 third]
           DeckState.IN_DUEL 8 (Some 0) (if third then None else Some 2) ].

Example joker_last_dealt_joker_9_ace :
  JokerLast.apply [red_joker 9 false; red_card 0 9 false; red_card 0 1 false]
  = Ok [red_card 0 1 false; red_joker 9 false; red_card 0 9 false].
Proof. reflexivity. Qed.

Lemma get_chances_all_open_witness :
  get_chances (fun _ hi => hi) K0 (black_decks true) (red_decks true) true
              JokerValueStrategy.SameAsMax
  = Ok (1%Q, 0%Q, 0%Q).
Proof.
  apply (get_chances_all_open (fun _ hi => hi) K0 (black_decks true)
           (red_decks true) true JokerValueStrategy.SameAsMax
           (mkDeck [black_card 1 13 true; black_card 3 13 true;
                    black_joker 4 true]
                   DeckState.IN_DUEL 8 (Some 0) None)
           (mkDeck [red_card 0 1 true; red_joker 9 true; red_card 0 9 true]
                   DeckState.IN_DUEL 0 (Some 8) None));
    reflexivity.
Defined.

Lemma count_outcomes_no_opponent (randint : Z -> Z -> Z)
      (sum_me del_me : Z) (strategy : JokerValueStrategy.t)
      (sum_opponent del_opponent : Z) (candidates_me : list (list Card)) :
  count_outcomes randint sum_me del_me strategy sum_opponent del_opponent
                 candidates_me []
  = (0, 0, 0).
Proof.
  unfold count_outcomes. generalize (0, 0, 0).
  induction candidates_me as [|c t IH]; intros acc; simpl; [reflexivity|].
  apply IH.
Qed.

(** C10 (where the code departs from it).  When a card is still to be
    opened and no card of the opponent's pile passes the test against the
    opponent's delegate, no pair is enumerated and the first division
    raises [ZeroDivisionError]. *)
Theorem get_chances_no_candidate (randint : Z -> Z -> Z) (K : Constants)
        (decks_me decks_opponent : list Deck) (is_opponent_red : bool)
        (joker_value_strategy_me : JokerValueStrategy.t)
        (deck_in_duel_me deck_in_duel_opponent : Deck)
        (delegate_value_me delegate_value_opponent : Z) :
  py_next Deck_.is_in_duel decks_me = Ok deck_in_duel_me ->
  py_next Deck_.is_in_duel decks_opponent = Ok deck_in_duel_opponent ->
  Deck_.delegate_value deck_in_duel_me = Ok delegate_value_me ->
  Deck_.delegate_value deck_in_duel_opponent = Ok delegate_value_opponent ->
  (length (open_cards deck_in_duel_me) < 3)%nat ->
  hidden_cards_opponent K decks_opponent is_opponent_red
                        delegate_value_opponent = [] ->
  get_chances randint K decks_me decks_opponent is_opponent_red
              joker_value_strategy_me
  = Raise ZeroDivisionError.
Proof.
  intros Hme Hop Dme Dop Hlt Hnone.
  unfold get_chances. rewrite Hme, Hop. cbn [bind].
  rewrite Dme, Dop. cbn [bind]. cbv zeta. rewrite Hnone.
  set (n := 3 - Z.of_nat (length (open_cards deck_in_duel_me))).
  assert (0 < n) as Hn by (unfold n; lia).
  replace (n <? 0) with false by (symmetry; apply Z.ltb_ge; lia).
  destruct (Z.to_nat n) as [|k] eqn:E; [lia|].
  rewrite combinations_nil_S, count_outcomes_no_opponent. reflexivity.
Qed.

Lemma get_chances_no_candidate_witness :
  get_chances (fun _ hi => hi) K0 (black_decks false) (red_decks false) true
              JokerValueStrategy.SameAsMax
  = Raise ZeroDivisionError.
Proof.
  apply (get_chances_no_candidate (fun _ hi => hi) K0 (black_decks false)
           (red_decks false) true JokerValueStrategy.SameAsMax
           (mkDeck [black_card 1 13 true; black_card 3 13 true;
                    black_joker 4 false]
                   DeckState.IN_DUEL 8 (Some 0) (Some 2))
           (mkDeck [red_card 0 1 true; red_joker 9 true; red_card 0 9 false]
                   DeckState.IN_DUEL 0 (Some 8) (Some 2))
           13 1);
    first [reflexivity | simpl; lia].
Defined.

(** ** The shout resolution *)

(** *** A game in its seventh duel

    Six duels are over; both players have seen every rank among the decks
    they have played.  Red attacks with its deck 3 and Black defends with
    its deck 3. *)

Definition finished_deck (index : Z) (a b c : Card) : Deck :=
  mkDeck [open_up a; open_up b; open_up c] DeckState.FINISHED index
         (Some index) None.

Definition late_decks (card : Z -> Z -> bool -> Card) (joker : Card)
           (lo hi : Z) (opened : Z) : list Deck :=
  [ finished_deck 0 (card lo 3 false) (card lo 2 false) (card lo 1 false);
    finished_deck 1 (card lo 5 false) (card lo 4 false) (card hi 1 false);
    finished_deck 2 (card lo 7 false) (card lo 6 false) (card hi 2 false);
    mkDeck [card hi 8 true; card hi 6 (2 <=? opened); card hi 7 (3 <=? opened)]
           DeckState.IN_DUEL 3 (Some 3)
           (if opened =? 2 then Some 2 else None);
    finished_deck 4 (card lo 9 false) (card lo 8 false) (card hi 3 false);
    finished_deck 5 (card lo 11 false) (card lo 10 false) (card hi 4 false);
    undisclosed_deck 6 (card hi 11 false) (card hi 9 false)
                     (card hi 10 false);
    finished_deck 7 (card lo 13 false) (card lo 12 false) (card hi 5 false);
    undisclosed_deck 8 (card hi 13 false) (card hi 12 false) joker ].

Definition late_red (opened : Z) : Player :=
  mkPlayer (Some 3) (Some 3%nat) 3 0 0 0
           (late_decks red_card (red_joker 4 false) 0 2 opened)
           (if opened =? 1 then None else Some Action.DARE).

Definition late_black (opened : Z) : Player :=
  mkPlayer (Some 3) (Some 3%nat) 3 0 0 0
           (late_decks black_card (black_joker 4 false) 1 3 opened)
           (if opened =? 1 then None else Some Action.DARE).

(** The game when the round counter is at [round_]: as many cards of the
    two decks in duel are open (the delegates alone right after the decks
    are chosen). *)
Definition late_game_at (round_ : Z) : Game.t :=
  Game.mk (late_red round_) (late_black round_) false None None None 6
          (Some (Duel.mk 6 round_ false None None DuelState.ONGOING Red Black)).

Definition late_game : Game.t := late_game_at 2.

Example late_players_are_done :
  is_done K0 (late_red 2) = true /\ is_done K0 (late_black 2) = true.
Proof. split; reflexivity. Qed.

Definition duel_state (g : Game.t) : option DuelState.t :=
  match Game.duel_ongoing g with
  | Some d => Some (Duel._state d)
  | None => None
  end.

Definition duel_round (g : Game.t) : option Z :=
  match Game.duel_ongoing g with
  | Some d => Some (Duel._round d)
  | None => None
  end.

(** *** What the first loop leaves: each player's resolved action *)

Definition with_actions (g : Game.t) (ar ab : option Action.t) : Game.t :=
  Game.mk (Player_.with_recent_action (Game.player_red g) ar)
          (Player_.with_recent_action (Game.player_black g) ab)
          (Game._over g) (Game.winner g) (Game.loser g) (Game.result g)
          (Game.duel_index g) (Game.duel_ongoing g).

Lemma hear_with_actions (shouts : list Shout) :
  forall (rh bh : bool) (g : Game.t),
    exists ar ab, Game.hear shouts rh bh g = with_actions g ar ab.
Proof.
  induction shouts as [|s rest IH]; intros rh bh g.
  - exists (recent_action (Game.player_red g)),
           (recent_action (Game.player_black g)).
    destruct g as [[] [] ? ? ? ? ? ?]; reflexivity.
  - destruct g as [[] [] ? ? ? ? ? ?]. simpl.
    destruct (negb rh && Color_eqb (shout_player s) Red);
      [| destruct (negb bh && Color_eqb (shout_player s) Black)];
      match goal with
      | |- context [if ?b then _ else _] => destruct b
      end;
      try match goal with
          | |- context [Game.hear rest ?a ?b ?g'] =>
              destruct (IH a b g') as (ar & ab & ->); exists ar, ab;
              reflexivity
          end;
      eexists _, _; reflexivity.
Qed.

(** The action a player is left with is that of the player's first shout;
    a player who did not shout keeps the action of the round before. *)
Lemma hear_first_shout (shouts : list Shout) (g : Game.t) (c : Color) :
  recent_action (Game.player (Game.hear shouts false false g) c)
  = match List.find (fun s => Color_eqb (shout_player s) c) shouts with
    | Some s => shout_action s
    | None => recent_action (Game.player g c)
    end.
Proof.
  assert (forall shouts rh bh g,
             recent_action (Game.player (Game.hear shouts rh bh g) c)
             = if (match c with Red => rh | Black => bh end)
               then recent_action (Game.player g c)
               else match List.find (fun s => Color_eqb (shout_player s) c)
                                    shouts with
                    | Some s => shout_action s
                    | None => recent_action (Game.player g c)
                    end) as H.
  { clear. destruct c; induction shouts as [|s rest IH]; intros rh bh g;
      simpl in *.
    - destruct rh; reflexivity.
    - destruct s as [[] a]; destruct rh, bh; simpl;
        rewrite ?IH; destruct g; reflexivity.
    - destruct bh; reflexivity.
    - destruct s as [[] a]; destruct rh, bh; simpl;
        rewrite ?IH; destruct g; reflexivity. }
  rewrite (H shouts false false g). destruct c; reflexivity.
Qed.

(** *** One step of each priority loop *)

Definition bump_done (g : Game.t) (c : Color) : Game.t :=
  Game.with_player g c
    (Player_.with_num_shout_done (Game.player g c)
                                 (num_shout_done (Game.player g c) + 1)).

Definition bump_die (g : Game.t) (c : Color) : Game.t :=
  Game.with_player g c
    (Player_.with_num_shout_die (Game.player g c)
                                (num_shout_die (Game.player g c) + 1)).

Definition bump_draw (g : Game.t) (c : Color) : Game.t :=
  Game.with_player g c
    (Player_.with_num_shout_draw (Game.player g c)
                                 (num_shout_draw (Game.player g c) + 1)).

(** The last loop of [Duel.end], over both players of the duel. *)
Definition close_all (d : Duel.t) (g : Game.t) : Game.t :=
  fold_left (fun g c => Game.with_player g c
                          (Game.close_deck (Game.player g c)))
            (Duel.players d) g.

Definition end_code_ok (K : Constants) (s : DuelState.t) : Prop :=
  3 <= DuelState_value K s < 11.

Section Loops.
Variable K : Constants.

Definition can_die (p : Player) (r : Z) : bool :=
  ((r =? 1) || (r =? 2)) && (num_shout_die p <? MAX_DIE K).

Definition can_draw (p : Player) (r : Z) : bool :=
  (r =? 3) && (num_shout_draw p <? MAX_DRAW K).

Lemma valid_actions_spec (p : Player) (r : Z) :
  1 <= r <= 3 ->
  exists va,
    Player_.valid_actions K p r = Ok va
    /\ existsb (Action.eqb Action.DONE) va = true
    /\ existsb (Action.eqb Action.DIE) va = can_die p r
    /\ existsb (Action.eqb Action.DRAW) va = can_draw p r.
Proof.
  intros Hr. assert (r = 1 \/ r = 2 \/ r = 3) as [->|[->| ->]] by lia;
    unfold Player_.valid_actions, can_die, can_draw; simpl;
    destruct (_ <? _); eexists; repeat split; reflexivity.
Qed.

Lemma done_loop_step (r : Z) (c : Color) (rest : list Color) (g : Game.t) :
  1 <= r <= 3 ->
  Game.done_loop K r (c :: rest) g
  = if Game.recent_is (Game.player g c) Action.DONE then
      if is_done K (Game.player g c) then
        let! g1 := Game.Duel_end K (bump_done g c)
                     DuelState.ABORTED_BY_CORRECT_DONE None None in
        Ok (Game._end g1 GameResult.DONE (Some c) None,
            Some (MsgCorrectDone c, Duration.AFTER_GAME_ENDS))
      else Game.done_loop K r rest (bump_done g c)
    else Game.done_loop K r rest g.
Proof.
  intros Hr.
  destruct (valid_actions_spec (Game.player g c) r Hr) as (va & Hva & Hd & _).
  cbn [Game.done_loop]. rewrite Hva. cbn [bind]. rewrite Hd. cbn [andb].
  destruct (Game.recent_is _ _); [|reflexivity].
  fold (bump_done g c).
  assert (is_done K (Game.player (bump_done g c) c)
          = is_done K (Game.player g c)) as ->
      by (destruct g, c; reflexivity).
  reflexivity.
Qed.

Lemma die_loop_step (r : Z) (c : Color) (rest : list Color) (g : Game.t) :
  1 <= r <= 3 ->
  Game.die_loop K r (c :: rest) g
  = if can_die (Game.player g c) r
       && Game.recent_is (Game.player g c) Action.DIE then
      let! g1 := Game.Duel_end K (bump_die g c) DuelState.DIED None None in
      Ok (g1, Some (MsgDied c, Duration.AFTER_DUEL_ENDS))
    else Game.die_loop K r rest g.
Proof.
  intros Hr.
  destruct (valid_actions_spec (Game.player g c) r Hr)
    as (va & Hva & _ & Hd & _).
  cbn [Game.die_loop]. rewrite Hva. cbn [bind]. rewrite Hd. reflexivity.
Qed.

Lemma draw_loop_step (r : Z) (c : Color) (rest : list Color) (g : Game.t) :
  1 <= r <= 3 ->
  Game.draw_loop K r (c :: rest) g
  = if can_draw (Game.player g c) r
       && Game.recent_is (Game.player g c) Action.DRAW then
      let! d := Game.duel (bump_draw g c) in
      let! drawn := Game.is_drawn (bump_draw g c) d in
      if drawn then
        let! g1 := Game.Duel_end K (bump_draw g c) DuelState.DRAWN
                                 (Some c) None in
        let! reached := Game.winner_reached K g1 in
        match reached with
        | Some w =>
            Ok (Game._end g1 GameResult.FINISHED (Some w) None,
                Some (MsgCorrectDraw c true, Duration.AFTER_GAME_ENDS))
        | None =>
            Ok (g1, Some (MsgCorrectDraw c false, Duration.AFTER_DUEL_ENDS))
        end
      else Game.draw_loop K r rest (bump_draw g c)
    else Game.draw_loop K r rest g.
Proof.
  intros Hr.
  destruct (valid_actions_spec (Game.player g c) r Hr)
    as (va & Hva & _ & _ & Hd).
  cbn [Game.draw_loop]. rewrite Hva. cbn [bind]. rewrite Hd. reflexivity.
Qed.

(** [Duel.end] without a winner: [DIED] or [ABORTED_BY_CORRECT_DONE]. *)
Lemma Duel_end_no_winner (g : Game.t) (d : Duel.t) (s : DuelState.t) :
  Game.duel_ongoing g = Some d ->
  end_code_ok K s ->
  s = DuelState.DIED \/ s = DuelState.ABORTED_BY_CORRECT_DONE ->
  Game.Duel_end K g s None None
  = Ok (close_all d (Game.with_duel g (Duel.ended d s None None))).
Proof.
  intros Hd Hc Hs. unfold Game.Duel_end, Game.duel. rewrite Hd. cbn [bind].
  cbv zeta.
  replace ((3 <=? DuelState_value K s) && (DuelState_value K s <? 11))
    with true
    by (symmetry; apply andb_true_intro; split;
        [apply Z.leb_le | apply Z.ltb_lt]; apply Hc).
  cbn [negb]. destruct Hs as [-> | ->]; destruct d; reflexivity.
Qed.

(** [Duel.end] with a winner given. *)
Lemma Duel_end_winner (g : Game.t) (d : Duel.t) (s : DuelState.t)
      (w : Color) :
  Game.duel_ongoing g = Some d ->
  end_code_ok K s ->
  Game.Duel_end K g s (Some w) None
  = Ok (close_all d
          (Game.award_point
             (Game.with_duel g
                (Duel.ended d s (Some w)
                   (Some (if Color_eqb w (Duel.offense d)
                          then Duel.offense d else Duel.defense d))))
             w)).
Proof.
  intros Hd Hc. unfold Game.Duel_end, Game.duel. rewrite Hd. cbn [bind].
  cbv zeta.
  replace ((3 <=? DuelState_value K s) && (DuelState_value K s <? 11))
    with true
    by (symmetry; apply andb_true_intro; split;
        [apply Z.leb_le | apply Z.ltb_lt]; apply Hc).
  cbn [negb]. destruct d; reflexivity.
Qed.
End Loops.

(** *** The outcome of a round *)

(** The action a player is left with once the shouts have been heard. *)
Definition resolved (shouts : list Shout) (g0 : Game.t) (c : Color)
  : option Action.t :=
  recent_action (Game.player (Game.hear shouts false false g0) c).

(** The deck in slot [k] is marked FINISHED and shows all its cards. *)
Definition closed_deck (p : Player) (k : nat) : Prop :=
  exists deck,
    decks p !! k = Some deck
    /\ _state deck = DeckState.FINISHED
    /\ forallb open_ (_cards deck) = true.

Lemma forallb_open_up (cards : list Card) :
  forallb open_ (List.map open_up cards) = true.
Proof. induction cards as [|c t IH]; simpl; [reflexivity | exact IH]. Qed.

Lemma closed_deck_alter (p : Player) (ds : list Deck) (k : nat) (deck : Deck) :
  ds !! k = Some deck ->
  decks p = alter (fun d => Deck_.open_all (Deck_.finish d)) k ds ->
  closed_deck p k.
Proof.
  intros Hk Hp. exists (Deck_.open_all (Deck_.finish deck)).
  rewrite Hp, list_lookup_alter_eq, Hk. repeat split.
  apply forallb_open_up.
Qed.


Ltac gcbn :=
  cbn -[Game.done_loop Game.die_loop Game.draw_loop Game.compare_sums
        Game.Duel_end Game._end Game.winner_reached Game.is_drawn
        Game.close_deck ComputerPlayer.disclosed_values].

Ltac gcbn_all :=
  cbn -[Game.done_loop Game.die_loop Game.draw_loop Game.compare_sums
        Game.Duel_end Game._end Game.winner_reached Game.is_drawn
        Game.close_deck ComputerPlayer.disclosed_values] in *.

Ltac shout_setup g0 shouts d :=
  let ar := fresh "ar" in
  let ab := fresh "ab" in
  let Hh := fresh "Hh" in
  destruct (hear_with_actions shouts false false g0) as (ar & ab & Hh);
  unfold resolved in *;
  unfold Game.process_shout, Game.duel;
  rewrite Hh in *; clear Hh;
  destruct g0 as [pr pb ov gw gl res di dopt];
  destruct d as [dix r dov dw dl ds o f];
  unfold Duel.players, with_actions, is_done in *;
  gcbn_all;
  match goal with
  | H : dopt = Some _ |- _ => rewrite H in *; clear H
  end;
  gcbn.

(** C4 (as the code has it).  In a round where die may be shouted (round
    counter 1 or 2), if the offense's action is DIE, its die count is under
    the cap and the defense does not shout a correct DONE, then the duel
    ends DIED: nobody gets a point, the offense's die counter goes up by
    one, both decks in duel are FINISHED with all cards open, and neither
    player has a deck in duel any more. *)
Theorem offense_die_ends_duel (K : Constants) (g0 : Game.t)
        (shouts : list Shout) (d : Duel.t) (i j : nat)
        (deck_o deck_f : Deck) :
  Game.duel_ongoing g0 = Some d ->
  Duel.defense d <> Duel.offense d ->
  Duel._round d = 1 \/ Duel._round d = 2 ->
  resolved shouts g0 (Duel.offense d) = Some Action.DIE ->
  num_shout_die (Game.player g0 (Duel.offense d)) < MAX_DIE K ->
  ~ (resolved shouts g0 (Duel.defense d) = Some Action.DONE
     /\ is_done K (Game.player g0 (Duel.defense d)) = true) ->
  end_code_ok K DuelState.DIED ->
  deck_in_duel (Game.player g0 (Duel.offense d)) = Some i ->
  decks (Game.player g0 (Duel.offense d)) !! i = Some deck_o ->
  deck_in_duel (Game.player g0 (Duel.defense d)) = Some j ->
  decks (Game.player g0 (Duel.defense d)) !! j = Some deck_f ->
  exists g',
    Game.process_shout K g0 shouts
    = Ok (g', (MsgDied (Duel.offense d), Duration.AFTER_DUEL_ENDS))
    /\ duel_state g' = Some DuelState.DIED
    /\ points (Game.player g' (Duel.offense d))
       = points (Game.player g0 (Duel.offense d))
    /\ points (Game.player g' (Duel.defense d))
       = points (Game.player g0 (Duel.defense d))
    /\ num_shout_die (Game.player g' (Duel.offense d))
       = num_shout_die (Game.player g0 (Duel.offense d)) + 1
    /\ closed_deck (Game.player g' (Duel.offense d)) i
    /\ closed_deck (Game.player g' (Duel.defense d)) j
    /\ deck_in_duel (Game.player g' (Duel.offense d)) = None
    /\ deck_in_duel (Game.player g' (Duel.defense d)) = None.
Proof.
  intros Hd Hne Hr Hact Hcap Hnd Hcode Hi Hdo Hj Hdf.
  shout_setup g0 shouts d.
  assert (1 <= r <= 3) as Hr3 by lia.
  assert ((r =? 1) || (r =? 2) = true) as Hr12
      by (destruct Hr as [-> | ->]; reflexivity).
  destruct o, f; try congruence; gcbn_all; subst;
    rewrite !done_loop_step by exact Hr3; unfold is_done; gcbn;
    (match goal with
     | a : option Action.t |- _ => destruct a as [[]|]
     end);
    gcbn;
    try (match goal with
         | |- context [if ?b =? ?c then _ else _] =>
             destruct (b =? c) eqn:Edone;
             [exfalso; apply Hnd; split;
              [reflexivity | first [reflexivity | exact Edone]] |]
         end);
    cbn [Game.done_loop bind];
    rewrite !die_loop_step by exact Hr3;
    unfold can_die, Game.recent_is; gcbn; rewrite Hr12;
    (match goal with
     | |- context [?a <? MAX_DIE K] =>
         replace (a <? MAX_DIE K) with true by (symmetry; apply Z.ltb_lt; lia)
     end);
    gcbn;
    (erewrite Duel_end_no_winner
      by (first [reflexivity | assumption | left; reflexivity]));
    (eexists; split; [reflexivity|]);
    unfold close_all, Game.close_deck, duel_state;
    repeat (progress (cbn; rewrite ?Hi, ?Hj));
    repeat split; try reflexivity;
    (eapply closed_deck_alter; [eassumption | reflexivity]).
Qed.

Definition shout (c : Color) (a : Action.t) : Shout := mkShout c (Some a).

Lemma offense_die_ends_duel_witness :
  exists g',
    Game.process_shout K0 late_game
                       [shout Red Action.DIE; shout Black Action.DARE]
    = Ok (g', (MsgDied Red, Duration.AFTER_DUEL_ENDS))
    /\ duel_state g' = Some DuelState.DIED.
Proof.
  destruct (offense_die_ends_duel K0 late_game
              [shout Red Action.DIE; shout Black Action.DARE]
              (Duel.mk 6 2 false None None DuelState.ONGOING Red Black) 3%nat 3%nat
              (mkDeck [red_card 2 8 true; red_card 2 6 true;
                       red_card 2 7 false]
                      DeckState.IN_DUEL 3 (Some 3) (Some 2))
              (mkDeck [black_card 3 8 true; black_card 3 6 true;
                       black_card 3 7 false]
                      DeckState.IN_DUEL 3 (Some 3) (Some 2)))
    as (g' & H1 & H2 & _).
  - reflexivity.
  - discriminate.
  - right; reflexivity.
  - reflexivity.
  - simpl; lia.
  - intros [H _]; discriminate.
  - unfold end_code_ok; simpl; lia.
  - reflexivity.
  - reflexivity.
  - reflexivity.
  - reflexivity.
  - exists g'. split; assumption.
Defined.

(** C4 as stated fails when the defense shouts a correct DONE in the same
    round: DONE is resolved first, the duel is aborted, and the offense's
    die counter stays as it was.  The round counter is 2 at the first shout
    of a duel; with the counter at 1 the outcome is the same. *)
Lemma offense_die_defense_done :
  let shouts := [shout Red Action.DIE; shout Black Action.DONE] in
  let overridden (g0 : Game.t) :=
    resolved shouts g0 Red = Some Action.DIE
    /\ num_shout_die (Game.player_red g0) < MAX_DIE K0
    /\ exists g',
         Game.process_shout K0 g0 shouts
         = Ok (g', (MsgCorrectDone Black, Duration.AFTER_GAME_ENDS))
         /\ duel_state g' = Some DuelState.ABORTED_BY_CORRECT_DONE
         /\ duel_state g' <> Some DuelState.DIED
         /\ num_shout_die (Game.player_red g')
            = num_shout_die (Game.player_red g0) in
  overridden (late_game_at 2) /\ overridden (late_game_at 1).
Proof.
  cbv zeta. split.
  - split; [reflexivity|]. split; [simpl; lia|].
    eexists. split; [vm_compute; reflexivity|].
    split; [reflexivity|]. split; [discriminate | reflexivity].
  - split; [reflexivity|]. split; [simpl; lia|].
    eexists. split; [vm_compute; reflexivity|].
    split; [reflexivity|]. split; [discriminate | reflexivity].
Qed.

(** *** The three tiers, each over offense then defense *)

Section Tiers.
Variable K : Constants.

(** What makes a declaration count in its tier, as the loops test it. *)
Definition done_qualifies (g : Game.t) (c : Color) : bool :=
  Game.recent_is (Game.player g c) Action.DONE
  && is_done K (Game.player g c).

Definition die_qualifies (r : Z) (g : Game.t) (c : Color) : bool :=
  can_die K (Game.player g c) r
  && Game.recent_is (Game.player g c) Action.DIE.

Definition draw_qualifies (r : Z) (drawn : bool) (g : Game.t) (c : Color)
  : bool :=
  can_draw K (Game.player g c) r
  && Game.recent_is (Game.player g c) Action.DRAW
  && drawn.

(** A wrong DONE, and a wrong DRAW under the cap, still count up. *)
Definition count_done (g : Game.t) (c : Color) : Game.t :=
  if Game.recent_is (Game.player g c) Action.DONE then bump_done g c
  else g.

Definition count_draw (r : Z) (g : Game.t) (c : Color) : Game.t :=
  if can_draw K (Game.player g c) r
     && Game.recent_is (Game.player g c) Action.DRAW
  then bump_draw g c else g.

Definition abort_by_done (g : Game.t) (c : Color)
  : exc (Game.t * option Game.Reply) :=
  let! g1 := Game.Duel_end K (bump_done g c)
               DuelState.ABORTED_BY_CORRECT_DONE None None in
  Ok (Game._end g1 GameResult.DONE (Some c) None,
      Some (MsgCorrectDone c, Duration.AFTER_GAME_ENDS)).

Definition end_by_die (g : Game.t) (c : Color)
  : exc (Game.t * option Game.Reply) :=
  let! g1 := Game.Duel_end K (bump_die g c) DuelState.DIED None None in
  Ok (g1, Some (MsgDied c, Duration.AFTER_DUEL_ENDS)).

Definition end_by_draw (g : Game.t) (c : Color)
  : exc (Game.t * option Game.Reply) :=
  let! g1 := Game.Duel_end K (bump_draw g c) DuelState.DRAWN
                           (Some c) None in
  let! reached := Game.winner_reached K g1 in
  match reached with
  | Some w =>
      Ok (Game._end g1 GameResult.FINISHED (Some w) None,
          Some (MsgCorrectDraw c true, Duration.AFTER_GAME_ENDS))
  | None =>
      Ok (g1, Some (MsgCorrectDraw c false, Duration.AFTER_DUEL_ENDS))
  end.

Lemma done_tier (r : Z) (g : Game.t) (o f : Color) :
  f <> o -> 1 <= r <= 3 ->
  Game.done_loop K r [o; f] g
  = if done_qualifies g o then abort_by_done g o
    else if done_qualifies g f then abort_by_done (count_done g o) f
    else Ok (count_done (count_done g o) f, None).
Proof.
  intros Hne Hr. rewrite !done_loop_step by exact Hr.
  unfold done_qualifies, count_done, abort_by_done.
  destruct g as [pr pb ? ? ? ? ? ?];
    destruct o, f; try congruence;
    unfold bump_done; simpl;
    repeat match goal with
           | |- context [Game.recent_is ?p Action.DONE] =>
               destruct (Game.recent_is p Action.DONE); simpl
           | |- context [is_done K ?p] => destruct (is_done K p); simpl
           end;
    reflexivity.
Qed.

Lemma die_tier (r : Z) (g : Game.t) (o f : Color) :
  1 <= r <= 3 ->
  Game.die_loop K r [o; f] g
  = if die_qualifies r g o then end_by_die g o
    else if die_qualifies r g f then end_by_die g f
    else Ok (g, None).
Proof.
  intros Hr. rewrite !die_loop_step by exact Hr. reflexivity.
Qed.

Lemma duel_bump_draw (g : Game.t) (c : Color) :
  Game.duel (bump_draw g c) = Game.duel g.
Proof. destruct g, c; reflexivity. Qed.

Lemma is_drawn_bump_draw (g : Game.t) (d : Duel.t) (c : Color) :
  Game.is_drawn (bump_draw g c) d = Game.is_drawn g d.
Proof.
  destruct g, d as [? ? ? ? ? ? [] []], c; reflexivity.
Qed.

Lemma draw_tier (r : Z) (g : Game.t) (d : Duel.t) (drawn : bool)
      (o f : Color) :
  f <> o -> 1 <= r <= 3 ->
  Game.duel_ongoing g = Some d ->
  Game.is_drawn g d = Ok drawn ->
  Game.draw_loop K r [o; f] g
  = if draw_qualifies r drawn g o then end_by_draw g o
    else if draw_qualifies r drawn g f then
           end_by_draw (count_draw r g o) f
    else Ok (count_draw r (count_draw r g o) f, None).
Proof.
  intros Hne Hr Hd Hdrawn. rewrite draw_loop_step by exact Hr.
  unfold draw_qualifies, count_draw, end_by_draw.
  assert (Game.duel g = Ok d) as Hduel
      by (unfold Game.duel; rewrite Hd; reflexivity).
  destruct (can_draw K (Game.player g o) r
            && Game.recent_is (Game.player g o) Action.DRAW) eqn:Eo.
  - rewrite duel_bump_draw, Hduel. cbn [bind].
    rewrite is_drawn_bump_draw, Hdrawn.
    cbn [bind andb]. destruct drawn; [reflexivity|].
    rewrite draw_loop_step by exact Hr.
    assert (Game.player (bump_draw g o) f = Game.player g f) as ->
        by (destruct g, o, f; try congruence; reflexivity).
    destruct (can_draw K (Game.player g f) r
              && Game.recent_is (Game.player g f) Action.DRAW) eqn:Ef;
      [|reflexivity].
    rewrite !duel_bump_draw, Hduel. cbn [bind].
    rewrite !is_drawn_bump_draw, Hdrawn. reflexivity.
  - cbn [andb]. rewrite draw_loop_step by exact Hr.
    destruct (can_draw K (Game.player g f) r
              && Game.recent_is (Game.player g f) Action.DRAW) eqn:Ef;
      [|reflexivity].
    rewrite duel_bump_draw, Hduel. cbn [bind].
    rewrite is_drawn_bump_draw, Hdrawn.
    cbn [bind]. destruct drawn; reflexivity.
Qed.
End Tiers.

(** *** C1: the order of the tiers *)

(** Which declaration settled the round. *)
Inductive Verdict : Set :=
| ByDone (c : Color)
| ByDie (c : Color)
| ByDraw (c : Color)
| Fallthrough.

(** The verdict a reply of [process_shout] tells. *)
Definition verdict_of (m : Message) : Verdict :=
  match m with
  | MsgCorrectDone c => ByDone c
  | MsgDied c => ByDie c
  | MsgCorrectDraw c _ => ByDraw c
  | _ => Fallthrough
  end.

(** The order the specification gives: DONE, then DIE, then DRAW, each
    tier asking the offense [o] before the defense [f]; the first
    declaration that qualifies decides. *)
Definition first_qualifying (K : Constants) (r : Z) (drawn : bool)
           (g : Game.t) (o f : Color) : Verdict :=
  if done_qualifies K g o then ByDone o
  else if done_qualifies K g f then ByDone f
  else if die_qualifies K r g o then ByDie o
  else if die_qualifies K r g f then ByDie f
  else if draw_qualifies K r drawn g o then ByDraw o
  else if draw_qualifies K r drawn g f then ByDraw f
  else Fallthrough.

Definition duel_winner (g : Game.t) : option Color :=
  match Game.duel_ongoing g with
  | Some d => Duel.winner d
  | None => None
  end.

(** What a verdict leaves behind: the state the duel ends in, who wins,
    and the counters; the counter of the tier moves for the player who
    decided and stays for the other player. *)
Definition verdict_holds (v : Verdict) (r : Z) (o f : Color)
           (g0 g' : Game.t) (m : Message) : Prop :=
  match v with
  | ByDone c =>
      duel_state g' = Some DuelState.ABORTED_BY_CORRECT_DONE
      /\ Game._over g' = true
      /\ Game.winner g' = Some c
      /\ (c = o -> num_shout_done (Game.player g' f)
                   = num_shout_done (Game.player g0 f))
  | ByDie c =>
      duel_state g' = Some DuelState.DIED
      /\ num_shout_die (Game.player g' c)
         = num_shout_die (Game.player g0 c) + 1
      /\ (forall c', c' <> c ->
                     num_shout_die (Game.player g' c')
                     = num_shout_die (Game.player g0 c'))
  | ByDraw c =>
      duel_state g' = Some DuelState.DRAWN
      /\ duel_winner g' = Some c
      /\ num_shout_draw (Game.player g' c)
         = num_shout_draw (Game.player g0 c) + 1
      /\ (forall c', c' <> c ->
                     num_shout_draw (Game.player g' c')
                     = num_shout_draw (Game.player g0 c'))
  | Fallthrough =>
      if r <? 3 then
        m = MsgDoubleDare /\ Game.duel_ongoing g' = Game.duel_ongoing g0
      else
        exists w e, (m = MsgGreaterSum w e \/ m = MsgEqualSums w e)
                    /\ duel_winner g' = Some w
  end.

Definition all_end_codes_ok (K : Constants) : Prop :=
  end_code_ok K DuelState.DIED
  /\ end_code_ok K DuelState.DRAWN
  /\ end_code_ok K DuelState.FINISHED
  /\ end_code_ok K DuelState.ABORTED_BY_CORRECT_DONE.

Lemma is_drawn_committed (g : Game.t) (d : Duel.t) (i j : nat)
      (deck_o deck_f : Deck) :
  deck_in_duel (Game.player g (Duel.offense d)) = Some i ->
  decks (Game.player g (Duel.offense d)) !! i = Some deck_o ->
  deck_in_duel (Game.player g (Duel.defense d)) = Some j ->
  decks (Game.player g (Duel.defense d)) !! j = Some deck_f ->
  Game.is_drawn g d
  = Ok (sum_values (_cards deck_o) =? sum_values (_cards deck_f)).
Proof.
  intros Hi Hdo Hj Hdf.
  unfold Game.is_drawn, Player_.deck_in_duel_cards.
  rewrite Hi, Hdo, Hj, Hdf. reflexivity.
Qed.

Section Frames.
Variable K : Constants.

Lemma die_qualifies_count_done (r : Z) (g : Game.t) (c c' : Color) :
  die_qualifies K r (count_done g c') c = die_qualifies K r g c.
Proof.
  unfold die_qualifies, count_done, bump_done.
  destruct g, c, c'; simpl; destruct (Game.recent_is _ Action.DONE);
    reflexivity.
Qed.

Lemma draw_qualifies_count_done (r : Z) (drawn : bool) (g : Game.t)
      (c c' : Color) :
  draw_qualifies K r drawn (count_done g c') c = draw_qualifies K r drawn g c.
Proof.
  unfold draw_qualifies, count_done, bump_done.
  destruct g, c, c'; simpl; destruct (Game.recent_is _ Action.DONE);
    reflexivity.
Qed.

Lemma duel_ongoing_count_done (g : Game.t) (c : Color) :
  Game.duel_ongoing (count_done g c) = Game.duel_ongoing g.
Proof.
  unfold count_done, bump_done.
  destruct g, c; simpl; destruct (Game.recent_is _ Action.DONE);
    reflexivity.
Qed.

Lemma duel_ongoing_bump (g : Game.t) (c : Color) :
  Game.duel_ongoing (bump_done g c) = Game.duel_ongoing g
  /\ Game.duel_ongoing (bump_die g c) = Game.duel_ongoing g
  /\ Game.duel_ongoing (bump_draw g c) = Game.duel_ongoing g.
Proof. destruct g, c; repeat split; reflexivity. Qed.

Lemma duel_ongoing_count_draw (r : Z) (g : Game.t) (c : Color) :
  Game.duel_ongoing (count_draw K r g c) = Game.duel_ongoing g.
Proof.
  unfold count_draw, bump_draw.
  destruct g, c; simpl; destruct (_ && _); reflexivity.
Qed.

Lemma is_drawn_count_done (g : Game.t) (d : Duel.t) (c : Color) :
  Game.is_drawn (count_done g c) d = Game.is_drawn g d.
Proof.
  unfold count_done, bump_done.
  destruct g, d as [? ? ? ? ? ? [] []], c; simpl;
    destruct (Game.recent_is _ Action.DONE); reflexivity.
Qed.
End Frames.

Ltac ongoing :=
  repeat first
    [ rewrite (proj1 (duel_ongoing_bump _ _))
    | rewrite (proj1 (proj2 (duel_ongoing_bump _ _)))
    | rewrite (proj2 (proj2 (duel_ongoing_bump _ _)))
    | rewrite duel_ongoing_count_done
    | rewrite duel_ongoing_count_draw ];
  reflexivity.

Ltac end_code :=
  match goal with
  | H : all_end_codes_ok _ |- end_code_ok _ _ =>
      first [ apply H | apply (proj1 (proj2 H))
            | apply (proj1 (proj2 (proj2 H)))
            | apply (proj2 (proj2 (proj2 H))) ]
  end.

(** Case analysis on every test left in the goal. *)
Ltac split_tests :=
  repeat match goal with
         | |- context [if ?b then _ else _] =>
             destruct b eqn:?; simpl in *; try discriminate
         end.

#[local] Arguments Game.Duel_end : simpl never.

Ltac normalize :=
  unfold verdict_holds, close_all, Game.close_deck, duel_state, duel_winner,
    Game._end, Game.award_point, count_done, count_draw,
    bump_done, bump_die, bump_draw,
    done_qualifies, die_qualifies, draw_qualifies,
    can_die, can_draw, Game.recent_is in *;
  simpl in *.

(** The properties of the game a tier leaves. *)
Ltac leaf Hi Hj :=
  normalize; split_tests;
  try solve [ exfalso;
              repeat match goal with
                     | H : ?b = true, H' : context [?b] |- _ =>
                         rewrite H in H'; simpl in H'
                     end;
              repeat match goal with
                     | H : _ && _ = true |- _ =>
                         apply andb_prop in H; destruct H
                     end;
              congruence ];
  try (eexists _, _; split;
       [first [left; reflexivity | right; reflexivity] |]);
  repeat split; intros;
  try match goal with
      | c' : Color |- _ => destruct c'; try congruence
      end;
  simpl; rewrite ?Hi, ?Hj; simpl;
  try reflexivity; try congruence.

Ltac finish_leaf Hi Hj :=
  eexists _, _, _;
  (split; [reflexivity|]); (split; [reflexivity|]);
  solve [leaf Hi Hj].

(** C1.  Whatever the two players shout, [process_shout] returns, and its
    reply is the one of the first declaration that qualifies in the order
    DONE of the offense, DONE of the defense, DIE of the offense, DIE of
    the defense, DRAW of the offense, DRAW of the defense; when none
    qualifies the round falls through (next round, or comparison of the
    sums in round 3).  The duel ends in the state of that tier, and the
    tier's counter of the other player is left as it was: a declaration of
    the defense in the tier the offense decided is not processed. *)
Theorem shout_priority (K : Constants) (g0 : Game.t) (shouts : list Shout)
        (d : Duel.t) (i j : nat) (deck_o deck_f : Deck) :
  Game.duel_ongoing g0 = Some d ->
  Duel.defense d <> Duel.offense d ->
  1 <= Duel._round d <= 3 ->
  all_end_codes_ok K ->
  deck_in_duel (Game.player g0 (Duel.offense d)) = Some i ->
  decks (Game.player g0 (Duel.offense d)) !! i = Some deck_o ->
  deck_in_duel (Game.player g0 (Duel.defense d)) = Some j ->
  decks (Game.player g0 (Duel.defense d)) !! j = Some deck_f ->
  exists g' m t,
    Game.process_shout K g0 shouts = Ok (g', (m, t))
    /\ verdict_of m
       = first_qualifying K (Duel._round d)
           (sum_values (_cards deck_o) =? sum_values (_cards deck_f))
           (Game.hear shouts false false g0)
           (Duel.offense d) (Duel.defense d)
    /\ verdict_holds
         (first_qualifying K (Duel._round d)
            (sum_values (_cards deck_o) =? sum_values (_cards deck_f))
            (Game.hear shouts false false g0)
            (Duel.offense d) (Duel.defense d))
         (Duel._round d) (Duel.offense d) (Duel.defense d) g0 g' m.
Proof.
  intros Hd Hne Hr Hcodes Hi Hdo Hj Hdf.
  shout_setup g0 shouts d.
  destruct o, f; try congruence;
    match goal with
    | |- context [Game.done_loop K r [?o; ?f] _] =>
        (rewrite done_tier by (first [congruence | exact Hr]));
        unfold first_qualifying;
        (destruct (done_qualifies _ _ o) eqn:E1;
         [ unfold abort_by_done;
           (erewrite Duel_end_no_winner
             by (first [ongoing | end_code | right; reflexivity]));
           cbn [bind]; eexists _, _, _;
           (split; [reflexivity|]); (split; [reflexivity|]);
           solve [leaf Hi Hj]
         | ]);
        (destruct (done_qualifies _ _ f) eqn:E2;
         [ unfold abort_by_done;
           (erewrite Duel_end_no_winner
             by (first [ongoing | end_code | right; reflexivity]));
           cbn [bind]; eexists _, _, _;
           (split; [reflexivity|]); (split; [reflexivity|]);
           solve [leaf Hi Hj]
         | ]);
        cbn [bind];
        (rewrite die_tier by exact Hr);
        rewrite !die_qualifies_count_done;
        (destruct (die_qualifies _ _ _ o) eqn:E3;
         [ unfold end_by_die;
           (erewrite Duel_end_no_winner
             by (first [ongoing | end_code | left; reflexivity]));
           cbn [bind]; eexists _, _, _;
           (split; [reflexivity|]); (split; [reflexivity|]);
           solve [leaf Hi Hj]
         | ]);
        (destruct (die_qualifies _ _ _ f) eqn:E4;
         [ unfold end_by_die;
           (erewrite Duel_end_no_winner
             by (first [ongoing | end_code | left; reflexivity]));
           cbn [bind]; eexists _, _, _;
           (split; [reflexivity|]); (split; [reflexivity|]);
           solve [leaf Hi Hj]
         | ]);
        cbn [bind]
    end.
  all: simpl in Hi, Hdo, Hj, Hdf.
  all: match goal with
       | |- context [Game.draw_loop ?K' ?r' [?o; ?f] ?gd] =>
           (erewrite (draw_tier K' r' gd _ _ o f)
             by (first [ congruence | eassumption | ongoing
                       | rewrite !is_drawn_count_done;
                         unfold Game.is_drawn, Player_.deck_in_duel_cards;
                         simpl; rewrite Hi, Hdo, Hj, Hdf; reflexivity ]));
           rewrite !draw_qualifies_count_done;
           (destruct (draw_qualifies _ _ _ _ o) eqn:E5;
            [ unfold end_by_draw;
              (erewrite Duel_end_winner by (first [ongoing | end_code]));
              cbn [bind];
              unfold Game.winner_reached, Game.duel;
              normalize; split_tests; finish_leaf Hi Hj
            | ]);
           (destruct (draw_qualifies _ _ _ _ f) eqn:E6;
            [ unfold end_by_draw;
              (erewrite Duel_end_winner by (first [ongoing | end_code]));
              cbn [bind];
              unfold Game.winner_reached, Game.duel;
              normalize; split_tests; finish_leaf Hi Hj
            | ]);
           cbn [bind]
       end.
  all: assert (r = 1 \/ r = 2 \/ r = 3) as [-> | [-> | ->]] by lia.
  all: unfold Game.compare_sums, Game.duel, Player_.deck_in_duel_cards.
  all: try (simpl (_ || _); cbv iota; finish_leaf Hi Hj).
  all: normalize; split_tests.
  all: rewrite Hi, Hdo; cbn [bind]; rewrite Hj, Hdf; cbn [bind].
  all: (destruct (sum_values _ >? sum_values _) eqn:Egt;
        [| destruct (sum_values _ <? sum_values _) eqn:Elt]);
    (erewrite Duel_end_winner by (first [ongoing | end_code]));
    cbn [bind];
    unfold Game.winner_reached, Game.duel;
    normalize; split_tests; finish_leaf Hi Hj.
Qed.


Lemma shout_priority_witness :
  exists g' m t,
    Game.process_shout K0 late_game
                       [shout Black Action.DIE; shout Red Action.DIE]
    = Ok (g', (m, t))
    /\ verdict_of m = ByDie Red.
Proof.
  destruct (shout_priority K0 late_game
              [shout Black Action.DIE; shout Red Action.DIE]
              (Duel.mk 6 2 false None None DuelState.ONGOING Red Black) 3%nat 3%nat
              (mkDeck [red_card 2 8 true; red_card 2 6 true;
                       red_card 2 7 false]
                      DeckState.IN_DUEL 3 (Some 3) (Some 2))
              (mkDeck [black_card 3 8 true; black_card 3 6 true;
                       black_card 3 7 false]
                      DeckState.IN_DUEL 3 (Some 3) (Some 2)))
    as (g' & m & t & H1 & H2 & _).
  - reflexivity.
  - discriminate.
  - simpl; lia.
  - unfold all_end_codes_ok, end_code_ok; simpl; lia.
  - reflexivity.
  - reflexivity.
  - reflexivity.
  - reflexivity.
  - exists g', m, t. split; [exact H1 | exact H2].
Defined.


Lemma die_qualifies_iff (K : Constants) (shouts : list Shout) (g0 : Game.t)
      (r : Z) (c : Color) :
  die_qualifies K r (Game.hear shouts false false g0) c = true
  <-> (r = 1 \/ r = 2)
      /\ num_shout_die (Game.player g0 c) < MAX_DIE K
      /\ resolved shouts g0 c = Some Action.DIE.
Proof.
  unfold resolved.
  destruct (hear_with_actions shouts false false g0) as (ar & ab & ->).
  unfold die_qualifies, can_die, Game.recent_is.
  destruct g0 as [pr pb ? ? ? ? ? ?], c; simpl;
    rewrite !andb_true_iff, orb_true_iff, !Z.eqb_eq, Z.ltb_lt;
    match goal with
    | |- context [match ?a with _ => _ end] => destruct a as [[]|]
    end; simpl; intuition (try discriminate; try reflexivity).
Qed.

Lemma draw_qualifies_iff (K : Constants) (shouts : list Shout) (g0 : Game.t)
      (r : Z) (drawn : bool) (c : Color) :
  draw_qualifies K r drawn (Game.hear shouts false false g0) c = true
  <-> r = 3
      /\ num_shout_draw (Game.player g0 c) < MAX_DRAW K
      /\ resolved shouts g0 c = Some Action.DRAW
      /\ drawn = true.
Proof.
  unfold resolved.
  destruct (hear_with_actions shouts false false g0) as (ar & ab & ->).
  unfold draw_qualifies, can_draw, Game.recent_is.
  destruct g0 as [pr pb ? ? ? ? ? ?], c; simpl;
    rewrite !andb_true_iff, !Z.eqb_eq, Z.ltb_lt;
    match goal with
    | |- context [match ?a with _ => _ end] => destruct a as [[]|]
    end; simpl; intuition (try discriminate; try reflexivity).
Qed.



(** *** C2: the comparison of round 3 *)

Lemma compare_cases (a b : Z) :
  ((a >? b) = true /\ (a <? b) = false /\ (a =? b) = false)
  \/ ((a >? b) = false /\ (a <? b) = true /\ (a =? b) = false)
  \/ ((a >? b) = false /\ (a <? b) = false /\ (a =? b) = true).
Proof.
  rewrite Z.gtb_ltb.
  destruct (Z.ltb_spec b a), (Z.ltb_spec a b), (Z.eqb_spec a b);
    try lia; tauto.
Qed.

Definition other (c : Color) : Color :=
  match c with
  | Red => Black
  | Black => Red
  end.

(** The counters that wrong DONE and DRAW shouts moved; nothing else of
    the game changes before the comparison. *)
Definition set_counters (g : Game.t) (nr dr nb db : Z) : Game.t :=
  Game.mk
    (Player_.with_num_shout_draw
       (Player_.with_num_shout_done (Game.player_red g) nr) dr)
    (Player_.with_num_shout_draw
       (Player_.with_num_shout_done (Game.player_black g) nb) db)
    (Game._over g) (Game.winner g) (Game.loser g) (Game.result g)
    (Game.duel_index g) (Game.duel_ongoing g).

Lemma counts_normal_form (K : Constants) (r : Z) (g : Game.t) (o f : Color) :
  exists nr dr nb db,
    count_draw K r (count_draw K r (count_done (count_done g o) f) o) f
    = set_counters g nr dr nb db.
Proof.
  unfold count_draw, count_done, bump_draw, bump_done, set_counters.
  destruct g as [[] [] ? ? ? ? ? ?], o, f; simpl;
    repeat match goal with
           | |- context [if ?b then _ else _] => destruct b; simpl
           end;
    unfold Player_.with_num_shout_draw, Player_.with_num_shout_done; simpl;
    eexists _, _, _, _; reflexivity.
Qed.

(** C2.  In round 3, when no shout is terminal (no correct DONE, no
    correct DRAW under the cap), the sums of the two decks in duel are
    compared: the greater sum wins and the duel is FINISHED; on equal sums
    the duel is DRAWN and the defense wins.  The winner gets one point, the
    other player none, and the game ends with that winner exactly when the
    point brings the winner to the required total. *)
Theorem round3_comparison (K : Constants) (g0 : Game.t) (shouts : list Shout)
        (d : Duel.t) (i j : nat) (deck_o deck_f : Deck) :
  Game.duel_ongoing g0 = Some d ->
  Duel.defense d <> Duel.offense d ->
  Duel._round d = 3 ->
  end_code_ok K DuelState.FINISHED ->
  end_code_ok K DuelState.DRAWN ->
  deck_in_duel (Game.player g0 (Duel.offense d)) = Some i ->
  decks (Game.player g0 (Duel.offense d)) !! i = Some deck_o ->
  deck_in_duel (Game.player g0 (Duel.defense d)) = Some j ->
  decks (Game.player g0 (Duel.defense d)) !! j = Some deck_f ->
  first_qualifying K 3
    (sum_values (_cards deck_o) =? sum_values (_cards deck_f))
    (Game.hear shouts false false g0) (Duel.offense d) (Duel.defense d)
  = Fallthrough ->
  let sum_offense := sum_values (_cards deck_o) in
  let sum_defense := sum_values (_cards deck_f) in
  let w := if sum_offense >? sum_defense then Duel.offense d
           else Duel.defense d in
  exists g' m t,
    Game.process_shout K g0 shouts = Ok (g', (m, t))
    /\ duel_state g'
       = Some (if sum_offense =? sum_defense then DuelState.DRAWN
               else DuelState.FINISHED)
    /\ duel_winner g' = Some w
    /\ points (Game.player g' w) = points (Game.player g0 w) + 1
    /\ points (Game.player g' (other w)) = points (Game.player g0 (other w))
    /\ (if points (Game.player g0 w) + 1 =? REQUIRED_POINTS K
        then Game._over g' = true
             /\ Game.winner g' = Some w
             /\ Game.result g' = Some GameResult.FINISHED
        else Game._over g' = Game._over g0
             /\ Game.winner g' = Game.winner g0).
Proof.
  intros Hd Hne Hr Hfin Hdrawn Hi Hdo Hj Hdf Hfall. cbv zeta.
  destruct (compare_cases (sum_values (_cards deck_o))
                          (sum_values (_cards deck_f)))
    as [(G & L & E) | [(G & L & E) | (G & L & E)]];
    rewrite ?G, ?E in *.
  all: shout_setup g0 shouts d; subst r.
  all: destruct o, f; try congruence;
    match goal with
    | |- context [Game.done_loop _ _ [?o; ?f] _] =>
        unfold first_qualifying in Hfall;
        (destruct (done_qualifies _ _ o) eqn:E1; [discriminate|]);
        (destruct (done_qualifies _ _ f) eqn:E2; [discriminate|]);
        (destruct (die_qualifies _ _ _ o) eqn:E3; [discriminate|]);
        (destruct (die_qualifies _ _ _ f) eqn:E4; [discriminate|]);
        (destruct (draw_qualifies _ _ _ _ o) eqn:E5; [discriminate|]);
        (destruct (draw_qualifies _ _ _ _ f) eqn:E6; [discriminate|]);
        clear Hfall;
        (rewrite done_tier by (first [congruence | lia]));
        rewrite E1, E2; cbn [bind];
        (rewrite die_tier by lia);
        rewrite !die_qualifies_count_done, E3, E4; cbn [bind]
    end.
  all: simpl in Hi, Hdo, Hj, Hdf.
  all: match goal with
       | |- context [Game.draw_loop ?K' ?r' [?o; ?f] ?gd] =>
           (erewrite (draw_tier K' r' gd _ _ o f)
             by (first [ congruence | lia | ongoing
                       | rewrite !is_drawn_count_done;
                         unfold Game.is_drawn, Player_.deck_in_duel_cards;
                         simpl; rewrite Hi, Hdo, Hj, Hdf; reflexivity ]));
           rewrite ?E in *;
           rewrite !draw_qualifies_count_done, E5, E6; cbn [bind]
       end.
  all: clear E1 E2 E3 E4 E5 E6.
  all: match goal with
       | |- context [Game.compare_sums ?K' ?r'
                       (count_draw _ _ (count_draw _ _
                          (count_done (count_done ?g ?o) ?f) _) _)] =>
           destruct (counts_normal_form K' r' g o f)
             as (nr & dr & nb & db & ->)
       end.
  all: unfold Game.compare_sums, Game.duel, Player_.deck_in_duel_cards,
    set_counters.
  all: simpl.
  all: rewrite Hi, Hdo; cbn [bind]; rewrite Hj, Hdf; cbn [bind].
  all: rewrite ?G, ?L; cbv iota.
  all: (erewrite Duel_end_winner by (first [reflexivity | assumption]));
    cbn [bind];
    unfold Game.winner_reached, Game.duel;
    normalize; rewrite ?Hi, ?Hj; simpl.
  all: destruct (points _ + 1 =? REQUIRED_POINTS K) eqn:Hp.
  all: eexists _, _, _; (split; [reflexivity|]);
    simpl; rewrite ?Hi, ?Hj; simpl; repeat split; reflexivity.
Qed.

Lemma round3_comparison_witness :
  exists g' m t,
    Game.process_shout K0 (late_game_at 3)
                       [shout Red Action.IDLE; shout Black Action.IDLE]
    = Ok (g', (m, t))
    /\ duel_state g' = Some DuelState.DRAWN
    /\ duel_winner g' = Some Black
    /\ points (Game.player g' Black) = 4.
Proof.
  destruct (round3_comparison K0 (late_game_at 3)
              [shout Red Action.IDLE; shout Black Action.IDLE]
              (Duel.mk 6 3 false None None DuelState.ONGOING Red Black)
              3%nat 3%nat
              (mkDeck [red_card 2 8 true; red_card 2 6 true;
                       red_card 2 7 true]
                      DeckState.IN_DUEL 3 (Some 3) None)
              (mkDeck [black_card 3 8 true; black_card 3 6 true;
                       black_card 3 7 true]
                      DeckState.IN_DUEL 3 (Some 3) None))
    as (g' & m & t & H1 & H2 & H3 & H4 & _).
  - reflexivity.
  - discriminate.
  - reflexivity.
  - unfold end_code_ok; simpl; lia.
  - unfold end_code_ok; simpl; lia.
  - reflexivity.
  - reflexivity.
  - reflexivity.
  - reflexivity.
  - reflexivity.
  - exists g', m, t. repeat split; assumption.
Defined.

(** *** C3: the DONE tier *)

Lemma set_add_In (v w : Z) (l : list Z) :
  In w (ComputerPlayer.set_add v l) <-> w = v \/ In w l.
Proof.
  unfold ComputerPlayer.set_add.
  destruct (existsb (Z.eqb v) l) eqn:E.
  - apply existsb_exists in E as (x & Hx & Hvx). apply Z.eqb_eq in Hvx.
    subst x. split; [intros H; right; exact H | intros [-> | H]; assumption].
  - rewrite in_app_iff. simpl. split; intros H.
    + destruct H as [H | [H | []]]; [right | left]; auto.
    + destruct H as [H | H]; [right; left; auto | left; exact H].
Qed.

Lemma set_add_NoDup (v : Z) (l : list Z) :
  List.NoDup l -> List.NoDup (ComputerPlayer.set_add v l).
Proof.
  rewrite <- !NoDup_ListNoDup.
  intros Hl. unfold ComputerPlayer.set_add.
  destruct (existsb (Z.eqb v) l) eqn:E; [exact Hl|].
  apply NoDup_app; repeat split; try assumption.
  - intros x Hx. rewrite list_elem_of_In in Hx. intros Hx'.
    apply list_elem_of_In in Hx'. destruct Hx' as [<- | []].
    assert (existsb (Z.eqb v) l = true) as E'
        by (apply existsb_exists; exists v; split;
            [assumption | apply Z.eqb_refl]).
    congruence.
  - apply NoDup_singleton.
Qed.

Lemma disclosed_values_NoDup (decks : list Deck) :
  List.NoDup (ComputerPlayer.disclosed_values decks).
Proof.
  unfold ComputerPlayer.disclosed_values.
  assert (forall cards acc, List.NoDup acc ->
            List.NoDup (fold_left
                     (fun values card =>
                        if open_ card
                        then ComputerPlayer.set_add (_value card) values
                        else values) cards acc)) as Hcards.
  { induction cards as [|c t IH]; intros acc Hacc; simpl; [exact Hacc|].
    apply IH. destruct (open_ c); [apply set_add_NoDup|]; exact Hacc. }
  assert (forall ds acc, List.NoDup acc ->
            List.NoDup (fold_left
                     (fun values deck =>
                        if negb (Deck_.is_undisclosed deck)
                        then fold_left
                               (fun values card =>
                                  if open_ card
                                  then ComputerPlayer.set_add (_value card)
                                                              values
                                  else values) (_cards deck) values
                        else values) ds acc)) as Hdecks.
  { induction ds as [|d t IH]; intros acc Hacc; simpl; [exact Hacc|].
    apply IH. destruct (negb _); [apply Hcards|]; exact Hacc. }
  apply Hdecks. constructor.
Qed.

(** A value is disclosed when an open card of a deck that has been sent to
    a duel carries it. *)
Lemma disclosed_values_In (decks : list Deck) (v : Z) :
  In v (ComputerPlayer.disclosed_values decks)
  <-> exists deck card,
      In deck decks /\ Deck_.is_undisclosed deck = false
      /\ In card (_cards deck) /\ open_ card = true /\ _value card = v.
Proof.
  unfold ComputerPlayer.disclosed_values.
  assert (forall cards acc,
            In v (fold_left
                    (fun values card =>
                       if open_ card
                       then ComputerPlayer.set_add (_value card) values
                       else values) cards acc)
            <-> In v acc
                \/ exists card, In card cards /\ open_ card = true
                                /\ _value card = v) as Hcards.
  { induction cards as [|c t IH]; intros acc; simpl.
    - firstorder.
    - rewrite IH. destruct (open_ c) eqn:Eo; [rewrite set_add_In|];
        firstorder (subst; eauto; congruence). }
  assert (forall ds acc,
            In v (fold_left
                    (fun values deck =>
                       if negb (Deck_.is_undisclosed deck)
                       then fold_left
                              (fun values card =>
                                 if open_ card
                                 then ComputerPlayer.set_add (_value card)
                                                             values
                                 else values) (_cards deck) values
                       else values) ds acc)
            <-> In v acc
                \/ exists deck card,
                  In deck ds /\ Deck_.is_undisclosed deck = false
                  /\ In card (_cards deck) /\ open_ card = true
                  /\ _value card = v) as Hdecks.
  { induction ds as [|d t IH]; intros acc; simpl.
    - firstorder.
    - rewrite IH. destruct (Deck_.is_undisclosed d) eqn:Eu; simpl;
        [|rewrite Hcards]; firstorder (subst; eauto; congruence). }
  rewrite Hdecks. simpl. firstorder.
Qed.

(** [is_done] counts the disclosed values; when the ranks are distinct and
    every card carries the value of a rank, the count is full exactly when
    every rank is disclosed. *)
Lemma is_done_all_ranks (K : Constants) (p : Player) :
  List.NoDup (Rank K) ->
  incl (ComputerPlayer.disclosed_values (decks p)) (Rank K) ->
  is_done K p = true
  <-> incl (Rank K) (ComputerPlayer.disclosed_values (decks p)).
Proof.
  intros Hnd Hincl. unfold is_done. cbv zeta. rewrite Z.eqb_eq, Nat2Z.inj_iff.
  pose proof (disclosed_values_NoDup (decks p)) as Hd.
  split.
  - intros Hlen. apply NoDup_length_incl; [exact Hd | lia | exact Hincl].
  - intros Hfull.
    apply Nat.le_antisymm; apply NoDup_incl_length; assumption.
Qed.






(** *** The round counter *)





Section RoundCounter.
Variable K : Constants.






End RoundCounter.






(** * Further properties of the strategies, the players and the game *)

(** * More of the rules engine *)

(** ** The list primitives *)

Lemma max_from_In {A : Type} (key : A -> Z) (l : list A) :
  forall best, In (max_from key best l) (best :: l).
Proof.
  induction l as [|x t IH]; intros best; simpl; [left; reflexivity|].
  destruct (key best <? key x).
  - right. apply IH.
  - destruct (IH best) as [H|H]; [left; exact H | right; right; exact H].
Qed.

Lemma max_from_ge {A : Type} (key : A -> Z) (l : list A) :
  forall best x, In x (best :: l) -> key x <= key (max_from key best l).
Proof.
  induction l as [|y t IH]; intros best x Hx; simpl.
  - destruct Hx as [<-|[]]. lia.
  - destruct (Z.ltb_spec (key best) (key y)) as [Hlt|Hge].
    + destruct Hx as [<-|[<-|Hx]].
      * specialize (IH y y (or_introl eq_refl)). lia.
      * apply IH. left; reflexivity.
      * apply IH. right; exact Hx.
    + destruct Hx as [<-|[<-|Hx]].
      * apply IH. left; reflexivity.
      * specialize (IH best best (or_introl eq_refl)). lia.
      * apply IH. right; exact Hx.
Qed.

Lemma min_from_In {A : Type} (key : A -> Z) (l : list A) :
  forall best, In (min_from key best l) (best :: l).
Proof.
  induction l as [|x t IH]; intros best; simpl; [left; reflexivity|].
  destruct (key x <? key best).
  - right. apply IH.
  - destruct (IH best) as [H|H]; [left; exact H | right; right; exact H].
Qed.

Lemma min_from_le {A : Type} (key : A -> Z) (l : list A) :
  forall best x, In x (best :: l) -> key (min_from key best l) <= key x.
Proof.
  induction l as [|y t IH]; intros best x Hx; simpl.
  - destruct Hx as [<-|[]]. lia.
  - destruct (Z.ltb_spec (key y) (key best)) as [Hlt|Hge].
    + destruct Hx as [<-|[<-|Hx]].
      * specialize (IH y y (or_introl eq_refl)). lia.
      * apply IH. left; reflexivity.
      * apply IH. right; exact Hx.
    + destruct Hx as [<-|[<-|Hx]].
      * apply IH. left; reflexivity.
      * specialize (IH best best (or_introl eq_refl)). lia.
      * apply IH. right; exact Hx.
Qed.

(** [max] over a list that is not empty: an element of the list whose key
    no other element exceeds. *)
Lemma py_max_spec {A : Type} (key : A -> Z) (l : list A) :
  l <> [] ->
  exists m, py_max key l = Ok m /\ In m l
            /\ forall x, In x l -> key x <= key m.
Proof.
  destruct l as [|x t]; [congruence|]. intros _.
  exists (max_from key x t). split; [reflexivity|]. split.
  - apply max_from_In.
  - intros y Hy. apply max_from_ge. exact Hy.
Qed.

Lemma py_min_spec {A : Type} (key : A -> Z) (l : list A) :
  l <> [] ->
  exists m, py_min key l = Ok m /\ In m l
            /\ forall x, In x l -> key m <= key x.
Proof.
  destruct l as [|x t]; [congruence|]. intros _.
  exists (min_from key x t). split; [reflexivity|]. split.
  - apply min_from_In.
  - intros y Hy. apply min_from_le. exact Hy.
Qed.

Lemma py_index_nat {A : Type} (l : list A) (k : nat) :
  (k < length l)%nat -> py_index l (Z.of_nat k) = Ok k.
Proof.
  intros H. unfold py_index. cbv zeta.
  replace (0 <=? Z.of_nat k) with true by (symmetry; apply Z.leb_le; lia).
  replace (Z.of_nat k <? Z.of_nat (length l)) with true
    by (symmetry; apply Z.ltb_lt; lia).
  cbn [andb]. rewrite Nat2Z.id. reflexivity.
Qed.

Lemma py_get_nat {A : Type} (l : list A) (k : nat) (x : A) :
  l !! k = Some x -> py_get l (Z.of_nat k) = Ok x.
Proof.
  intros H. unfold py_get.
  rewrite py_index_nat by (eapply lookup_lt_Some; exact H).
  cbn [bind]. rewrite H. reflexivity.
Qed.

Lemma py_set_nat {A : Type} (l : list A) (k : nat) (x : A) :
  (k < length l)%nat -> py_set l (Z.of_nat k) x = Ok (<[k := x]> l).
Proof.
  intros H. unfold py_set. rewrite py_index_nat by exact H. reflexivity.
Qed.

(** ** Joker position strategies *)

Import JokerPositionStrategy.

(** [to_delegate] swaps slot 0 and slot [k]. *)
Lemma to_delegate_nat (cards : list Card) (k : nat) (c0 ck : Card) :
  cards !! 0%nat = Some c0 -> cards !! k = Some ck ->
  to_delegate cards (Z.of_nat k) = Ok (<[k := c0]> (<[0%nat := ck]> cards)).
Proof.
  intros H0 Hk. unfold to_delegate.
  rewrite (py_get_nat _ _ _ Hk). cbn [bind].
  change 0 with (Z.of_nat 0). rewrite (py_get_nat _ _ _ H0). cbn [bind].
  rewrite py_set_nat by (eapply lookup_lt_Some; exact H0). cbn [bind].
  rewrite py_set_nat
    by (rewrite length_insert; eapply lookup_lt_Some; exact Hk).
  reflexivity.
Qed.

Lemma swap_Permutation (cards : list Card) (k : nat) (c0 ck : Card) :
  cards !! 0%nat = Some c0 -> cards !! k = Some ck ->
  Permutation cards (<[k := c0]> (<[0%nat := ck]> cards)).
Proof.
  destruct cards as [|c rest]; [discriminate|].
  intros [= ->] Hk. destruct k as [|k]; simpl in *.
  - injection Hk as ->. reflexivity.
  - rewrite <- (take_drop_middle _ _ _ Hk) at 1.
    rewrite insert_take_drop by (eapply lookup_lt_Some; exact Hk).
    rewrite <- Permutation_middle, perm_swap. apply perm_skip.
    apply Permutation_middle.
Qed.

(** Cards that [__eq__] (suit, colour and rank) takes for equal are the
    same card: so it is in a deck dealt from one pile. *)
Definition told_apart (cards : list Card) : Prop :=
  forall c1 c2, In c1 cards -> In c2 cards -> Card_eq c1 c2 = true -> c1 = c2.

Lemma index_from_spec (x : Card) (l : list Card) :
  In x l ->
  (forall c, In c l -> Card_eq c x = true -> c = x) ->
  forall i, exists k, index_from Card_eq x l i = Ok (i + Z.of_nat k)
                      /\ l !! k = Some x.
Proof.
  induction l as [|y t IH]; intros Hin Heq i; [destruct Hin|].
  simpl. destruct (Card_eq y x) eqn:E.
  - exists 0%nat. rewrite (Heq y (or_introl eq_refl) E).
    split; [f_equal; lia | reflexivity].
  - destruct Hin as [->|Hin]; [rewrite Card_eq_refl in E; discriminate|].
    destruct (IH Hin (fun c Hc => Heq c (or_intror Hc)) (i + 1))
      as (k & Hk & Hl).
    exists (S k). split; [rewrite Hk; f_equal; lia | exact Hl].
Qed.

Lemma py_list_index_spec (cards : list Card) (x : Card) :
  told_apart cards -> In x cards ->
  exists k, py_list_index Card_eq cards x = Ok (Z.of_nat k)
            /\ cards !! k = Some x.
Proof.
  intros Hta Hin.
  destruct (index_from_spec x cards Hin
              (fun c Hc => Hta c x Hc Hin) 0) as (k & Hk & Hl).
  exists k. split; [exact Hk | exact Hl].
Qed.

(** The card in slot 0 after a strategy has run. *)
Definition delegate (cards : list Card) : option Card := cards !! 0%nat.

Definition biggest_leads (cards : list Card) : Prop :=
  exists d, delegate cards = Some d
            /\ forall c, In c cards -> _value c <= _value d.

Lemma swap_delegate (cards : list Card) (k : nat) (c0 ck : Card) :
  cards !! 0%nat = Some c0 -> cards !! k = Some ck ->
  delegate (<[k := c0]> (<[0%nat := ck]> cards))
  = Some (match k with O => c0 | S _ => ck end).
Proof.
  destruct cards as [|c rest]; [discriminate|].
  intros [= ->] Hk. destruct k; reflexivity.
Qed.

Lemma to_delegate_leads (cards : list Card) (k : nat) (ck : Card) :
  cards !! k = Some ck ->
  (forall c, In c cards -> _value c <= _value ck) ->
  exists cards',
    to_delegate cards (Z.of_nat k) = Ok cards'
    /\ Permutation cards cards'
    /\ delegate cards' = Some ck
    /\ biggest_leads cards'.
Proof.
  intros Hk Hmax.
  destruct (cards !! 0%nat) as [c0|] eqn:H0.
  2:{ destruct cards; [discriminate Hk | discriminate H0]. }
  exists (<[k := c0]> (<[0%nat := ck]> cards)).
  assert (delegate (<[k := c0]> (<[0%nat := ck]> cards)) = Some ck) as Hd.
  { rewrite (swap_delegate _ _ _ _ H0 Hk). destruct k; [|reflexivity].
    congruence. }
  pose proof (swap_Permutation _ _ _ _ H0 Hk) as HP.
  split; [apply to_delegate_nat; assumption|].
  split; [exact HP|]. split; [exact Hd|].
  exists ck. split; [exact Hd|].
  intros c Hc. apply Hmax. eapply Permutation_in; [symmetry; exact HP|exact Hc].
Qed.

(** X1.  [JokerAnywhere.apply], which is [biggest_to_delegate]: on the
    empty deck [max] raises [ValueError]; otherwise the cards are
    permuted so that a card of the greatest value leads. *)
Theorem joker_anywhere_biggest_leads (cards : list Card) :
  told_apart cards ->
  (cards = [] /\ JokerAnywhere.apply cards = Raise ValueError)
  \/ exists cards',
      JokerAnywhere.apply cards = Ok cards'
      /\ Permutation cards cards'
      /\ biggest_leads cards'.
Proof.
  intros Hta. destruct cards as [|c0 rest] eqn:E; [left; split; reflexivity|].
  right. rewrite <- E in *.
  assert (cards <> []) as Hne by (rewrite E; discriminate).
  unfold JokerAnywhere.apply, biggest_to_delegate, biggest.
  destruct (py_max_spec _value cards Hne) as (m & -> & Hin & Hmax).
  cbn [bind].
  destruct (py_list_index_spec cards m Hta Hin) as (k & -> & Hk).
  cbn [bind].
  destruct (to_delegate_leads cards k m Hk Hmax) as (cards' & H1 & H2 & _ & H3).
  exists cards'. repeat split; assumption.
Qed.

Lemma three_cards_told_apart (a b c : Card) :
  Card_eq a b = false -> Card_eq a c = false -> Card_eq b c = false ->
  Card_eq b a = false -> Card_eq c a = false -> Card_eq c b = false ->
  told_apart [a; b; c].
Proof.
  intros Hab Hac Hbc Hba Hca Hcb c1 c2 H1 H2 He. simpl in H1, H2.
  destruct H1 as [<-|[<-|[<-|[]]]], H2 as [<-|[<-|[<-|[]]]];
    congruence.
Qed.

Lemma joker_anywhere_biggest_leads_witness :
  exists cards',
    JokerAnywhere.apply
      [red_card 0 5 false; red_joker 13 false; red_card 2 9 false]
    = Ok cards'
    /\ biggest_leads cards'.
Proof.
  destruct (joker_anywhere_biggest_leads
              [red_card 0 5 false; red_joker 13 false; red_card 2 9 false])
    as [[H _]|(cards' & H1 & _ & H2)].
  - apply three_cards_told_apart; reflexivity.
  - discriminate H.
  - exists cards'. split; assumption.
Defined.

(** The deck holds at most one joker. *)
Definition one_joker (cards : list Card) : Prop :=
  forall c1 c2, In c1 cards -> In c2 cards ->
                _is_joker c1 = true -> _is_joker c2 = true -> c1 = c2.

Lemma find_joker_index_spec (cards : list Card) :
  (find_joker_index cards = -1
   /\ forall c, In c cards -> _is_joker c = false)
  \/ exists k j, find_joker_index cards = Z.of_nat k
                 /\ cards !! k = Some j /\ _is_joker j = true.
Proof.
  unfold find_joker_index.
  set (f := fun (joker_index : Z) (i : nat) =>
              match cards !! i with
              | Some card => if _is_joker card then Z.of_nat i
                             else joker_index
              | None => joker_index
              end).
  assert (forall n, (n <= length cards)%nat ->
             (fold_left f (seq 0 n) (-1) = -1
              /\ forall i c, (i < n)%nat -> cards !! i = Some c ->
                             _is_joker c = false)
             \/ exists k j, fold_left f (seq 0 n) (-1) = Z.of_nat k
                            /\ cards !! k = Some j /\ _is_joker j = true)
    as H.
  { induction n as [|n IH]; intros Hn.
    - left. split; [reflexivity | intros; lia].
    - rewrite seq_S, fold_left_app. cbn [fold_left Nat.add].
      destruct (cards !! n) as [c|] eqn:En.
      2:{ apply lookup_ge_None in En. lia. }
      assert (f (fold_left f (seq 0 n) (-1)) n
              = if _is_joker c then Z.of_nat n
                else fold_left f (seq 0 n) (-1)) as ->
          by (unfold f at 1; rewrite En; reflexivity).
      destruct (_is_joker c) eqn:Ej.
      + right. exists n, c. split; [reflexivity|]. split; assumption.
      + destruct (IH ltac:(lia)) as [[H0 Hno]|Hex].
        * left. split; [exact H0|].
          intros i c' Hi Hc'. destruct (Nat.eq_dec i n) as [->|Hne].
          -- congruence.
          -- eapply Hno; [|exact Hc']. lia.
        * right. exact Hex. }
  destruct (H (length cards) (le_n _)) as [[H0 Hno]|Hex].
  - left. split; [exact H0|].
    intros c Hc. apply list_elem_of_In, list_elem_of_lookup in Hc as [i Hi].
    eapply Hno; [|exact Hi]. eapply lookup_lt_Some. exact Hi.
  - right. exact Hex.
Qed.

Lemma non_jokers_not_empty (cards : list Card) :
  existsb (fun c => negb (_is_joker c)) cards = true ->
  List.filter (fun card => negb (_is_joker card)) cards <> [].
Proof.
  intros H. apply existsb_exists in H as (c & Hin & Hc).
  intros E. assert (In c (List.filter (fun card => negb (_is_joker card))
                                      cards)) as Hf
      by (apply filter_In; split; assumption).
  rewrite E in Hf. destruct Hf.
Qed.

(** X2.  [JokerFirst.apply] on a deck of one pile that holds a card other
    than the joker: the cards are permuted so that a card of the greatest
    value leads, and the joker leads exactly when no other card has a
    greater value. *)
Theorem joker_first_biggest_leads (cards : list Card) :
  told_apart cards -> one_joker cards ->
  existsb (fun c => negb (_is_joker c)) cards = true ->
  exists cards' d,
    JokerFirst.apply cards = Ok cards'
    /\ Permutation cards cards'
    /\ delegate cards' = Some d
    /\ (forall c, In c cards -> _value c <= _value d)
    /\ (_is_joker d = true
        <-> exists j, In j cards /\ _is_joker j = true
                      /\ forall c, In c cards -> _value c <= _value j).
Proof.
  intros Hta Hone Hex. unfold JokerFirst.apply. cbv zeta.
  pose proof (non_jokers_not_empty cards Hex) as Hne.
  destruct (py_max_spec _value _ Hne) as (m & Hm & Hin & Hmax).
  apply filter_In in Hin as [Hin Hmj].
  apply negb_true_iff in Hmj.
  assert (forall c, In c cards -> _is_joker c = false ->
                    _value c <= _value m) as Hnj.
  { intros c Hc Hj. apply Hmax, filter_In. split; [exact Hc|].
    rewrite Hj. reflexivity. }
  destruct (py_list_index_spec cards m Hta Hin) as (km & Hkm & Hlm).
  destruct (find_joker_index_spec cards) as [[-> Hno]|(k & j & -> & Hk & Hj)].
  - cbn. unfold biggest_to_delegate, biggest.
    assert (cards <> []) as Hne' by (intros ->; destruct Hin).
    destruct (py_max_spec _value cards Hne') as (b & -> & Hbin & Hbmax).
    cbn [bind].
    destruct (py_list_index_spec cards b Hta Hbin) as (kb & -> & Hkb).
    cbn [bind].
    destruct (to_delegate_leads cards kb b Hkb Hbmax)
      as (cards' & H1 & H2 & H3 & _).
    exists cards', b. repeat split; try assumption.
    + intros Hb. rewrite (Hno b Hbin) in Hb. discriminate.
    + intros (j & Hjin & Hj & _). rewrite (Hno j Hjin) in Hj. discriminate.
  - replace (Z.of_nat k >? -1) with true
      by (symmetry; rewrite Z.gtb_ltb; apply Z.ltb_lt; lia).
    rewrite (py_get_nat _ _ _ Hk). cbn [bind].
    unfold biggest. rewrite Hm. cbn [bind]. rewrite Hkm. cbn [bind].
    assert (In j cards) as Hjin
        by (apply list_elem_of_In; eapply list_elem_of_lookup_2; exact Hk).
    destruct (Z.geb_spec (_value j) (_value m)) as [Hge|Hlt].
    + assert (forall c, In c cards -> _value c <= _value j) as Hall.
      { intros c Hc. destruct (_is_joker c) eqn:Ec.
        - rewrite (Hone c j Hc Hjin Ec Hj). lia.
        - specialize (Hnj c Hc Ec). lia. }
      destruct (to_delegate_leads cards k j Hk Hall)
        as (cards' & H1 & H2 & H3 & _).
      exists cards', j. repeat split; try assumption;
        try (intros _; assumption).
      intros _. exists j. repeat split; assumption.
    + assert (forall c, In c cards -> _value c <= _value m) as Hall.
      { intros c Hc. destruct (_is_joker c) eqn:Ec.
        - rewrite (Hone c j Hc Hjin Ec Hj). lia.
        - exact (Hnj c Hc Ec). }
      destruct (to_delegate_leads cards km m Hlm Hall)
        as (cards' & H1 & H2 & H3 & _).
      exists cards', m. repeat split; try assumption.
      * intros Hb. congruence.
      * intros (j' & Hj'in & Hj' & Hall').
        rewrite (Hone j' j Hj'in Hjin Hj' Hj) in Hall'.
        specialize (Hall' m Hin). lia.
Qed.

Lemma one_joker_three (j x y : Card) :
  _is_joker x = false -> _is_joker y = false -> one_joker [x; j; y].
Proof.
  intros Hx Hy c1 c2 H1 H2 J1 J2. simpl in H1, H2.
  destruct H1 as [<-|[<-|[<-|[]]]], H2 as [<-|[<-|[<-|[]]]];
    congruence.
Qed.

Lemma joker_first_biggest_leads_witness :
  exists cards',
    JokerFirst.apply
      [red_card 0 5 false; red_joker 9 false; red_card 2 9 false]
    = Ok cards'
    /\ delegate cards' = Some (red_joker 9 false).
Proof.
  destruct (joker_first_biggest_leads
              [red_card 0 5 false; red_joker 9 false; red_card 2 9 false])
    as (cards' & d & H1 & _ & H2 & _ & H3).
  - apply three_cards_told_apart; reflexivity.
  - apply one_joker_three; reflexivity.
  - reflexivity.
  - exists cards'. split; [exact H1|].
    vm_compute in H1. injection H1 as <-. reflexivity.
Defined.

(** X3.  [JokerNotFirst.apply] on a deck of one pile that holds a card
    other than the joker: a card of the greatest value leads, and the
    joker leads exactly when its value is greater than that of every other
    card. *)
Theorem joker_not_first_biggest_leads (cards : list Card) :
  told_apart cards -> one_joker cards ->
  existsb (fun c => negb (_is_joker c)) cards = true ->
  exists cards' d,
    JokerNotFirst.apply cards = Ok cards'
    /\ Permutation cards cards'
    /\ delegate cards' = Some d
    /\ (forall c, In c cards -> _value c <= _value d)
    /\ (_is_joker d = true
        <-> exists j, In j cards /\ _is_joker j = true
                      /\ forall c, In c cards -> _is_joker c = false ->
                                   _value c < _value j).
Proof.
  intros Hta Hone Hex. unfold JokerNotFirst.apply. cbv zeta.
  destruct (find_joker_index_spec cards) as [[-> Hno]|(k & j & -> & Hk & Hj)].
  - cbn. unfold biggest_to_delegate, biggest.
    assert (cards <> []) as Hne'
        by (intros ->; discriminate Hex).
    destruct (py_max_spec _value cards Hne') as (b & -> & Hbin & Hbmax).
    cbn [bind].
    destruct (py_list_index_spec cards b Hta Hbin) as (kb & -> & Hkb).
    cbn [bind].
    destruct (to_delegate_leads cards kb b Hkb Hbmax)
      as (cards' & H1 & H2 & H3 & _).
    exists cards', b. repeat split; try assumption.
    + intros Hb. rewrite (Hno b Hbin) in Hb. discriminate.
    + intros (j & Hjin & Hj & _). rewrite (Hno j Hjin) in Hj. discriminate.
  - replace (Z.of_nat k >? -1) with true
      by (symmetry; rewrite Z.gtb_ltb; apply Z.ltb_lt; lia).
    rewrite (py_get_nat _ _ _ Hk). cbn [bind].
    assert (In j cards) as Hjin
        by (apply list_elem_of_In; eapply list_elem_of_lookup_2; exact Hk).
    set (others := List.filter (fun card => negb (Card_eq card j)) cards).
    assert (forall c, In c others <-> In c cards /\ _is_joker c = false)
      as Hothers.
    { intros c. unfold others. rewrite filter_In. split.
      - intros [Hc Hn]. split; [exact Hc|].
        destruct (_is_joker c) eqn:Ec; [|reflexivity].
        rewrite (Hone c j Hc Hjin Ec Hj), Card_eq_refl in Hn. discriminate.
      - intros [Hc Hn]. split; [exact Hc|].
        destruct (Card_eq c j) eqn:Ec; [|reflexivity].
        rewrite (Hta c j Hc Hjin Ec) in Hn. congruence. }
    assert (others <> []) as Hne.
    { apply existsb_exists in Hex as (c & Hc & Hn).
      apply negb_true_iff in Hn.
      intros E. assert (In c others) as Hf by (apply Hothers; split; assumption).
      rewrite E in Hf. destruct Hf. }
    destruct (py_max_spec _value others Hne) as (m & Hm & Hin & Hmax).
    apply Hothers in Hin as [Hin Hmj].
    assert (forall c, In c cards -> _is_joker c = false ->
                      _value c <= _value m) as Hnj
        by (intros c Hc Hn; apply Hmax, Hothers; split; assumption).
    unfold biggest. rewrite Hm. cbn [bind].
    destruct (Z.gtb_spec (_value j) (_value m)) as [Hgt|Hle].
    + assert (forall c, In c cards -> _value c <= _value j) as Hall.
      { intros c Hc. destruct (_is_joker c) eqn:Ec.
        - rewrite (Hone c j Hc Hjin Ec Hj). lia.
        - specialize (Hnj c Hc Ec). lia. }
      destruct (to_delegate_leads cards k j Hk Hall)
        as (cards' & H1 & H2 & H3 & _).
      exists cards', j. repeat split; try assumption;
        try (intros _; assumption).
      intros _. exists j. repeat split; try assumption.
      intros c Hc Hn. specialize (Hnj c Hc Hn). lia.
    + destruct (py_list_index_spec cards m Hta Hin) as (km & -> & Hlm).
      cbn [bind].
      assert (forall c, In c cards -> _value c <= _value m) as Hall.
      { intros c Hc. destruct (_is_joker c) eqn:Ec.
        - rewrite (Hone c j Hc Hjin Ec Hj). lia.
        - exact (Hnj c Hc Ec). }
      destruct (to_delegate_leads cards km m Hlm Hall)
        as (cards' & H1 & H2 & H3 & _).
      exists cards', m. repeat split; try assumption.
      * intros Hb. congruence.
      * intros (j' & Hj'in & Hj' & Hall').
        rewrite (Hone j' j Hj'in Hjin Hj' Hj) in Hall'.
        specialize (Hall' m Hin Hmj). lia.
Qed.

Lemma joker_not_first_biggest_leads_witness :
  exists cards',
    JokerNotFirst.apply
      [red_card 0 5 false; red_joker 9 false; red_card 2 9 false]
    = Ok cards'
    /\ delegate cards' = Some (red_card 2 9 false).
Proof.
  destruct (joker_not_first_biggest_leads
              [red_card 0 5 false; red_joker 9 false; red_card 2 9 false])
    as (cards' & d & H1 & _ & H2 & _ & H3).
  - apply three_cards_told_apart; reflexivity.
  - apply one_joker_three; reflexivity.
  - reflexivity.
  - exists cards'. split; [exact H1|].
    vm_compute in H1. injection H1 as <-. reflexivity.
Defined.

(** ** Joker value strategies *)

Definition no_joker (cards : list Card) : Prop :=
  forall c, In c cards -> _is_joker c = false.

Lemma Card_eq_is_joker (a b : Card) :
  Card_eq a b = true -> _is_joker a = _is_joker b.
Proof.
  unfold Card_eq, _is_joker. intros H.
  apply andb_prop in H as [_ H].
  destruct (_rank a), (_rank b); try discriminate; reflexivity.
Qed.

Lemma first_joker_slot_app (pre post : list Card) (j : Card) :
  no_joker pre -> _is_joker j = true ->
  forall i, NextBiggest.first_joker_slot (pre ++ j :: post) i
            = Some (i + length pre)%nat.
Proof.
  intros Hpre Hj. induction pre as [|c t IH]; intros i; simpl.
  - rewrite Hj. f_equal. lia.
  - rewrite (Hpre c (or_introl eq_refl)).
    rewrite IH by (intros c' Hc'; apply Hpre; right; exact Hc').
    f_equal. lia.
Qed.

Lemma find_first_joker (pre post : list Card) (j : Card) :
  no_joker pre -> _is_joker j = true ->
  List.find _is_joker (pre ++ j :: post) = Some j.
Proof.
  intros Hpre Hj. induction pre as [|c t IH]; simpl.
  - rewrite Hj. reflexivity.
  - rewrite (Hpre c (or_introl eq_refl)).
    apply IH. intros c' Hc'. apply Hpre. right. exact Hc'.
Qed.

Lemma filter_others (pre post : list Card) (j : Card) :
  no_joker pre -> no_joker post -> _is_joker j = true ->
  List.filter (fun card => negb (Card_eq card j)) (pre ++ j :: post)
  = pre ++ post.
Proof.
  intros Hpre Hpost Hj.
  assert (forall l, no_joker l ->
                    List.filter (fun card => negb (Card_eq card j)) l = l)
    as Hkeep.
  { intros l Hl. apply filter_all. apply forallb_forall. intros c Hc.
    destruct (Card_eq c j) eqn:E; [|reflexivity].
    apply Card_eq_is_joker in E. rewrite (Hl c Hc), Hj in E. discriminate. }
  rewrite List.filter_app. cbn [List.filter].
  rewrite Card_eq_refl. cbn [negb].
  rewrite !Hkeep by assumption. reflexivity.
Qed.

Lemma insert_middle (pre post : list Card) (j j' : Card) :
  <[length pre := j']> (pre ++ j :: post) = pre ++ j' :: post.
Proof.
  induction pre as [|c t IH]; simpl; [reflexivity|]. f_equal. exact IH.
Qed.

(** X4.  [Thirteen.apply] gives the first joker of the deck the greatest
    rank value and leaves every other card, and the order, as they are. *)
Theorem thirteen_values_first_joker (K : Constants) (pre post : list Card)
        (j : Card) :
  no_joker pre -> _is_joker j = true -> Rank K <> [] ->
  exists v,
    Thirteen.apply K (pre ++ j :: post) = Ok (pre ++ set_value j v :: post)
    /\ In v (Rank K)
    /\ forall rank_value, In rank_value (Rank K) -> rank_value <= v.
Proof.
  intros Hpre Hj Hrank.
  destruct (py_max_spec (fun rank_value : Z => rank_value) (Rank K) Hrank)
    as (v & Hv & Hin & Hmax).
  exists v. split; [|split; assumption].
  induction pre as [|c t IH]; simpl.
  - rewrite Hj, Hv. reflexivity.
  - rewrite (Hpre c (or_introl eq_refl)).
    rewrite IH by (intros c' Hc'; apply Hpre; right; exact Hc').
    reflexivity.
Qed.

Lemma thirteen_values_first_joker_witness :
  exists v,
    Thirteen.apply K0 [red_card 0 5 false; red_joker 0 false;
                       red_card 2 9 false]
    = Ok [red_card 0 5 false; set_value (red_joker 0 false) v;
          red_card 2 9 false]
    /\ In v (Rank K0)
    /\ forall rank_value, In rank_value (Rank K0) -> rank_value <= v.
Proof.
  apply (thirteen_values_first_joker K0 [red_card 0 5 false]
           [red_card 2 9 false] (red_joker 0 false)).
  - intros c [<-|[]]. reflexivity.
  - reflexivity.
  - discriminate.
Defined.

(** X5.  [SameAsMax.apply] on a deck with one joker and at least one
    other card gives the joker the greatest value among the other cards
    and leaves these, and the order, as they are. *)
Theorem same_as_max_values_joker (pre post : list Card) (j : Card) :
  no_joker pre -> no_joker post -> _is_joker j = true ->
  pre ++ post <> [] ->
  exists biggest,
    SameAsMax.apply (pre ++ j :: post)
    = Ok (pre ++ set_value j (_value biggest) :: post)
    /\ In biggest (pre ++ post)
    /\ forall c, In c (pre ++ post) -> _value c <= _value biggest.
Proof.
  intros Hpre Hpost Hj Hne.
  destruct (py_max_spec _value (pre ++ post) Hne) as (m & Hm & Hin & Hmax).
  exists m. split; [|split; assumption].
  unfold SameAsMax.apply, py_next.
  assert (existsb _is_joker (pre ++ j :: post) = true) as ->.
  { apply existsb_exists. exists j. split; [|exact Hj].
    apply in_or_app. right. left. reflexivity. }
  rewrite (find_first_joker pre post j Hpre Hj). cbn [bind].
  rewrite (filter_others pre post j Hpre Hpost Hj), Hm. cbn [bind].
  rewrite (first_joker_slot_app pre post j Hpre Hj). cbn [Nat.add].
  rewrite insert_middle. reflexivity.
Qed.

Lemma same_as_max_values_joker_witness :
  exists biggest,
    SameAsMax.apply [red_card 0 5 false; red_joker 0 false;
                     red_card 2 9 false]
    = Ok [red_card 0 5 false;
          set_value (red_joker 0 false) (_value biggest);
          red_card 2 9 false]
    /\ In biggest [red_card 0 5 false; red_card 2 9 false]
    /\ forall c, In c [red_card 0 5 false; red_card 2 9 false] ->
                 _value c <= _value biggest.
Proof.
  apply (same_as_max_values_joker [red_card 0 5 false]
           [red_card 2 9 false] (red_joker 0 false)).
  - intros c [<-|[]]. reflexivity.
  - intros c [<-|[]]. reflexivity.
  - reflexivity.
  - discriminate.
Defined.

(** A deck made of the joker alone: [max] of no card is a [ValueError]
    under [SameAsMax] and [NextBiggest], while [Thirteen] values it. *)
Lemma lone_joker (K : Constants) (j : Card) :
  _is_joker j = true ->
  SameAsMax.apply [j] = Raise ValueError
  /\ NextBiggest.apply [j] = Raise ValueError.
Proof.
  intros Hj. unfold SameAsMax.apply, NextBiggest.apply, py_next.
  cbn [existsb List.find]. rewrite Hj. cbn [orb bind List.filter].
  rewrite Card_eq_refl. split; reflexivity.
Qed.

(** [NextBiggest.apply] on a deck with one joker: the joker's value is
    computed from the greatest and the least value among the others. *)
Lemma next_biggest_apply (pre post : list Card) (j : Card) :
  no_joker pre -> no_joker post -> _is_joker j = true ->
  pre ++ post <> [] ->
  exists biggest smallest,
    NextBiggest.apply (pre ++ j :: post)
    = Ok (pre ++ set_value j (NextBiggest.joker_value (_value biggest)
                                                      (_value smallest))
              :: post)
    /\ In biggest (pre ++ post) /\ In smallest (pre ++ post)
    /\ forall c, In c (pre ++ post) ->
                 _value smallest <= _value c <= _value biggest.
Proof.
  intros Hpre Hpost Hj Hne.
  destruct (py_max_spec _value (pre ++ post) Hne) as (M & HM & HMin & HMmax).
  destruct (py_min_spec _value (pre ++ post) Hne) as (m & Hm & Hmin & Hmmin).
  exists M, m. split; [|split; [exact HMin | split; [exact Hmin|]]].
  - unfold NextBiggest.apply, py_next.
    assert (existsb _is_joker (pre ++ j :: post) = true) as ->.
    { apply existsb_exists. exists j. split; [|exact Hj].
      apply in_or_app. right. left. reflexivity. }
    rewrite (find_first_joker pre post j Hpre Hj). cbn [bind].
    rewrite (filter_others pre post j Hpre Hpost Hj), HM, Hm. cbn [bind].
    rewrite (first_joker_slot_app pre post j Hpre Hj). cbn [Nat.add].
    rewrite insert_middle. reflexivity.
  - intros c Hc. split; [apply Hmmin | apply HMmax]; exact Hc.
Qed.

(** A value that the deck does not hold yet, below its best card. *)
Definition free_below (a b w : Z) : Prop :=
  1 <= w < Z.max a b /\ w <> a /\ w <> b.

(** X6.  [NextBiggest.apply] on a 3-card deck whose two other cards have
    positive values [a] and [b]: the joker gets the greatest value below
    the best card that the deck does not hold yet; when there is no such
    value (the values are 1 and 1, or 1 and 2) it gets the value of the
    best card. *)
Theorem next_biggest_greatest_free_value (pre post : list Card)
        (j x y : Card) :
  _is_joker j = true -> _is_joker x = false -> _is_joker y = false ->
  pre ++ post = [x; y] ->
  1 <= _value x -> 1 <= _value y ->
  exists v,
    NextBiggest.apply (pre ++ j :: post) = Ok (pre ++ set_value j v :: post)
    /\ ((free_below (_value x) (_value y) v
         /\ forall w, free_below (_value x) (_value y) w -> w <= v)
        \/ (v = Z.max (_value x) (_value y)
            /\ forall w, ~ free_below (_value x) (_value y) w)).
Proof.
  intros Hj Hx Hy Hxy Hvx Hvy.
  assert (no_joker (pre ++ post)) as Hno
      by (rewrite Hxy; intros c [<-|[<-|[]]]; assumption).
  assert (no_joker pre) as Hpre
      by (intros c Hc; apply Hno, in_or_app; left; exact Hc).
  assert (no_joker post) as Hpost
      by (intros c Hc; apply Hno, in_or_app; right; exact Hc).
  destruct (next_biggest_apply pre post j Hpre Hpost Hj)
    as (M & m & Happly & HM & Hm & Hbounds);
    [rewrite Hxy; discriminate|].
  rewrite Hxy in HM, Hm, Hbounds.
  pose proof (Hbounds x (or_introl eq_refl)) as Bx.
  pose proof (Hbounds y (or_intror (or_introl eq_refl))) as By.
  assert (_value M = Z.max (_value x) (_value y)) as EM
      by (destruct HM as [<-|[<-|[]]]; lia).
  assert (_value m = Z.min (_value x) (_value y)) as Em
      by (destruct Hm as [<-|[<-|[]]]; lia).
  eexists. split; [exact Happly|].
  rewrite EM, Em. unfold NextBiggest.joker_value, free_below.
  repeat match goal with
         | |- context [?a =? ?b] =>
             destruct (Z.eqb_spec a b)
         end.
  - right. split; [lia|]. intros w. lia.
  - destruct (Z.eq_dec (Z.min (_value x) (_value y)) 1).
    + right. split; [lia|]. intros w. lia.
    + left. split; [lia|]. intros w. lia.
  - left. split; [lia|]. intros w. lia.
  - left. split; [lia|]. intros w. lia.
Qed.

Lemma next_biggest_greatest_free_value_witness :
  exists v,
    NextBiggest.apply [red_card 0 7 false; red_joker 0 false;
                       red_card 2 8 false]
    = Ok [red_card 0 7 false; set_value (red_joker 0 false) v;
          red_card 2 8 false]
    /\ ((free_below 7 8 v /\ forall w, free_below 7 8 w -> w <= v)
        \/ (v = Z.max 7 8 /\ forall w, ~ free_below 7 8 w)).
Proof.
  apply (next_biggest_greatest_free_value [red_card 0 7 false]
           [red_card 2 8 false] (red_joker 0 false)
           (red_card 0 7 false) (red_card 2 8 false));
    first [reflexivity | simpl; lia].
Defined.

(** ** Deck choice *)

(** X7.  [BiggestOffenseDeck.apply] raises [ValueError] when no deck of
    the player is undisclosed; otherwise it returns one of the player's
    undisclosed decks, of the greatest index among them. *)
Theorem biggest_offense_deck_spec (decks_me : list Deck) :
  (BiggestOffenseDeck.apply decks_me = Raise ValueError
   /\ forall deck, In deck decks_me -> Deck_.is_undisclosed deck = false)
  \/ exists deck,
      BiggestOffenseDeck.apply decks_me = Ok deck
      /\ In deck decks_me /\ Deck_.is_undisclosed deck = true
      /\ forall other, In other decks_me ->
                       Deck_.is_undisclosed other = true ->
                       _index other <= _index deck.
Proof.
  unfold BiggestOffenseDeck.apply. cbv zeta.
  destruct (List.filter Deck_.is_undisclosed decks_me) as [|d t] eqn:E.
  - left. split; [reflexivity|]. intros deck Hin.
    destruct (Deck_.is_undisclosed deck) eqn:Ed; [|reflexivity].
    assert (In deck (List.filter Deck_.is_undisclosed decks_me)) as Hf
        by (apply filter_In; split; assumption).
    rewrite E in Hf. destruct Hf.
  - right. rewrite <- E.
    destruct (py_max_spec _index (List.filter Deck_.is_undisclosed decks_me))
      as (m & -> & Hin & Hmax); [rewrite E; discriminate|].
    exists m. apply filter_In in Hin as [Hin Hu].
    repeat split; try assumption.
    intros other Ho Hou. apply Hmax, filter_In. split; assumption.
Qed.

(** X8.  [SmallestDefenseDeck.apply] raises [ValueError] when no deck of
    the opponent is undisclosed; otherwise it returns one of the
    opponent's undisclosed decks, of the least index among them. *)
Theorem smallest_defense_deck_spec (decks_opponent : list Deck) :
  (SmallestDefenseDeck.apply decks_opponent = Raise ValueError
   /\ forall deck, In deck decks_opponent ->
                   Deck_.is_undisclosed deck = false)
  \/ exists deck,
      SmallestDefenseDeck.apply decks_opponent = Ok deck
      /\ In deck decks_opponent /\ Deck_.is_undisclosed deck = true
      /\ forall other, In other decks_opponent ->
                       Deck_.is_undisclosed other = true ->
                       _index deck <= _index other.
Proof.
  unfold SmallestDefenseDeck.apply. cbv zeta.
  destruct (List.filter Deck_.is_undisclosed decks_opponent) as [|d t] eqn:E.
  - left. split; [reflexivity|]. intros deck Hin.
    destruct (Deck_.is_undisclosed deck) eqn:Ed; [|reflexivity].
    assert (In deck (List.filter Deck_.is_undisclosed decks_opponent)) as Hf
        by (apply filter_In; split; assumption).
    rewrite E in Hf. destruct Hf.
  - right. rewrite <- E.
    destruct (py_min_spec _index
                (List.filter Deck_.is_undisclosed decks_opponent))
      as (m & -> & Hin & Hmin); [rewrite E; discriminate|].
    exists m. apply filter_In in Hin as [Hin Hu].
    repeat split; try assumption.
    intros other Ho Hou. apply Hmin, filter_In. split; assumption.
Qed.

(** ** Committing the decks of a duel *)

(** A deck once it is in duel against [opponent]. *)
Definition in_duel_with (deck opponent : Deck) : Deck :=
  mkDeck (_cards deck) DeckState.IN_DUEL (_index deck)
         (Some (_index opponent)) (card_to_open_index deck).

(** X9.  Choosing an undisclosed deck for the offense and then one for
    the defense, by their slots, commits both: each player has that deck
    in duel, the two decks are IN_DUEL and name each other as opponent,
    every other deck and the duel are as before. *)
Theorem decks_committed (g : Game.t) (d : Duel.t) (ko kf : nat)
        (deck_o deck_f : Deck) :
  Game.duel_ongoing g = Some d ->
  Duel.defense d <> Duel.offense d ->
  decks (Game.player g (Duel.offense d)) !! ko = Some deck_o ->
  Deck_.is_undisclosed deck_o = true ->
  decks (Game.player g (Duel.defense d)) !! kf = Some deck_f ->
  Deck_.is_undisclosed deck_f = true ->
  exists g1 g2,
    Game.process_offense_deck_index_input g (Z.of_nat ko)
    = Ok (g1, (MsgOffenseDeckChosen (Z.of_nat ko + 1),
               Duration.AFTER_DECK_CHOICE))
    /\ Game.process_defense_deck_index_input g1 (Z.of_nat kf)
       = Ok (g2, (MsgDefenseDeckChosen (Z.of_nat kf + 1),
                  Duration.AFTER_DECK_CHOICE))
    /\ deck_in_duel (Game.player g2 (Duel.offense d)) = Some ko
    /\ deck_in_duel (Game.player g2 (Duel.defense d)) = Some kf
    /\ _deck_in_duel_index (Game.player g2 (Duel.offense d))
       = Some (_index deck_o)
    /\ _deck_in_duel_index (Game.player g2 (Duel.defense d))
       = Some (_index deck_f)
    /\ decks (Game.player g2 (Duel.offense d))
       = <[ko := in_duel_with deck_o deck_f]>
           (decks (Game.player g (Duel.offense d)))
    /\ decks (Game.player g2 (Duel.defense d))
       = <[kf := in_duel_with deck_f deck_o]>
           (decks (Game.player g (Duel.defense d)))
    /\ Game.duel_ongoing g2 = Some d.
Proof.
  intros Hd Hne Hko Huo Hkf Huf.
  pose proof (lookup_lt_Some _ _ _ Hko) as Lo.
  pose proof (lookup_lt_Some _ _ _ Hkf) as Lf.
  destruct g as [pr pb ov gw gl res di dopt].
  destruct d as [dix r dov dw dl ds o f].
  cbn in Hd, Hne; subst dopt.
  destruct o, f; try congruence.
  all: cbn in Hko, Hkf, Lo, Lf.
  all: unfold Game.process_offense_deck_index_input,
         Game.process_defense_deck_index_input, Game.duel,
         Game.Duel_summon_offense, Game.Duel_summon_defense,
         Player_.send_to_duel, Deck_.enter_duel, Deck_.meet_opponent,
         in_duel_with.
  all: cbn -[Z.of_nat Z.add].
  all: rewrite (py_index_nat _ _ Lo); cbn -[Z.of_nat Z.add].
  all: rewrite Hko, Huo.
  all: eexists _, _; (split; [reflexivity|]).
  all: cbn -[Z.of_nat Z.add].
  all: rewrite (py_index_nat _ _ Lf); cbn -[Z.of_nat Z.add].
  all: rewrite Hkf, Huf, list_lookup_insert_eq by exact Lo.
  all: cbn -[Z.of_nat Z.add].
  all: rewrite list_insert_insert_eq.
  all: repeat split; reflexivity.
Qed.

(** *** A game at its opening

    Nine decks a player, the delegates in ascending order, all
    undisclosed; no duel has been started. *)

Definition opening_decks (card : Z -> Z -> bool -> Card) (joker : Card)
           (lo hi : Z) : list Deck :=
  [ undisclosed_deck 0 (card lo 3 false) (card lo 2 false) (card lo 1 false);
    undisclosed_deck 1 (card lo 5 false) (card lo 4 false) (card hi 1 false);
    undisclosed_deck 2 (card lo 7 false) (card lo 6 false) (card hi 2 false);
    undisclosed_deck 3 (card hi 8 false) (card hi 6 false) (card hi 7 false);
    undisclosed_deck 4 (card lo 9 false) (card lo 8 false) (card hi 3 false);
    undisclosed_deck 5 (card lo 11 false) (card lo 10 false)
                     (card hi 4 false);
    undisclosed_deck 6 (card hi 11 false) (card hi 9 false)
                     (card hi 10 false);
    undisclosed_deck 7 (card lo 13 false) (card lo 12 false)
                     (card hi 5 false);
    undisclosed_deck 8 (card hi 13 false) (card hi 12 false) joker ].

Definition opening_red : Player :=
  mkPlayer None None 0 0 0 0
           (opening_decks red_card (red_joker 4 false) 0 2) None.

Definition opening_black : Player :=
  mkPlayer None None 0 0 0 0
           (opening_decks black_card (black_joker 4 false) 1 3) None.

Definition opening_game : Game.t :=
  Game.mk opening_red opening_black false None None None (-1) None.

(** The first duel, started: Red attacks. *)
Definition first_duel : Duel.t :=
  Duel.mk 0 1 false None None DuelState.ONGOING Red Black.

Definition first_duel_game : Game.t :=
  Game.mk opening_red opening_black false None None None 0 (Some first_duel).

Lemma decks_committed_witness :
  exists g1 g2,
    Game.process_offense_deck_index_input first_duel_game 8
    = Ok (g1, (MsgOffenseDeckChosen 9, Duration.AFTER_DECK_CHOICE))
    /\ Game.process_defense_deck_index_input g1 0
       = Ok (g2, (MsgDefenseDeckChosen 1, Duration.AFTER_DECK_CHOICE))
    /\ deck_in_duel (Game.player g2 Red) = Some 8%nat
    /\ deck_in_duel (Game.player g2 Black) = Some 0%nat.
Proof.
  destruct (decks_committed first_duel_game first_duel 8 0
              (undisclosed_deck 8 (red_card 2 13 false) (red_card 2 12 false)
                                (red_joker 4 false))
              (undisclosed_deck 0 (black_card 1 3 false)
                                (black_card 1 2 false) (black_card 1 1 false)))
    as (g1 & g2 & H1 & H2 & H3 & H4 & _).
  - reflexivity.
  - discriminate.
  - reflexivity.
  - reflexivity.
  - reflexivity.
  - reflexivity.
  - exists g1, g2. repeat split; assumption.
Defined.

(** ** Opening the next cards *)

(** The slot [open_next_card] opens in a deck. *)
Definition card_to_open (deck : Deck) : Z :=
  match card_to_open_index deck with
  | None => 1
  | Some i => i
  end.

(** The deck once the card in slot [n] has been opened. *)
Definition next_opened (deck : Deck) (n : nat) (card : Card) : Deck :=
  mkDeck (<[n := open_up card]> (_cards deck)) (_state deck) (_index deck)
         (_opponent_deck_index deck)
         (if Z.of_nat n + 1 =? 3 then None else Some (Z.of_nat n + 1)).

Lemma open_next_card_spec (p : Player) (k n : nat) (deck : Deck)
      (card : Card) :
  _deck_in_duel_index p = Some (Z.of_nat k) ->
  decks p !! k = Some deck ->
  card_to_open deck = Z.of_nat n ->
  _cards deck !! n = Some card ->
  Player_.open_next_card p
  = Ok (Player_.with_decks p (<[k := next_opened deck n card]> (decks p))).
Proof.
  intros Hi Hk Hn Hc. unfold Player_.open_next_card, card_to_open in *.
  rewrite Hi, (py_index_nat _ _ (lookup_lt_Some _ _ _ Hk)). cbn [bind].
  rewrite Hk. cbv zeta. rewrite Hn, (py_get_nat _ _ _ Hc). cbn [bind].
  rewrite (py_set_nat _ _ _ (lookup_lt_Some _ _ _ Hc)). cbn [bind].
  reflexivity.
Qed.

(** X10.  With both decks committed and the round counter at 1 or 2,
    [prepare] opens, in the deck each player has in duel, the card that
    [card_to_open_index] points at (slot 1 when it is [None]), moves that
    index on (back to [None] after slot 2), adds one to the round counter
    and prompts for the actions; the deck in duel is found through
    [_deck_in_duel_index], which has to be its slot. *)
Theorem prepare_opens_next_cards (g : Game.t) (d : Duel.t)
        (k n : Color -> nat) (deck : Color -> Deck) (card : Color -> Card) :
  Game.duel_ongoing g = Some d ->
  Duel._round d = 1 \/ Duel._round d = 2 ->
  (forall c, deck_in_duel (Game.player g c) = Some (k c)) ->
  (forall c, _deck_in_duel_index (Game.player g c) = Some (Z.of_nat (k c))) ->
  (forall c, decks (Game.player g c) !! k c = Some (deck c)) ->
  (forall c, card_to_open (deck c) = Z.of_nat (n c)) ->
  (forall c, _cards (deck c) !! n c = Some (card c)) ->
  exists g',
    Game.prepare g = Ok (g', (MsgActionPrompt, Some Duration.BEFORE_ACTION))
    /\ duel_round g' = Some (Duel._round d + 1)
    /\ forall c,
        Game.player g' c
        = Player_.with_decks (Game.player g c)
            (<[k c := next_opened (deck c) (n c) (card c)]>
               (decks (Game.player g c))).
Proof.
  intros Hd Hr Hin Hix Hdeck Hn Hcard.
  pose proof (fun c => open_next_card_spec (Game.player g c) (k c) (n c)
                         (deck c) (card c)
                         (Hix c) (Hdeck c) (Hn c) (Hcard c)) as Hopen.
  unfold Game.prepare, Game.duel. rewrite Hd. cbn [bind].
  rewrite !Hin.
  replace ((Duel._round d =? 1) || (Duel._round d =? 2)) with true
    by (destruct Hr as [-> | ->]; reflexivity).
  unfold Game._open_next_cards.
  pose proof (Hopen Red) as HR. pose proof (Hopen Black) as HB.
  destruct g as [pr pb ov gw gl res di dopt]. cbn in *.
  rewrite HR. cbn. rewrite HB. cbn.
  eexists. split; [reflexivity|]. split; [reflexivity|].
  intros []; reflexivity.
Qed.

Lemma prepare_opens_next_cards_witness :
  exists g',
    Game.prepare (late_game_at 1)
    = Ok (g', (MsgActionPrompt, Some Duration.BEFORE_ACTION))
    /\ duel_round g' = Some 2
    /\ decks (Game.player g' Red) !! 3%nat
       = Some (mkDeck [red_card 2 8 true; red_card 2 6 true;
                       red_card 2 7 false]
                      DeckState.IN_DUEL 3 (Some 3) (Some 2)).
Proof.
  destruct (prepare_opens_next_cards (late_game_at 1)
              (Duel.mk 6 1 false None None DuelState.ONGOING Red Black)
              (fun _ => 3%nat) (fun _ => 1%nat)
              (fun c => match c with
                        | Red => mkDeck [red_card 2 8 true;
                                         red_card 2 6 false;
                                         red_card 2 7 false]
                                        DeckState.IN_DUEL 3 (Some 3) None
                        | Black => mkDeck [black_card 3 8 true;
                                           black_card 3 6 false;
                                           black_card 3 7 false]
                                          DeckState.IN_DUEL 3 (Some 3) None
                        end)
              (fun c => match c with
                        | Red => red_card 2 6 false
                        | Black => black_card 3 6 false
                        end))
    as (g' & H1 & H2 & H3).
  - reflexivity.
  - left; reflexivity.
  - intros []; reflexivity.
  - intros []; reflexivity.
  - intros []; reflexivity.
  - intros []; reflexivity.
  - intros []; reflexivity.
  - exists g'. split; [exact H1|]. split; [exact H2|].
    rewrite (H3 Red). reflexivity.
Defined.

(** ** From duel to duel *)

Lemma duels_length (n : Z) : length (Game.duels n) = Z.to_nat n.
Proof. unfold Game.duels. rewrite length_map, length_seq. reflexivity. Qed.

Lemma duels_get (n i : Z) :
  0 <= i < n -> py_get (Game.duels n) i = Ok (Duel.init i).
Proof.
  intros Hi. replace i with (Z.of_nat (Z.to_nat i)) at 1 by lia.
  apply py_get_nat. unfold Game.duels.
  change (List.map ?f ?l) with (f <$> l).
  rewrite list_lookup_fmap, lookup_seq_lt by lia.
  cbn. rewrite Z2Nat.id by lia. reflexivity.
Qed.

Lemma duels_get_beyond (n i : Z) :
  0 <= i -> n <= i -> py_get (Game.duels n) i = Raise IndexError.
Proof.
  intros H0 Hn. apply py_get_beyond. rewrite duels_length. lia.
Qed.

Lemma init_roles (i : Z) :
  Duel.offense (Duel.init i) = (if Z.even i then Red else Black)
  /\ Duel.defense (Duel.init i) = (if Z.even i then Black else Red).
Proof.
  unfold Duel.init. cbn. rewrite Zmod_even.
  destruct (Z.even i); split; reflexivity.
Qed.

(** The duel of index [i] as [to_next_duel] starts it. *)
Definition started_duel (i : Z) : Duel.t :=
  Duel.mk i 1 false None None DuelState.ONGOING
          (if Z.even i then Red else Black)
          (if Z.even i then Black else Red).

(** X11.  [to_next_duel] moves to the duel of the next index: that duel
    is ONGOING at round 1 with no winner, Red attacks when the index is
    even and Black when it is odd, and both players' recent actions are
    cleared.  Once all [DECK_PER_PILE] duels are used up it raises
    [IndexError]. *)
Theorem to_next_duel_starts_duel (DECK_PER_PILE : Z) (g : Game.t) :
  -1 <= Game.duel_index g ->
  (Game.duel_index g + 1 < DECK_PER_PILE ->
   Game.to_next_duel DECK_PER_PILE g
   = Ok (Game.mk (Player_.with_recent_action (Game.player_red g) None)
                 (Player_.with_recent_action (Game.player_black g) None)
                 (Game._over g) (Game.winner g) (Game.loser g)
                 (Game.result g) (Game.duel_index g + 1)
                 (Some (started_duel (Game.duel_index g + 1)))))
  /\ (DECK_PER_PILE <= Game.duel_index g + 1 ->
      Game.to_next_duel DECK_PER_PILE g = Raise IndexError).
Proof.
  intros H0. unfold Game.to_next_duel. cbv zeta. split; intros Hn.
  - rewrite duels_get by lia. cbn [bind].
    unfold started_duel, Duel.start.
    destruct (init_roles (Game.duel_index g + 1)) as [-> ->].
    reflexivity.
  - rewrite duels_get_beyond by lia. reflexivity.
Qed.

Lemma to_next_duel_starts_duel_witness :
  (-1 + 1 < 9 -> Game.to_next_duel 9 opening_game = Ok first_duel_game)
  /\ (9 <= -1 + 1 -> Game.to_next_duel 9 opening_game = Raise IndexError).
Proof.
  apply (to_next_duel_starts_duel 9 opening_game). simpl. lia.
Defined.

(** X12.  Over two consecutive duels the players swap roles: who attacks
    in one duel defends in the next. *)
Theorem roles_alternate (DECK_PER_PILE : Z) (g : Game.t) :
  -1 <= Game.duel_index g ->
  Game.duel_index g + 2 < DECK_PER_PILE ->
  exists g1 g2 d1 d2,
    Game.to_next_duel DECK_PER_PILE g = Ok g1
    /\ Game.to_next_duel DECK_PER_PILE g1 = Ok g2
    /\ Game.duel_ongoing g1 = Some d1
    /\ Game.duel_ongoing g2 = Some d2
    /\ Duel.offense d2 = Duel.defense d1
    /\ Duel.defense d2 = Duel.offense d1
    /\ Duel.defense d1 <> Duel.offense d1.
Proof.
  intros H0 Hn.
  destruct (to_next_duel_starts_duel DECK_PER_PILE g H0) as [H1 _].
  rewrite H1 by lia. eexists.
  match goal with
  | |- context [Ok ?g1 = Ok _] =>
      destruct (to_next_duel_starts_duel DECK_PER_PILE g1) as [H2 _];
      [cbn; lia|]
  end.
  cbn [Game.duel_index] in H2. rewrite H2 by lia.
  eexists _, _, _. split; [reflexivity|]. split; [reflexivity|].
  split; [reflexivity|]. split; [reflexivity|].
  unfold started_duel. cbn.
  replace (Game.duel_index g + 1 + 1) with (Z.succ (Game.duel_index g + 1))
    by lia.
  rewrite Z.even_succ, <- Z.negb_even.
  destruct (Z.even (Game.duel_index g + 1));
    repeat split; try reflexivity; discriminate.
Qed.

Lemma roles_alternate_witness :
  exists g1 g2 d1 d2,
    Game.to_next_duel 9 opening_game = Ok g1
    /\ Game.to_next_duel 9 g1 = Ok g2
    /\ Game.duel_ongoing g1 = Some d1
    /\ Game.duel_ongoing g2 = Some d2
    /\ Duel.offense d2 = Duel.defense d1
    /\ Duel.defense d2 = Duel.offense d1
    /\ Duel.defense d1 <> Duel.offense d1.
Proof.
  apply (roles_alternate 9 opening_game); simpl; lia.
Defined.

(** ** What a round of shouts does to the game *)

(** Nothing but the counters of DONE and DRAW and the recent actions has
    changed. *)
Definition same_board (g g' : Game.t) : Prop :=
  Game.duel_ongoing g' = Game.duel_ongoing g
  /\ Game._over g' = Game._over g
  /\ Game.winner g' = Game.winner g
  /\ Game.loser g' = Game.loser g
  /\ Game.result g' = Game.result g
  /\ forall c,
      decks (Game.player g' c) = decks (Game.player g c)
      /\ deck_in_duel (Game.player g' c) = deck_in_duel (Game.player g c)
      /\ points (Game.player g' c) = points (Game.player g c)
      /\ num_shout_die (Game.player g' c) = num_shout_die (Game.player g c).

(** The duel is over: both decks in duel are released, and the duel's
    winner, if it has one, has one point more than in [g]. *)
Definition duel_ended (g g' : Game.t) : Prop :=
  exists d',
    Game.duel_ongoing g' = Some d'
    /\ Duel._over d' = true
    /\ (forall c, deck_in_duel (Game.player g' c) = None)
    /\ forall c,
        points (Game.player g' c)
        = points (Game.player g c)
          + (match Duel.winner d' with
             | Some w => if Color_eqb w c then 1 else 0
             | None => 0
             end).

Lemma same_board_refl (g : Game.t) : same_board g g.
Proof. repeat split; reflexivity. Qed.

Lemma same_board_trans (g1 g2 g3 : Game.t) :
  same_board g1 g2 -> same_board g2 g3 -> same_board g1 g3.
Proof.
  intros (A1 & A2 & A3 & A4 & A5 & A6) (B1 & B2 & B3 & B4 & B5 & B6).
  repeat split; try congruence;
    destruct (A6 c) as (? & ? & ? & ?), (B6 c) as (? & ? & ? & ?);
    congruence.
Qed.

Lemma same_board_bump_done (g : Game.t) (c : Color) :
  same_board g (bump_done g c).
Proof. destruct g, c; repeat split; try reflexivity; destruct c; reflexivity. Qed.

Lemma same_board_bump_draw (g : Game.t) (c : Color) :
  same_board g (bump_draw g c).
Proof. destruct g, c; repeat split; try reflexivity; destruct c; reflexivity. Qed.

Lemma same_board_hear (shouts : list Shout) (g : Game.t) :
  same_board g (Game.hear shouts false false g).
Proof.
  destruct (hear_with_actions shouts false false g) as (ar & ab & ->).
  destruct g; repeat split; try reflexivity; destruct c; reflexivity.
Qed.

Lemma duel_ended_pre (g0 g g' : Game.t) :
  (forall c, points (Game.player g c) = points (Game.player g0 c)) ->
  duel_ended g g' -> duel_ended g0 g'.
Proof.
  intros Hp (d' & H1 & H2 & H3 & H4). exists d'.
  repeat split; try assumption. intros c. rewrite H4, Hp. reflexivity.
Qed.

Lemma duel_ended_end (g g' : Game.t) (res : GameResult.t)
      (w l : option Color) :
  duel_ended g g' -> duel_ended g (Game._end g' res w l).
Proof.
  intros (d' & H1 & H2 & H3 & H4). exists d'.
  destruct w, l; cbn; repeat split; try assumption;
    intros c; destruct c; first [apply H3 | apply H4].
Qed.

Lemma Duel_end_ended (K : Constants) (g g' : Game.t) (d : Duel.t)
      (s : DuelState.t) (w l : option Color) :
  Game.duel_ongoing g = Some d ->
  Duel.defense d <> Duel.offense d ->
  Game.Duel_end K g s w l = Ok g' ->
  duel_ended g g'.
Proof.
  intros Hd Hne. unfold Game.Duel_end, Game.duel. rewrite Hd. cbn [bind].
  cbv zeta. destruct (negb _); [discriminate|].
  destruct g as [[ir [kr|] ? ? ? ? ? ?] [ib [kb|] ? ? ? ? ? ?]
                   ov gw gl res di dopt].
  all: destruct d as [dix r dov dw dl ds o f]; cbn in Hd, Hne; subst dopt.
  all: unfold duel_ended, Game.award_point, Game.close_deck.
  all: destruct o, f; try congruence.
  all: destruct w as [[]|], l as [[]|]; cbn.
  all: try (destruct s; cbn; try discriminate).
  all: intros [= <-]; cbn.
  all: eexists; (split; [reflexivity|]); (split; [reflexivity|]).
  all: split; intros []; cbn; lia || reflexivity.
Qed.

Lemma duel_ended_same_board (g0 g g' : Game.t) :
  same_board g0 g -> duel_ended g g' -> duel_ended g0 g'.
Proof.
  intros (_ & _ & _ & _ & _ & H). apply duel_ended_pre.
  intros c. apply (H c).
Qed.

Lemma bump_die_frame (g : Game.t) (c : Color) :
  Game.duel_ongoing (bump_die g c) = Game.duel_ongoing g
  /\ forall c', points (Game.player (bump_die g c) c')
                = points (Game.player g c').
Proof. destruct g, c; split; try reflexivity; intros []; reflexivity. Qed.

Ltac unbind_in H :=
  match type of H with
  | bind ?m _ = Ok _ =>
      let E := fresh "E" in
      destruct m eqn:E; cbn [bind] in H; [|discriminate]
  end.

Ltac case_in H :=
  match type of H with
  | (if ?b then _ else _) = _ => destruct b eqn:?
  | match ?o with _ => _ end = _ => destruct o eqn:?
  end.

Section Outcome.
Variable K : Constants.
Variable d : Duel.t.
Hypothesis roles : Duel.defense d <> Duel.offense d.

Definition loop_outcome (g g' : Game.t) (reply : option Game.Reply) : Prop :=
  match reply with
  | Some (m, _) => duel_ended g g' /\ m <> MsgDoubleDare
  | None => same_board g g'
  end.

Lemma loop_outcome_same_board (g0 g g' : Game.t)
      (reply : option Game.Reply) :
  same_board g0 g -> loop_outcome g g' reply -> loop_outcome g0 g' reply.
Proof.
  destruct reply as [[m t]|]; cbn [loop_outcome].
  - intros Hs [He Hm]. split; [|exact Hm].
    eapply duel_ended_same_board; eassumption.
  - apply same_board_trans.
Qed.

Lemma done_loop_outcome (r : Z) (ps : list Color) :
  forall (g g' : Game.t) (reply : option Game.Reply),
    Game.duel_ongoing g = Some d ->
    Game.done_loop K r ps g = Ok (g', reply) ->
    loop_outcome g g' reply.
Proof.
  induction ps as [|c rest IH]; intros g g' reply Hd H;
    cbn [Game.done_loop] in H.
  - injection H as <- <-. apply same_board_refl.
  - unbind_in H. case_in H; [|exact (IH _ _ _ Hd H)].
    fold (bump_done g c) in H.
    pose proof (same_board_bump_done g c) as Hb.
    assert (Game.duel_ongoing (bump_done g c) = Some d) as Hd'
        by (rewrite (proj1 Hb); exact Hd).
    case_in H.
    + unbind_in H. injection H as <- <-. cbn [loop_outcome].
      split; [|discriminate]. apply duel_ended_end.
      eapply duel_ended_same_board; [exact Hb|].
      eapply Duel_end_ended; eassumption.
    + eapply loop_outcome_same_board; [exact Hb|].
      exact (IH _ _ _ Hd' H).
Qed.

Lemma die_loop_outcome (r : Z) (ps : list Color) :
  forall (g g' : Game.t) (reply : option Game.Reply),
    Game.duel_ongoing g = Some d ->
    Game.die_loop K r ps g = Ok (g', reply) ->
    loop_outcome g g' reply.
Proof.
  induction ps as [|c rest IH]; intros g g' reply Hd H;
    cbn [Game.die_loop] in H.
  - injection H as <- <-. apply same_board_refl.
  - unbind_in H. case_in H; [|exact (IH _ _ _ Hd H)].
    fold (bump_die g c) in H.
    destruct (bump_die_frame g c) as [Hd' Hp].
    unbind_in H. injection H as <- <-. cbn [loop_outcome].
    split; [|discriminate].
    eapply duel_ended_pre; [exact Hp|].
    eapply Duel_end_ended; [|exact roles|eassumption].
    rewrite Hd'. exact Hd.
Qed.

Lemma draw_loop_outcome (r : Z) (ps : list Color) :
  forall (g g' : Game.t) (reply : option Game.Reply),
    Game.duel_ongoing g = Some d ->
    Game.draw_loop K r ps g = Ok (g', reply) ->
    loop_outcome g g' reply.
Proof.
  induction ps as [|c rest IH]; intros g g' reply Hd H;
    cbn [Game.draw_loop] in H.
  - injection H as <- <-. apply same_board_refl.
  - unbind_in H. case_in H; [|exact (IH _ _ _ Hd H)].
    cbv zeta in H. fold (bump_draw g c) in H.
    pose proof (same_board_bump_draw g c) as Hb.
    assert (Game.duel_ongoing (bump_draw g c) = Some d) as Hd'
        by (rewrite (proj1 Hb); exact Hd).
    unbind_in H. unbind_in H. case_in H.
    + unbind_in H. unbind_in H.
      match goal with
      | E : Game.Duel_end _ _ _ _ _ = Ok ?x |- _ =>
          assert (duel_ended g x) as He
      end.
      { eapply duel_ended_same_board; [exact Hb|].
        eapply Duel_end_ended; eassumption. }
      case_in H; injection H as <- <-; cbn [loop_outcome];
        (split; [|discriminate]); [apply duel_ended_end|]; exact He.
    + eapply loop_outcome_same_board; [exact Hb|].
      exact (IH _ _ _ Hd' H).
Qed.

Lemma compare_sums_outcome (r : Z) (g g' : Game.t) (reply : Game.Reply) :
  Game.duel_ongoing g = Some d ->
  Game.compare_sums K r g = Ok (g', reply) ->
  (reply = (MsgDoubleDare, Duration.BEFORE_CARD_OPEN)
   /\ (r = 1 \/ r = 2) /\ g' = g)
  \/ (r = 3 /\ duel_ended g g' /\ fst reply <> MsgDoubleDare).
Proof.
  intros Hd H. unfold Game.compare_sums in H.
  destruct (Z.eqb_spec r 1) as [->|N1];
    [injection H as <- <-; left; repeat split; left; reflexivity|].
  destruct (Z.eqb_spec r 2) as [->|N2];
    [injection H as <- <-; left; repeat split; right; reflexivity|].
  cbn [orb] in H.
  destruct (Z.eqb_spec r 3) as [->|N3]; [|discriminate].
  right. split; [reflexivity|].
  unbind_in H. unbind_in H. unbind_in H. cbv zeta in H. unbind_in H.
  match type of H with
  | (let '(_, _) := ?p in _) = _ => destruct p as [g1 message]
  end.
  unbind_in H.
  assert (duel_ended g g1
          /\ forall e, message e <> MsgDoubleDare) as [He Hm].
  { destruct (_ >? _); [|destruct (_ <? _)];
      match goal with
      | E : bind _ _ = Ok _ |- _ => unbind_in E; injection E as <- <-
      end;
      (split; [eapply Duel_end_ended; eassumption | discriminate]). }
  case_in H; injection H as <- <-; cbn [fst];
    (split; [|apply Hm]); [apply duel_ended_end|]; exact He.
Qed.
End Outcome.

(** X13.  A round of shouts either is a double dare, at round counter 1
    or 2, after which the duel, the decks, the points and the die
    counters are as before; or it ends the duel: the duel is over, no
    player has a deck in duel any more, and the duel's winner, if there is
    one, has exactly one point more while the other player's points are
    unchanged. *)
Theorem shout_ends_or_continues (K : Constants) (g g' : Game.t)
        (shouts : list Shout) (d : Duel.t) (m : Message) (t : Duration.t) :
  Game.duel_ongoing g = Some d ->
  Duel.defense d <> Duel.offense d ->
  Game.process_shout K g shouts = Ok (g', (m, t)) ->
  (m = MsgDoubleDare /\ (Duel._round d = 1 \/ Duel._round d = 2)
   /\ same_board g g')
  \/ (m <> MsgDoubleDare /\ duel_ended g g').
Proof.
  intros Hd Hne H. unfold Game.process_shout, Game.duel in H.
  rewrite Hd in H. cbn [bind] in H. cbv zeta in H.
  pose proof (same_board_hear shouts g) as Hh.
  set (gh := Game.hear shouts false false g) in *.
  assert (Game.duel_ongoing gh = Some d) as Hdh
      by (rewrite (proj1 Hh); exact Hd).
  unbind_in H.
  match type of H with
  | match ?p with _ => _ end = _ => destruct p as [g1 [[m1 t1]|]]
  end.
  { injection H as <- <- <-.
    right. eapply (loop_outcome_same_board _ _ _ (Some (m1, t1))) in Hh;
      [|eapply done_loop_outcome; eassumption].
    destruct Hh as [He Hm]. split; assumption. }
  assert (same_board g g1) as H1.
  { eapply same_board_trans; [exact Hh|].
    eapply (done_loop_outcome K d Hne _ _ _ _ None); eassumption. }
  assert (Game.duel_ongoing g1 = Some d) as Hd1
      by (rewrite (proj1 H1); exact Hd).
  unbind_in H.
  match type of H with
  | match ?p with _ => _ end = _ => destruct p as [g2 [[m2 t2]|]]
  end.
  { injection H as <- <- <-.
    right. eapply (loop_outcome_same_board _ _ _ (Some (m2, t2))) in H1;
      [|eapply die_loop_outcome; eassumption].
    destruct H1 as [He Hm]. split; assumption. }
  assert (same_board g g2) as H2.
  { eapply same_board_trans; [exact H1|].
    eapply (die_loop_outcome K d Hne _ _ _ _ None); eassumption. }
  assert (Game.duel_ongoing g2 = Some d) as Hd2
      by (rewrite (proj1 H2); exact Hd).
  unbind_in H.
  match type of H with
  | match ?p with _ => _ end = _ => destruct p as [g3 [[m3 t3]|]]
  end.
  { injection H as <- <- <-.
    right. eapply (loop_outcome_same_board _ _ _ (Some (m3, t3))) in H2;
      [|eapply draw_loop_outcome; eassumption].
    destruct H2 as [He Hm]. split; assumption. }
  assert (same_board g g3) as H3.
  { eapply same_board_trans; [exact H2|].
    eapply (draw_loop_outcome K d Hne _ _ _ _ None); eassumption. }
  assert (Game.duel_ongoing g3 = Some d) as Hd3
      by (rewrite (proj1 H3); exact Hd).
  destruct (compare_sums_outcome K d Hne _ _ _ _ Hd3 H)
    as [([= -> ->] & Hr & ->)|(_ & He & Hm)].
  - left. repeat split; try assumption; apply H3.
  - right. split; [exact Hm|].
    eapply duel_ended_same_board; eassumption.
Qed.

(** The game a round of shouts leaves; the game itself if it raised. *)
Definition after_shouts (K : Constants) (g : Game.t) (shouts : list Shout)
  : Game.t :=
  match Game.process_shout K g shouts with
  | Ok (g', _) => g'
  | Raise _ => g
  end.

Lemma shout_ends_or_continues_witness :
  duel_ended late_game
    (after_shouts K0 late_game
                  [shout Red Action.DIE; shout Black Action.DARE]).
Proof.
  destruct (shout_ends_or_continues K0 late_game
              (after_shouts K0 late_game
                            [shout Red Action.DIE; shout Black Action.DARE])
              [shout Red Action.DIE; shout Black Action.DARE]
              (Duel.mk 6 2 false None None DuelState.ONGOING Red Black)
              (MsgDied Red) Duration.AFTER_DUEL_ENDS)
    as [(Hm & _)|(_ & He)].
  - reflexivity.
  - discriminate.
  - vm_compute. reflexivity.
  - discriminate Hm.
  - exact He.
Defined.

(** ** The mutations a round of shouts is made of *)

(** One mutation of the game, under the test that guards it in
    [process_shout]. *)
Inductive step (K : Constants) : Game.t -> Game.t -> Prop :=
| step_hear (g : Game.t) (c : Color) (a : option Action.t) :
    step K g (Game.with_player g c
                (Player_.with_recent_action (Game.player g c) a))
| step_done (g : Game.t) (c : Color) :
    step K g (bump_done g c)
| step_die (g : Game.t) (c : Color) :
    num_shout_die (Game.player g c) < MAX_DIE K ->
    step K g (bump_die g c)
| step_draw (g : Game.t) (c : Color) :
    num_shout_draw (Game.player g c) < MAX_DRAW K ->
    step K g (bump_draw g c)
| step_duel_end (g g' : Game.t) (s : DuelState.t) (w l : option Color) :
    Game.Duel_end K g s w l = Ok g' ->
    step K g g'
| step_game_end (g : Game.t) (res : GameResult.t) (w : Color) :
    step K g (Game._end g res (Some w) None).

Lemma valid_actions_caps (K : Constants) (p : Player) (r : Z)
      (va : list Action.t) :
  Player_.valid_actions K p r = Ok va ->
  (existsb (Action.eqb Action.DIE) va = true -> num_shout_die p < MAX_DIE K)
  /\ (existsb (Action.eqb Action.DRAW) va = true ->
      num_shout_draw p < MAX_DRAW K).
Proof.
  unfold Player_.valid_actions. cbv zeta.
  destruct (r =? 1); [|destruct (r =? 2); [|destruct (r =? 3)]];
    try discriminate;
    match goal with
    | |- context [?a <? ?b] => destruct (Z.ltb_spec a b)
    end;
    intros [= <-]; cbn; split; intros; first [assumption | discriminate].
Qed.

Section Steps.
Variable K : Constants.

Lemma hear_steps (shouts : list Shout) :
  forall (rh bh : bool) (g : Game.t),
    rtc (step K) g (Game.hear shouts rh bh g).
Proof.
  induction shouts as [|s rest IH]; intros rh bh g; cbn [Game.hear].
  - apply rtc_refl.
  - destruct (negb rh && Color_eqb (shout_player s) Red);
      [|destruct (negb bh && Color_eqb (shout_player s) Black)].
    + destruct (true && bh).
      * apply rtc_once. apply (step_hear K g Red).
      * eapply rtc_l; [apply (step_hear K g Red)|]. apply IH.
    + destruct (rh && true).
      * apply rtc_once. apply (step_hear K g Black).
      * eapply rtc_l; [apply (step_hear K g Black)|]. apply IH.
    + destruct (rh && bh); [apply rtc_refl | apply IH].
Qed.

Lemma done_loop_steps (r : Z) (ps : list Color) :
  forall (g g' : Game.t) (reply : option Game.Reply),
    Game.done_loop K r ps g = Ok (g', reply) -> rtc (step K) g g'.
Proof.
  induction ps as [|c rest IH]; intros g g' reply H;
    cbn [Game.done_loop] in H.
  - injection H as <- _. apply rtc_refl.
  - unbind_in H. case_in H; [|exact (IH _ _ _ H)].
    fold (bump_done g c) in H.
    eapply rtc_l; [apply step_done|].
    case_in H.
    + unbind_in H. injection H as <- _.
      eapply rtc_l; [eapply step_duel_end; eassumption|].
      apply rtc_once, step_game_end.
    + exact (IH _ _ _ H).
Qed.

Lemma die_loop_steps (r : Z) (ps : list Color) :
  forall (g g' : Game.t) (reply : option Game.Reply),
    Game.die_loop K r ps g = Ok (g', reply) -> rtc (step K) g g'.
Proof.
  induction ps as [|c rest IH]; intros g g' reply H;
    cbn [Game.die_loop] in H.
  - injection H as <- _. apply rtc_refl.
  - unbind_in H. case_in H; [|exact (IH _ _ _ H)].
    fold (bump_die g c) in H.
    match goal with
    | Hb : _ && _ = true |- _ => apply andb_prop in Hb as [Hv _]
    end.
    eapply rtc_l;
      [apply step_die; eapply valid_actions_caps; eassumption|].
    unbind_in H. injection H as <- _.
    apply rtc_once. eapply step_duel_end; eassumption.
Qed.

Lemma draw_loop_steps (r : Z) (ps : list Color) :
  forall (g g' : Game.t) (reply : option Game.Reply),
    Game.draw_loop K r ps g = Ok (g', reply) -> rtc (step K) g g'.
Proof.
  induction ps as [|c rest IH]; intros g g' reply H;
    cbn [Game.draw_loop] in H.
  - injection H as <- _. apply rtc_refl.
  - unbind_in H. case_in H; [|exact (IH _ _ _ H)].
    cbv zeta in H. fold (bump_draw g c) in H.
    match goal with
    | Hb : _ && _ = true |- _ => apply andb_prop in Hb as [Hv _]
    end.
    eapply rtc_l;
      [apply step_draw; eapply valid_actions_caps; eassumption|].
    unbind_in H. unbind_in H. case_in H; [|exact (IH _ _ _ H)].
    unbind_in H. unbind_in H.
    eapply rtc_l; [eapply step_duel_end; eassumption|].
    case_in H; injection H as <- _;
      [apply rtc_once, step_game_end | apply rtc_refl].
Qed.

Lemma compare_sums_steps (r : Z) (g g' : Game.t) (reply : Game.Reply) :
  Game.compare_sums K r g = Ok (g', reply) -> rtc (step K) g g'.
Proof.
  intros H. unfold Game.compare_sums in H.
  destruct ((r =? 1) || (r =? 2)); [injection H as <- _; apply rtc_refl|].
  destruct (r =? 3); [|discriminate].
  unbind_in H. unbind_in H. unbind_in H. cbv zeta in H. unbind_in H.
  match type of H with
  | (let '(_, _) := ?p in _) = _ => destruct p as [g1 message]
  end.
  unbind_in H.
  assert (step K g g1) as Hs.
  { destruct (_ >? _); [|destruct (_ <? _)];
      match goal with
      | E : bind _ _ = Ok _ |- _ => unbind_in E; injection E as <- _
      end;
      eapply step_duel_end; eassumption. }
  eapply rtc_l; [exact Hs|].
  case_in H; injection H as <- _;
    [apply rtc_once, step_game_end | apply rtc_refl].
Qed.

(** Whatever [process_shout] returns is reached by these mutations. *)
Lemma process_shout_steps (g g' : Game.t) (shouts : list Shout)
      (reply : Game.Reply) :
  Game.process_shout K g shouts = Ok (g', reply) -> rtc (step K) g g'.
Proof.
  unfold Game.process_shout. intros H. unbind_in H. cbv zeta in H.
  eapply rtc_trans; [apply (hear_steps shouts false false)|].
  unbind_in H.
  match type of H with
  | match ?p with _ => _ end = _ => destruct p as [g1 [r1|]]
  end.
  { injection H as <- _. eapply done_loop_steps; eassumption. }
  eapply rtc_trans; [eapply done_loop_steps; eassumption|].
  unbind_in H.
  match type of H with
  | match ?p with _ => _ end = _ => destruct p as [g2 [r2|]]
  end.
  { injection H as <- _. eapply die_loop_steps; eassumption. }
  eapply rtc_trans; [eapply die_loop_steps; eassumption|].
  unbind_in H.
  match type of H with
  | match ?p with _ => _ end = _ => destruct p as [g3 [r3|]]
  end.
  { injection H as <- _. eapply draw_loop_steps; eassumption. }
  eapply rtc_trans; [eapply draw_loop_steps; eassumption|].
  eapply compare_sums_steps; eassumption.
Qed.

(** A property every mutation keeps is kept by a round of shouts. *)
Lemma process_shout_invariant (P : Game.t -> Prop) :
  (forall g g', step K g g' -> P g -> P g') ->
  forall g g' shouts reply,
    Game.process_shout K g shouts = Ok (g', reply) -> P g -> P g'.
Proof.
  intros Hstep g g' shouts reply H.
  apply process_shout_steps in H.
  induction H as [|g1 g2 g3 H12 _ IH]; [auto|].
  intros HP. apply IH. eapply Hstep; eassumption.
Qed.
End Steps.

Lemma Duel_end_frame (K : Constants) (g g' : Game.t) (s : DuelState.t)
      (w l : option Color) :
  Game.Duel_end K g s w l = Ok g' ->
  Game._over g' = Game._over g
  /\ Game.winner g' = Game.winner g
  /\ Game.loser g' = Game.loser g
  /\ Game.result g' = Game.result g
  /\ forall c,
      num_shout_die (Game.player g' c) = num_shout_die (Game.player g c)
      /\ num_shout_done (Game.player g' c) = num_shout_done (Game.player g c)
      /\ num_shout_draw (Game.player g' c) = num_shout_draw (Game.player g c)
      /\ points (Game.player g c) <= points (Game.player g' c).
Proof.
  unfold Game.Duel_end, Game.duel.
  destruct (Game.duel_ongoing g) as [d|] eqn:Hd; [|discriminate].
  cbn [bind]. cbv zeta. destruct (negb _); [discriminate|].
  destruct g as [[ir [kr|] ? ? ? ? ? ?] [ib [kb|] ? ? ? ? ? ?]
                   ov gw gl res di dopt].
  all: destruct d as [dix r dov dw dl ds o f]; cbn in Hd; subst dopt.
  all: unfold Game.award_point, Game.close_deck.
  all: destruct o, f, w as [[]|], l as [[]|]; cbn.
  all: try (destruct s; cbn; try discriminate).
  all: intros [= <-]; cbn.
  all: repeat split; try reflexivity; try lia.
  all: destruct c; cbn; lia.
Qed.

(** What one mutation does to the counters and the points. *)
Lemma step_counters (K : Constants) (g g' : Game.t) :
  step K g g' ->
  forall c,
    (num_shout_die (Game.player g' c) = num_shout_die (Game.player g c)
     \/ (num_shout_die (Game.player g' c)
         = num_shout_die (Game.player g c) + 1
         /\ num_shout_die (Game.player g c) < MAX_DIE K))
    /\ (num_shout_draw (Game.player g' c) = num_shout_draw (Game.player g c)
        \/ (num_shout_draw (Game.player g' c)
            = num_shout_draw (Game.player g c) + 1
            /\ num_shout_draw (Game.player g c) < MAX_DRAW K))
    /\ num_shout_done (Game.player g c) <= num_shout_done (Game.player g' c)
    /\ points (Game.player g c) <= points (Game.player g' c).
Proof.
  intros H c'. destruct H as [g c a|g c|g c Hc|g c Hc|g g' s w l He|g res w].
  - destruct g, c, c'; cbn; repeat split;
      first [lia | left; reflexivity].
  - destruct g, c, c'; cbn; repeat split;
      first [lia | left; reflexivity].
  - destruct g, c, c'; cbn in *; repeat split;
      first [ lia | left; reflexivity
            | right; split; [reflexivity | exact Hc] ].
  - destruct g, c, c'; cbn in *; repeat split;
      first [ lia | left; reflexivity
            | right; split; [reflexivity | exact Hc] ].
  - destruct (Duel_end_frame K g g' s w l He) as (_ & _ & _ & _ & H).
    destruct (H c') as (-> & -> & -> & Hp).
    repeat split; first [lia | left; reflexivity].
  - destruct g, c'; cbn; repeat split; first [lia | left; reflexivity].
Qed.

(** X14.  A round of shouts never lowers a counter or a score, and never
    takes the die counter past [MAX_DIE] or the draw counter past
    [MAX_DRAW]. *)
Theorem shout_counters_capped (K : Constants) (g g' : Game.t)
        (shouts : list Shout) (reply : Game.Reply) :
  (forall c, num_shout_die (Game.player g c) <= MAX_DIE K) ->
  (forall c, num_shout_draw (Game.player g c) <= MAX_DRAW K) ->
  Game.process_shout K g shouts = Ok (g', reply) ->
  forall c,
    num_shout_die (Game.player g c) <= num_shout_die (Game.player g' c)
                                    <= MAX_DIE K
    /\ num_shout_draw (Game.player g c) <= num_shout_draw (Game.player g' c)
                                        <= MAX_DRAW K
    /\ num_shout_done (Game.player g c) <= num_shout_done (Game.player g' c)
    /\ points (Game.player g c) <= points (Game.player g' c).
Proof.
  intros Hdie Hdraw H.
  apply (process_shout_invariant K
           (fun x => forall c,
                num_shout_die (Game.player g c)
                <= num_shout_die (Game.player x c) <= MAX_DIE K
                /\ num_shout_draw (Game.player g c)
                   <= num_shout_draw (Game.player x c) <= MAX_DRAW K
                /\ num_shout_done (Game.player g c)
                   <= num_shout_done (Game.player x c)
                /\ points (Game.player g c) <= points (Game.player x c))
           ltac:(intros g1 g2 Hs HP c;
                 specialize (HP c);
                 pose proof (step_counters K g1 g2 Hs c); lia)
           g g' shouts reply H).
  intros c. specialize (Hdie c). specialize (Hdraw c). lia.
Qed.

Lemma shout_counters_capped_witness :
  num_shout_die (Game.player late_game Red)
  <= num_shout_die
       (Game.player (after_shouts K0 late_game
                       [shout Red Action.DIE; shout Black Action.DARE]) Red)
  <= MAX_DIE K0
  /\ num_shout_draw (Game.player late_game Red)
     <= num_shout_draw
          (Game.player (after_shouts K0 late_game
                          [shout Red Action.DIE; shout Black Action.DARE])
                       Red)
     <= MAX_DRAW K0
  /\ num_shout_done (Game.player late_game Red)
     <= num_shout_done
          (Game.player (after_shouts K0 late_game
                          [shout Red Action.DIE; shout Black Action.DARE])
                       Red)
  /\ points (Game.player late_game Red)
     <= points
          (Game.player (after_shouts K0 late_game
                          [shout Red Action.DIE; shout Black Action.DARE])
                       Red).
Proof.
  refine (shout_counters_capped K0 late_game _
            [shout Red Action.DIE; shout Black Action.DARE]
            (MsgDied Red, Duration.AFTER_DUEL_ENDS) _ _ _ Red).
  - intros []; simpl; lia.
  - intros []; simpl; lia.
  - vm_compute. reflexivity.
Defined.

(** The game is over with a winner, the other player as loser, and a
    result. *)
Definition settled (g : Game.t) : Prop :=
  exists w res,
    Game.winner g = Some w
    /\ Game.loser g = Some (other w)
    /\ Game.result g = Some res.

(** X15.  When a round of shouts ends a game that was not over, the game
    has a winner, the other player is its loser, and it has a result. *)
Theorem shout_settles_game (K : Constants) (g g' : Game.t)
        (shouts : list Shout) (reply : Game.Reply) :
  Game._over g = false ->
  Game.process_shout K g shouts = Ok (g', reply) ->
  Game._over g' = true ->
  settled g'.
Proof.
  intros Hover H.
  refine (process_shout_invariant K
            (fun x => Game._over x = true -> settled x)
            _ g g' shouts reply H _).
  2:{ rewrite Hover. discriminate. }
  intros g1 g2 Hs HP.
  destruct Hs as [g1 c a|g1 c|g1 c Hc|g1 c Hc|g1 g2 s w l He|g1 res w].
  1-4: destruct g1, c; exact HP.
  - destruct (Duel_end_frame K g1 g2 s w l He) as (E1 & E2 & E3 & E4 & _).
    unfold settled. rewrite E1, E2, E3, E4. exact HP.
  - intros _. exists w, res. destruct w; repeat split; reflexivity.
Qed.

Lemma shout_settles_game_witness :
  settled (after_shouts K0 late_game
                        [shout Red Action.DONE; shout Black Action.DARE]).
Proof.
  apply (shout_settles_game K0 late_game _
           [shout Red Action.DONE; shout Black Action.DARE]
           (MsgCorrectDone Red, Duration.AFTER_GAME_ENDS)).
  - reflexivity.
  - vm_compute. reflexivity.
  - reflexivity.
Defined.

(** *** Cards are only ever opened *)

(** The same card, open if it was open. *)
Definition card_kept (c c' : Card) : Prop :=
  _suit c' = _suit c /\ _colored c' = _colored c /\ _rank c' = _rank c
  /\ _value c' = _value c /\ (open_ c = true -> open_ c' = true).

(** The same deck, of the same cards, disclosed if it was disclosed. *)
Definition deck_kept (d d' : Deck) : Prop :=
  _index d' = _index d
  /\ Forall2 card_kept (_cards d) (_cards d')
  /\ (Deck_.is_undisclosed d = false -> Deck_.is_undisclosed d' = false).

Definition decks_kept (g g' : Game.t) : Prop :=
  forall c, Forall2 deck_kept (decks (Game.player g c))
                    (decks (Game.player g' c)).

Lemma card_kept_refl (c : Card) : card_kept c c.
Proof. repeat split; auto. Qed.

Lemma cards_kept_refl (l : list Card) : Forall2 card_kept l l.
Proof. induction l; constructor; [apply card_kept_refl | assumption]. Qed.

Lemma cards_kept_open (l : list Card) :
  Forall2 card_kept l (List.map open_up l).
Proof.
  induction l; constructor; [|assumption]. repeat split; reflexivity.
Qed.

Lemma deck_kept_refl (d : Deck) : deck_kept d d.
Proof. repeat split; [apply cards_kept_refl | auto]. Qed.

Lemma decks_list_kept_refl (l : list Deck) : Forall2 deck_kept l l.
Proof. induction l; constructor; [apply deck_kept_refl | assumption]. Qed.

Lemma card_kept_trans (a b c : Card) :
  card_kept a b -> card_kept b c -> card_kept a c.
Proof.
  intros (A1 & A2 & A3 & A4 & A5) (B1 & B2 & B3 & B4 & B5).
  repeat split; try congruence. auto.
Qed.

Lemma deck_kept_trans (a b c : Deck) :
  deck_kept a b -> deck_kept b c -> deck_kept a c.
Proof.
  intros (A1 & A2 & A3) (B1 & B2 & B3). repeat split.
  - congruence.
  - eapply Forall2_trans; [|exact A2|exact B2]. apply card_kept_trans.
  - auto.
Qed.

Lemma decks_kept_refl (g : Game.t) : decks_kept g g.
Proof. intros c. apply decks_list_kept_refl. Qed.

Lemma decks_kept_trans (g1 g2 g3 : Game.t) :
  decks_kept g1 g2 -> decks_kept g2 g3 -> decks_kept g1 g3.
Proof.
  intros H1 H2 c. eapply Forall2_trans; [|apply H1|apply H2].
  apply deck_kept_trans.
Qed.

Lemma close_deck_kept (p : Player) :
  Forall2 deck_kept (decks p) (decks (Game.close_deck p)).
Proof.
  unfold Game.close_deck. destruct (deck_in_duel p) as [k|];
    [|apply decks_list_kept_refl].
  cbn. apply Forall2_alter_r; [apply decks_list_kept_refl|].
  intros x y Hx Hy _. assert (x = y) as <- by congruence.
  repeat split. apply cards_kept_open.
Qed.

Lemma Duel_end_decks_kept (K : Constants) (g g' : Game.t) (s : DuelState.t)
      (w l : option Color) :
  Game.Duel_end K g s w l = Ok g' -> decks_kept g g'.
Proof.
  unfold Game.Duel_end, Game.duel.
  destruct (Game.duel_ongoing g) as [d|] eqn:Hd; [|discriminate].
  cbn [bind]. cbv zeta. destruct (negb _); [discriminate|].
  assert (forall g1 : Game.t,
             decks_kept g1
               (fold_left (fun g c => Game.with_player g c
                                        (Game.close_deck (Game.player g c)))
                          (Duel.players (Duel.ended d s w l)) g1))
    as Hclose.
  { intros g1. unfold Duel.players. cbn [fold_left].
    eapply decks_kept_trans; intros c.
    - instantiate (1 := Game.with_player g1 (Duel.offense (Duel.ended d s w l))
                          (Game.close_deck
                             (Game.player g1
                                (Duel.offense (Duel.ended d s w l))))).
      destruct g1, (Duel.offense (Duel.ended d s w l)), c; cbn;
        first [apply close_deck_kept | apply decks_list_kept_refl].
    - match goal with
      | |- Forall2 _ (decks (Game.player ?g2 _))
                   (decks (Game.player (Game.with_player _ ?f _) _)) =>
          destruct g2, f, c; cbn;
          first [apply close_deck_kept | apply decks_list_kept_refl]
      end. }
  assert (forall g1 c, decks_kept g1 (Game.award_point g1 c)) as Haward.
  { intros g1 c c'. destruct g1, c, c'; apply decks_list_kept_refl. }
  assert (forall d1, decks_kept g (Game.with_duel g d1)) as Hduel.
  { intros d1 c. destruct g, c; apply decks_list_kept_refl. }
  destruct w as [w|], l as [l|]; cbn [bind];
    try (destruct s; cbn [bind]; try discriminate);
    intros [= <-];
    (eapply decks_kept_trans; [|apply Hclose]);
    first [ apply Hduel
          | eapply decks_kept_trans; [apply Hduel | apply Haward] ].
Qed.

Lemma step_decks_kept (K : Constants) (g g' : Game.t) :
  step K g g' -> decks_kept g g'.
Proof.
  intros [g1 c a|g1 c|g1 c Hc|g1 c Hc|g1 g2 s w l He|g1 res w].
  1-4: intros c'; destruct g1, c, c'; apply decks_list_kept_refl.
  - eapply Duel_end_decks_kept. exact He.
  - intros c'. destruct g1, c'; apply decks_list_kept_refl.
Qed.

Lemma disclosed_values_kept (ds ds' : list Deck) (v : Z) :
  Forall2 deck_kept ds ds' ->
  In v (ComputerPlayer.disclosed_values ds) ->
  In v (ComputerPlayer.disclosed_values ds').
Proof.
  intros HF. rewrite !disclosed_values_In.
  intros (deck & card & Hd & Hu & Hc & Ho & Hv).
  apply list_elem_of_In, list_elem_of_lookup in Hd as [i Hi].
  destruct (Forall2_lookup_l _ _ _ _ _ HF Hi) as (deck' & Hi' & K1 & K2 & K3).
  apply list_elem_of_In, list_elem_of_lookup in Hc as [j Hj].
  destruct (Forall2_lookup_l _ _ _ _ _ K2 Hj)
    as (card' & Hj' & C1 & C2 & C3 & C4 & C5).
  exists deck', card'. repeat split.
  - apply list_elem_of_In. eapply list_elem_of_lookup_2. exact Hi'.
  - auto.
  - apply list_elem_of_In. eapply list_elem_of_lookup_2. exact Hj'.
  - auto.
  - congruence.
Qed.

(** X16.  A round of shouts keeps every deck in its slot with its index
    and its cards, which it may open but never closes or alters; a deck
    that was disclosed stays so.  Hence every value a player had disclosed
    is still disclosed afterwards. *)
Theorem shout_keeps_cards (K : Constants) (g g' : Game.t)
        (shouts : list Shout) (reply : Game.Reply) :
  Game.process_shout K g shouts = Ok (g', reply) ->
  decks_kept g g'
  /\ forall c v,
      In v (ComputerPlayer.disclosed_values (decks (Game.player g c))) ->
      In v (ComputerPlayer.disclosed_values (decks (Game.player g' c))).
Proof.
  intros H.
  assert (decks_kept g g') as Hk.
  { refine (process_shout_invariant K (fun x => decks_kept g x)
              _ g g' shouts reply H (decks_kept_refl g)).
    intros g1 g2 Hs HP. eapply decks_kept_trans; [exact HP|].
    eapply step_decks_kept. exact Hs. }
  split; [exact Hk|]. intros c v. apply disclosed_values_kept, Hk.
Qed.

Lemma shout_keeps_cards_witness :
  decks_kept late_game
    (after_shouts K0 late_game
                  [shout Red Action.DIE; shout Black Action.DARE]).
Proof.
  apply (shout_keeps_cards K0 late_game _
           [shout Red Action.DIE; shout Black Action.DARE]
           (MsgDied Red, Duration.AFTER_DUEL_ENDS)).
  vm_compute. reflexivity.
Defined.

(** ** The computer player's shout *)

Lemma fold_set_add_In (l acc : list Z) (v : Z) :
  In v (fold_left (fun vs w => ComputerPlayer.set_add w vs) l acc)
  <-> In v l \/ In v acc.
Proof.
  revert acc. induction l as [|x t IH]; intros acc; cbn [fold_left].
  - split; [intros H; right; exact H | intros [[]|H]; exact H].
  - rewrite IH, set_add_In. cbn [In]. intuition congruence.
Qed.

Lemma existsb_eqb_In (v : Z) (l : list Z) :
  existsb (Z.eqb v) l = true <-> In v l.
Proof.
  rewrite existsb_exists. split.
  - intros (x & Hx & E). apply Z.eqb_eq in E. subst. exact Hx.
  - intros H. exists v. split; [exact H | apply Z.eqb_refl].
Qed.

(** No value is undisclosed exactly when every rank value is disclosed. *)
Lemma undisclosed_values_nil (K : Constants) (ds : list Deck) :
  ComputerPlayer.undisclosed_values K ds = []
  <-> incl (Rank K) (ComputerPlayer.disclosed_values ds).
Proof.
  unfold ComputerPlayer.undisclosed_values. cbv zeta. split.
  - intros E v Hv.
    destruct (existsb (Z.eqb v) (ComputerPlayer.disclosed_values ds)) eqn:Ex;
      [apply existsb_eqb_In; exact Ex|].
    assert (In v (List.filter
                    (fun v => negb (existsb (Z.eqb v)
                                      (ComputerPlayer.disclosed_values ds)))
                    (fold_left (fun vs v => ComputerPlayer.set_add v vs)
                               (Rank K) []))) as Hin.
    { apply filter_In. split; [apply fold_set_add_In; left; exact Hv|].
      rewrite Ex. reflexivity. }
    rewrite E in Hin. destruct Hin.
  - intros Hincl.
    destruct (List.filter _ _) as [|v t] eqn:E; [reflexivity|].
    assert (In v (v :: t)) as Hin by (left; reflexivity).
    rewrite <- E in Hin. apply filter_In in Hin as [Hv Hn].
    apply fold_set_add_In in Hv as [Hv|[]].
    apply Hincl, existsb_eqb_In in Hv. rewrite Hv in Hn. discriminate.
Qed.

Section ComputerShout.
Variable K : Constants.
Variable randint : Z -> Z -> Z.
Variable float_add : Q -> Q -> Q.
Variable float_gt : Q -> Q -> bool.
Variable random_lt : Q -> bool.

(** The strategy answers DONE in its first branch only. *)
Lemma apply_done (round_ : Z) (in_turn : bool)
      (decks_me decks_opponent : list Deck) (num_shout_die_me : Z)
      (is_opponent_red : bool) :
  SimpleActionChoiceStrategy.apply K randint float_add float_gt random_lt
    round_ in_turn decks_me decks_opponent num_shout_die_me
    is_opponent_red = inl (Some Action.DONE)
  <-> ComputerPlayer.undisclosed_values K decks_me = [].
Proof.
  unfold SimpleActionChoiceStrategy.apply.
  destruct (ComputerPlayer.undisclosed_values K decks_me) as [|v t];
    [split; reflexivity|].
  split; [|discriminate]. intros H. exfalso.
  destruct ((round_ =? 1) || (round_ =? 2)).
  - destruct (get_chances _ _ _ _ _ _) as [[[w dr] l]|]; [|discriminate].
    cbv zeta in H.
    repeat match type of H with
           | (if ?b then _ else _) = _ => destruct b
           end; discriminate.
  - destruct (round_ =? 3); [|discriminate].
    destruct (py_next _ decks_me); [|discriminate].
    destruct (py_next _ decks_opponent); [|discriminate].
    cbv zeta in H. destruct (_ =? _); discriminate.
Qed.

(** X17.  The computer player shouts DONE exactly when it is done: for a
    player whose disclosed values are rank values, the strategy returns
    DONE, in any round and whatever the odds, if and only if [is_done]
    holds of the player. *)
Theorem computer_done_iff_is_done (round_ : Z) (in_turn : bool) (p : Player)
        (decks_opponent : list Deck) (is_opponent_red : bool) :
  List.NoDup (Rank K) ->
  incl (ComputerPlayer.disclosed_values (decks p)) (Rank K) ->
  SimpleActionChoiceStrategy.apply K randint float_add float_gt random_lt
    round_ in_turn (decks p) decks_opponent (num_shout_die p)
    is_opponent_red = inl (Some Action.DONE)
  <-> is_done K p = true.
Proof.
  intros Hnd Hincl.
  rewrite apply_done, undisclosed_values_nil.
  symmetry. apply is_done_all_ranks; assumption.
Qed.
End ComputerShout.

Lemma computer_done_iff_is_done_witness :
  SimpleActionChoiceStrategy.apply K0 (fun _ hi => hi) Qplus
    (fun a b => negb (Qle_bool a b)) (fun _ => true)
    2 true (decks (late_red 2)) (decks (late_black 2))
    (num_shout_die (late_red 2)) false
  = inl (Some Action.DONE)
  <-> is_done K0 (late_red 2) = true.
Proof.
  apply (computer_done_iff_is_done K0 (fun _ hi => hi) Qplus
           (fun a b => negb (Qle_bool a b)) (fun _ => true)
           2 true (late_red 2) (decks (late_black 2)) false).
  - repeat constructor; simpl; intuition lia.
  - vm_compute. tauto.
Defined.

(** X18.  In rounds 1 and 2 the computer player never shouts an action
    that is not valid for it: what the strategy returns, given the
    player's die counter, is one of the player's [valid_actions]. *)
Theorem computer_shout_is_valid (K : Constants) (randint : Z -> Z -> Z)
        (float_add : Q -> Q -> Q) (float_gt : Q -> Q -> bool)
        (random_lt : Q -> bool) (round_ : Z) (in_turn : bool) (p : Player)
        (decks_opponent : list Deck) (is_opponent_red : bool)
        (a : option Action.t) :
  round_ = 1 \/ round_ = 2 ->
  SimpleActionChoiceStrategy.apply K randint float_add float_gt random_lt
    round_ in_turn (decks p) decks_opponent (num_shout_die p)
    is_opponent_red = inl a ->
  exists action valid_actions,
    a = Some action
    /\ Player_.valid_actions K p round_ = Ok valid_actions
    /\ In action valid_actions.
Proof.
  intros Hr H. unfold SimpleActionChoiceStrategy.apply in H.
  assert (exists va, Player_.valid_actions K p round_ = Ok va
                     /\ In Action.DONE va /\ In Action.DARE va
                     /\ ((num_shout_die p <? MAX_DIE K) = true ->
                         In Action.DIE va)) as (va & Hva & Hdone & Hdare & Hdie).
  { unfold Player_.valid_actions.
    destruct Hr as [-> | ->]; cbn;
      destruct (num_shout_die p <? MAX_DIE K); eexists;
      (split; [reflexivity|]); cbn; intuition congruence. }
  destruct (ComputerPlayer.undisclosed_values K (decks p)) as [|v rest].
  { injection H as <-. exists Action.DONE, va. auto. }
  replace ((round_ =? 1) || (round_ =? 2)) with true in H
    by (destruct Hr as [-> | ->]; reflexivity).
  destruct (get_chances _ _ _ _ _ _) as [[[ow od] ol]|]; [|discriminate].
  cbv zeta in H.
  destruct (num_shout_die p <? MAX_DIE K) eqn:Ecap.
  - destruct (float_gt _ _); [destruct (random_lt _)|];
      injection H as <-; eexists _, va; auto.
  - injection H as <-. exists Action.DARE, va. auto.
Qed.

Lemma computer_shout_is_valid_witness :
  exists action valid_actions,
    Some Action.DONE = Some action
    /\ Player_.valid_actions K0 (late_red 2) 2 = Ok valid_actions
    /\ In action valid_actions.
Proof.
  apply (computer_shout_is_valid K0 (fun _ hi => hi) Qplus
           (fun a b => negb (Qle_bool a b)) (fun _ => true)
           2 true (late_red 2) (decks (late_black 2)) false).
  - right. reflexivity.
  - vm_compute. reflexivity.
Defined.

(** X19.  At round 3 a computer player that is not done shouts DRAW
    exactly when the duel is drawn, and does not shout otherwise: the
    first decks marked IN_DUEL being the decks the players have in duel,
    the strategy and [Duel.is_drawn] compare the same sums. *)
Theorem computer_draw_iff_drawn (K : Constants) (randint : Z -> Z -> Z)
        (float_add : Q -> Q -> Q) (float_gt : Q -> Q -> bool)
        (random_lt : Q -> bool) (g : Game.t) (d : Duel.t) (c : Color)
        (k : Color -> nat) (deck : Color -> Deck)
        (in_turn is_opponent_red : bool) :
  Duel.defense d <> Duel.offense d ->
  (forall x, deck_in_duel (Game.player g x) = Some (k x)) ->
  (forall x, decks (Game.player g x) !! k x = Some (deck x)) ->
  (forall x, py_next Deck_.is_in_duel (decks (Game.player g x))
             = Ok (deck x)) ->
  ComputerPlayer.undisclosed_values K (decks (Game.player g c)) <> [] ->
  exists drawn,
    Game.is_drawn g d = Ok drawn
    /\ SimpleActionChoiceStrategy.apply K randint float_add float_gt
         random_lt 3 in_turn (decks (Game.player g c))
         (decks (Game.player g (other c)))
         (num_shout_die (Game.player g c)) is_opponent_red
       = inl (if drawn then Some Action.DRAW else None).
Proof.
  intros Hne Hin Hdeck Hfirst Hund.
  exists (sum_values (_cards (deck (Duel.offense d)))
          =? sum_values (_cards (deck (Duel.defense d)))).
  split; [eapply is_drawn_committed; eauto|].
  unfold SimpleActionChoiceStrategy.apply.
  destruct (ComputerPlayer.undisclosed_values K _); [congruence|].
  cbn [Z.eqb orb Pos.eqb].
  rewrite !Hfirst. cbv zeta.
  destruct d as [? ? ? ? ? ? o f]; cbn in *.
  destruct o, f, c; try congruence; cbn [other];
    rewrite ?(Z.eqb_sym (sum_values (_cards (deck Black))));
    destruct (_ =? _); reflexivity.
Qed.

(** The first duel at its last round: Red's deck 8 meets Black's deck 0,
    all cards open. *)
Definition red_deck_in_duel : Deck :=
  mkDeck [red_card 2 13 true; red_card 2 12 true; red_joker 4 true]
         DeckState.IN_DUEL 8 (Some 0) None.

Definition black_deck_in_duel : Deck :=
  mkDeck [black_card 1 3 true; black_card 1 2 true; black_card 1 1 true]
         DeckState.IN_DUEL 0 (Some 8) None.

Definition first_duel_round3 : Game.t :=
  Game.mk
    (mkPlayer (Some 8) (Some 8%nat) 0 0 0 0
              (<[8%nat := red_deck_in_duel]> (decks opening_red))
              (Some Action.DARE))
    (mkPlayer (Some 0) (Some 0%nat) 0 0 0 0
              (<[0%nat := black_deck_in_duel]> (decks opening_black))
              (Some Action.DARE))
    false None None None 0
    (Some (Duel.mk 0 3 false None None DuelState.ONGOING Red Black)).

Lemma computer_draw_iff_drawn_witness :
  exists drawn,
    Game.is_drawn first_duel_round3
                  (Duel.mk 0 3 false None None DuelState.ONGOING Red Black)
    = Ok drawn
    /\ SimpleActionChoiceStrategy.apply K0 (fun _ hi => hi) Qplus
         (fun a b => negb (Qle_bool a b)) (fun _ => true) 3 true
         (decks (Game.player first_duel_round3 Red))
         (decks (Game.player first_duel_round3 (other Red)))
         (num_shout_die (Game.player first_duel_round3 Red)) false
       = inl (if drawn then Some Action.DRAW else None).
Proof.
  apply (computer_draw_iff_drawn K0 (fun _ hi => hi) Qplus
           (fun a b => negb (Qle_bool a b)) (fun _ => true)
           first_duel_round3
           (Duel.mk 0 3 false None None DuelState.ONGOING Red Black) Red
           (fun x => match x with Red => 8%nat | Black => 0%nat end)
           (fun x => match x with
                     | Red => red_deck_in_duel
                     | Black => black_deck_in_duel
                     end)
           true false).
  - discriminate.
  - intros []; reflexivity.
  - intros []; reflexivity.
  - intros []; reflexivity.
  - vm_compute. discriminate.
Defined.

(** X20.  [ComputerPlayer.shout] tells the odds calculator the right
    pile: with the roles [Duel.__init__] gives for a duel index, the flag
    [in_turn ^ (duel_index % 2 == 0)] is set exactly when the player's
    opponent is Red. *)
Theorem is_opponent_red_right (duel_index : Z) (c : Color) :
  SimpleActionChoiceStrategy.is_opponent_red
    (Color_eqb c (Duel.offense (Duel.init duel_index)))
    (Duel._index (Duel.init duel_index))
  = Color_eqb (other c) Red.
Proof.
  unfold SimpleActionChoiceStrategy.is_opponent_red, Duel.init. cbn.
  destruct (duel_index mod 2 =? 0), c; reflexivity.
Qed.

(** ** The piles *)

(** The cards of a pile: the joker of its colour, or a rank card of a
    suit of its parity, all face down. *)
Lemma pile_cards_In (K : Constants) (colored : bool) (c : Card) :
  In c (pile_cards K colored)
  <-> c = mkCard None colored JOKER 0 false
      \/ exists suit rank,
          In suit (Suit K) /\ suit mod 2 = (if colored then 0 else 1)
          /\ In rank (Rank K)
          /\ c = mkCard (Some suit) colored (RankNamed rank) rank false.
Proof.
  unfold pile_cards. cbv zeta. cbn [In]. split.
  - intros [<-|H]; [left; reflexivity|]. right.
    apply in_concat in H as (l & Hl & Hc).
    apply in_map_iff in Hl as (suit & <- & Hs).
    apply filter_In in Hs as [Hs Hp]. apply Z.eqb_eq in Hp.
    apply in_map_iff in Hc as (rank & <- & Hr).
    exists suit, rank. repeat split; assumption.
  - intros [->|(suit & rank & Hs & Hp & Hr & ->)]; [left; reflexivity|].
    right. apply in_concat. eexists. split.
    + apply in_map_iff. exists suit. split; [reflexivity|].
      apply filter_In. split; [exact Hs | apply Z.eqb_eq; exact Hp].
    + apply in_map_iff. exists rank. split; [reflexivity | exact Hr].
Qed.

Lemma pile_cards_length (K : Constants) (colored : bool) :
  length (pile_cards K colored)
  = S (length (List.filter
                 (fun suit => suit mod 2 =? (if colored then 0 else 1))
                 (Suit K))
       * length (Rank K)).
Proof.
  unfold pile_cards. cbv zeta. cbn [length]. f_equal.
  induction (List.filter _ (Suit K)) as [|s t IH]; [reflexivity|].
  cbn [List.map concat length]. rewrite length_app, length_map, IH.
  reflexivity.
Qed.

(** X21.  A pile holds the joker of its colour and one card for each
    rank in each suit of its parity (even suit values for the red pile,
    odd ones for the black pile), all face down; [__eq__] tells any two
    different cards of a pile apart, the pile holds one joker, and no
    card of the red pile equals a card of the black pile. *)
Theorem piles_spec (K : Constants) :
  (forall colored,
      length (pile_cards K colored)
      = S (length (List.filter
                     (fun suit => suit mod 2 =? (if colored then 0 else 1))
                     (Suit K))
           * length (Rank K))
      /\ told_apart (pile_cards K colored)
      /\ one_joker (pile_cards K colored)
      /\ forall c, In c (pile_cards K colored) ->
                   open_ c = false /\ _colored c = colored)
  /\ forall r b, In r (RedPile K) -> In b (BlackPile K) ->
                 Card_eq r b = false.
Proof.
  split.
  - intros colored. split; [apply pile_cards_length|]. split; [|split].
    + intros c1 c2 H1 H2 He.
      apply pile_cards_In in H1, H2.
      destruct H1 as [->|(s1 & r1 & _ & _ & _ & ->)],
               H2 as [->|(s2 & r2 & _ & _ & _ & ->)];
        try reflexivity; unfold Card_eq in He; cbn in He;
        try (rewrite ?andb_false_r in He; discriminate).
      apply andb_prop in He as [He Hr]. apply andb_prop in He as [Hs _].
      apply Z.eqb_eq in Hs, Hr. subst. reflexivity.
    + intros c1 c2 H1 H2 J1 J2.
      apply pile_cards_In in H1, H2.
      destruct H1 as [->|(s1 & r1 & _ & _ & _ & ->)],
               H2 as [->|(s2 & r2 & _ & _ & _ & ->)];
        try reflexivity; discriminate.
    + intros c Hc. apply pile_cards_In in Hc.
      destruct Hc as [->|(s & r & _ & _ & _ & ->)]; split; reflexivity.
  - intros r b Hr Hb. unfold RedPile, BlackPile in *.
    apply pile_cards_In in Hr, Hb.
    destruct Hr as [->|(s1 & r1 & _ & _ & _ & ->)],
             Hb as [->|(s2 & r2 & _ & _ & _ & ->)];
      unfold Card_eq; cbn; rewrite ?andb_false_r; reflexivity.
Qed.

(** ** The odds calculator: the opponent's hidden cards *)

Lemma Card_eq_sym (a b : Card) : Card_eq a b = Card_eq b a.
Proof.
  unfold Card_eq. f_equal; [f_equal|].
  - destruct (_suit a), (_suit b); cbn; try reflexivity. apply Z.eqb_sym.
  - destruct (_colored a), (_colored b); reflexivity.
  - destruct (_rank a), (_rank b); cbn; try reflexivity. apply Z.eqb_sym.
Qed.

Lemma Card_eq_trans (a b c : Card) :
  Card_eq a b = true -> Card_eq b c = true -> Card_eq a c = true.
Proof.
  unfold Card_eq. intros H1 H2.
  apply andb_prop in H1 as [H1 R1]. apply andb_prop in H1 as [S1 C1].
  apply andb_prop in H2 as [H2 R2]. apply andb_prop in H2 as [S2 C2].
  apply eqb_prop in C1, C2.
  destruct (_suit a), (_suit b), (_suit c); try discriminate;
    destruct (_rank a), (_rank b), (_rank c); try discriminate;
    cbn in *; rewrite C1, C2, eqb_reflx;
    repeat match goal with
           | H : (_ =? _) = true |- _ => apply Z.eqb_eq in H; subst
           end;
    rewrite ?Z.eqb_refl; reflexivity.
Qed.

(** No two cards of the list are equal for [__eq__]. *)
Fixpoint distinct (l : list Card) : Prop :=
  match l with
  | [] => True
  | c :: t => (forall x, In x t -> Card_eq x c = false) /\ distinct t
  end.

Lemma remove_card_In (c x : Card) (l : list Card) :
  In x (remove_card c l) -> In x l.
Proof.
  induction l as [|y t IH]; cbn; [auto|].
  destruct (Card_eq y c); cbn; intuition.
Qed.

Lemma remove_card_distinct (c : Card) (l : list Card) :
  distinct l -> distinct (remove_card c l).
Proof.
  induction l as [|y t IH]; cbn; [auto|]. intros [Hy Ht].
  destruct (Card_eq y c); [exact Ht|]. cbn. split; [|auto].
  intros x Hx. apply Hy. eapply remove_card_In. exact Hx.
Qed.

Lemma remove_card_gone (c : Card) (l : list Card) :
  distinct l -> forall x, In x (remove_card c l) -> Card_eq x c = false.
Proof.
  induction l as [|y t IH]; cbn; [intros _ x []|]. intros [Hy Ht] x Hx.
  destruct (Card_eq y c) eqn:E.
  - destruct (Card_eq x c) eqn:Ex; [|reflexivity].
    rewrite <- (Hy x Hx). symmetry.
    eapply Card_eq_trans; [exact Ex|]. rewrite Card_eq_sym. exact E.
  - destruct Hx as [<-|Hx]; [exact E | apply IH; assumption].
Qed.

Lemma fold_remove_cards (cards : list Card) :
  forall pile,
    distinct pile ->
    let pile' :=
      fold_left (fun pile card =>
                   if open_ card then remove_card card pile else pile)
                cards pile in
    distinct pile'
    /\ (forall x, In x pile' -> In x pile)
    /\ forall card, In card cards -> open_ card = true ->
                    forall x, In x pile' -> Card_eq x card = false.
Proof.
  induction cards as [|c t IH]; intros pile Hd; cbn [fold_left].
  - repeat split; auto. intros card [].
  - set (pile1 := if open_ c then remove_card c pile else pile).
    assert (distinct pile1) as Hd1
        by (unfold pile1; destruct (open_ c);
            [apply remove_card_distinct|]; exact Hd).
    assert (forall x, In x pile1 -> In x pile) as Hsub
        by (unfold pile1; destruct (open_ c); [|auto];
            intros x; apply remove_card_In).
    destruct (IH pile1 Hd1) as (I1 & I2 & I3).
    split; [exact I1|]. split; [intros x Hx; apply Hsub, I2, Hx|].
    intros card [<-|Hin] Ho x Hx.
    + apply I2 in Hx. unfold pile1 in Hx. rewrite Ho in Hx.
      eapply remove_card_gone; [exact Hd | exact Hx].
    + eapply I3; eassumption.
Qed.

Lemma fold_remove_decks (ds : list Deck) :
  forall pile,
    distinct pile ->
    let pile' :=
      fold_left
        (fun pile deck =>
           fold_left (fun pile card =>
                        if open_ card then remove_card card pile else pile)
                     (_cards deck) pile)
        ds pile in
    distinct pile'
    /\ (forall x, In x pile' -> In x pile)
    /\ forall deck card, In deck ds -> In card (_cards deck) ->
                         open_ card = true ->
                         forall x, In x pile' -> Card_eq x card = false.
Proof.
  induction ds as [|d t IH]; intros pile Hd; cbn [fold_left].
  - repeat split; auto. intros deck card [].
  - destruct (fold_remove_cards (_cards d) pile Hd) as (C1 & C2 & C3).
    cbv zeta in C1, C2, C3.
    destruct (IH _ C1) as (I1 & I2 & I3). cbv zeta in I1, I2, I3.
    split; [exact I1|]. split; [intros x Hx; apply C2, I2, Hx|].
    intros deck card [<-|Hin] Hc Ho x Hx.
    + eapply C3; [exact Hc | exact Ho | apply I2; exact Hx].
    + eapply I3; eassumption.
Qed.

Lemma distinct_of_NoDup (l : list Card) :
  List.NoDup l -> told_apart l -> distinct l.
Proof.
  induction 1 as [|c t Hnin Hnd IH]; intros Hta; cbn; [exact I|].
  split.
  - intros x Hx. destruct (Card_eq x c) eqn:E; [|reflexivity].
    exfalso. apply Hnin.
    rewrite <- (Hta x c (or_intror Hx) (or_introl eq_refl) E). exact Hx.
  - apply IH. intros c1 c2 H1 H2. apply Hta; right; assumption.
Qed.

Lemma distinct_open_up (l : list Card) :
  distinct l -> distinct (List.map open_up l).
Proof.
  induction l as [|c t IH]; cbn; [auto|]. intros [Hc Ht]. split; [|auto].
  intros x Hx. apply in_map_iff in Hx as (y & <- & Hy).
  specialize (Hc y Hy). destruct y, c; exact Hc.
Qed.

Lemma pile_cards_NoDup (K : Constants) (colored : bool) :
  List.NoDup (Rank K) -> List.NoDup (Suit K) ->
  List.NoDup (pile_cards K colored).
Proof.
  intros HR HS. unfold pile_cards. cbv zeta. constructor.
  - intros H. apply in_concat in H as (l & Hl & Hc).
    apply in_map_iff in Hl as (suit & <- & _).
    apply in_map_iff in Hc as (rank & Hc & _). discriminate.
  - assert (List.NoDup
              (List.filter
                 (fun suit => suit mod 2 =? (if colored then 0 else 1))
                 (Suit K))) as Hs by (apply List.NoDup_filter; exact HS).
    induction Hs as [|s t Hnin Hnd IH]; cbn [List.map concat];
      [constructor|].
    apply NoDup_ListNoDup, NoDup_app. split; [|split].
    + apply NoDup_ListNoDup, NoDup_map_NoDup_ForallPairs; [|exact HR].
      intros a b _ _ [= ->]. reflexivity.
    + intros c Hc Hc'. apply list_elem_of_In in Hc, Hc'.
      apply in_map_iff in Hc as (rank & <- & _).
      apply in_concat in Hc' as (l & Hl & Hc').
      apply in_map_iff in Hl as (suit & <- & Hsuit).
      apply in_map_iff in Hc' as (rank' & [= -> _] & _).
      contradiction.
    + apply NoDup_ListNoDup, IH.
Qed.

(** X22.  The opponent's candidate cards never include a card that lies
    open in one of the opponent's decks: with ranks and suits listed
    once, no card of [hidden_cards_opponent] equals, for [__eq__], an open
    card of those decks. *)
Theorem hidden_cards_opponent_unseen (K : Constants)
        (decks_opponent : list Deck) (is_opponent_red : bool)
        (delegate_value_opponent : Z) (deck : Deck) (card hidden : Card) :
  List.NoDup (Rank K) -> List.NoDup (Suit K) ->
  In deck decks_opponent -> In card (_cards deck) -> open_ card = true ->
  In hidden (hidden_cards_opponent K decks_opponent is_opponent_red
                                   delegate_value_opponent) ->
  Card_eq hidden card = false.
Proof.
  intros HR HS Hdeck Hcard Hopen Hh.
  unfold hidden_cards_opponent in Hh. cbv zeta in Hh.
  apply filter_In in Hh as [Hh _].
  assert (distinct
            (UnopenedPile
               (if is_opponent_red then RedPile K else BlackPile K)))
    as Hd.
  { apply distinct_open_up, distinct_of_NoDup;
      destruct is_opponent_red; unfold RedPile, BlackPile;
      first [ apply pile_cards_NoDup; assumption
            | apply (proj1 (piles_spec K)) ]. }
  destruct (fold_remove_decks decks_opponent _ Hd) as (_ & _ & H).
  eapply H; eassumption.
Qed.

Lemma hidden_cards_opponent_unseen_witness :
  Card_eq (open_up (red_card 2 12 false)) (red_card 2 13 true) = false.
Proof.
  apply (hidden_cards_opponent_unseen K0 (decks opening_red) true 13
           (undisclosed_deck 8 (red_card 2 13 false) (red_card 2 12 false)
                             (red_joker 4 false))
           (red_card 2 13 true) (open_up (red_card 2 12 false))).
  - repeat constructor; simpl; intuition lia.
  - repeat constructor; simpl; intuition lia.
  - vm_compute. tauto.
  - left. reflexivity.
  - reflexivity.
  - vm_compute. tauto.
Defined.

(** ** The odds calculator: the odds are probabilities *)








(** ** Building the decks *)

(** Every deck sits in the slot its index names. *)
Definition well_indexed (ds : list Deck) : Prop :=
  forall i deck, ds !! i = Some deck -> _index deck = Z.of_nat i.

(** The keys ascend along the list. *)
Fixpoint ascending (l : list (Z * list Card)) : Prop :=
  match l with
  | [] => True
  | x :: t => (forall y, In y t -> fst x <= fst y) /\ ascending t
  end.

Lemma insert_sorted_In (x y : Z * list Card) (l : list (Z * list Card)) :
  In y (insert_sorted x l) <-> y = x \/ In y l.
Proof.
  induction l as [|z t IH]; cbn; [intuition|].
  destruct (fst x <? fst z); cbn; [intuition|].
  rewrite IH. intuition.
Qed.

Lemma insert_sorted_ascending (x : Z * list Card)
      (l : list (Z * list Card)) :
  ascending l -> ascending (insert_sorted x l).
Proof.
  induction l as [|z t IH]; cbn; [intuition|]. intros [Hz Ht].
  destruct (Z.ltb_spec (fst x) (fst z)) as [Hlt|Hge]; cbn.
  - split; [|split; assumption].
    intros y [<-|Hy]; [lia|]. specialize (Hz y Hy). lia.
  - split; [|apply IH; exact Ht].
    intros y Hy. apply insert_sorted_In in Hy as [->|Hy]; [lia|auto].
Qed.

Lemma insert_sorted_length (x : Z * list Card) (l : list (Z * list Card)) :
  length (insert_sorted x l) = S (length l).
Proof.
  induction l as [|z t IH]; cbn; [reflexivity|].
  destruct (fst x <? fst z); cbn; [reflexivity|]. rewrite IH. reflexivity.
Qed.

Lemma stable_sort_spec (l : list (Z * list Card)) :
  ascending (stable_sort l)
  /\ length (stable_sort l) = length l
  /\ forall y, In y (stable_sort l) <-> In y l.
Proof.
  unfold stable_sort.
  assert (forall acc,
             ascending acc ->
             ascending (fold_left (fun sorted x => insert_sorted x sorted)
                                  l acc)
             /\ length (fold_left (fun sorted x => insert_sorted x sorted)
                                  l acc)
                = (length l + length acc)%nat
             /\ forall y,
                 In y (fold_left (fun sorted x => insert_sorted x sorted)
                                 l acc)
                 <-> In y l \/ In y acc) as H.
  { induction l as [|x t IH]; intros acc Hacc; cbn [fold_left].
    - repeat split; auto; cbn; intuition.
    - destruct (IH _ (insert_sorted_ascending x acc Hacc)) as (I1 & I2 & I3).
      split; [exact I1|]. split.
      + rewrite I2, insert_sorted_length. cbn. lia.
      + intros y. rewrite I3, insert_sorted_In. cbn. intuition. }
  destruct (H [] I) as (H1 & H2 & H3).
  split; [exact H1|]. split; [rewrite H2; cbn; lia|].
  intros y. rewrite H3. cbn. intuition.
Qed.

Lemma ascending_lookup (l : list (Z * list Card)) :
  ascending l ->
  forall i j a b, (i <= j)%nat -> l !! i = Some a -> l !! j = Some b ->
                  fst a <= fst b.
Proof.
  induction l as [|x t IH]; intros Hs i j a b Hij Ha Hb; [discriminate|].
  destruct Hs as [Hx Ht]. destruct i as [|i], j as [|j]; cbn in Ha, Hb.
  - injection Ha as <-. injection Hb as <-. lia.
  - injection Ha as <-. apply Hx, list_elem_of_In.
    eapply list_elem_of_lookup_2. exact Hb.
  - lia.
  - eapply (IH Ht i j); [lia | eassumption | eassumption].
Qed.

Section BuildDecksFacts.
Variable DECK_PER_PILE CARD_PER_DECK : Z.
Variable shuffle : list Card -> list Card.
Variable joker_value_strategy : list Card -> exc (list Card).
Variable joker_position_strategy : list Card -> exc (list Card).

Lemma deal_decks_length (n : nat) :
  forall stack acc l,
    deal_decks CARD_PER_DECK joker_value_strategy joker_position_strategy
               n stack acc = Ok l ->
    length l = (length acc + n)%nat.
Proof.
  induction n as [|n IH]; intros stack acc l H; cbn [deal_decks] in H.
  - injection H as <-. lia.
  - unbind_in H.
    match type of H with
    | (let '(_, _) := ?p in _) = _ => destruct p as [stack' cards]
    end.
    unbind_in H. unbind_in H. apply IH in H. rewrite H, length_app. cbn. lia.
Qed.

Lemma delegate_keys_spec (l : list (list Card)) :
  forall keyed,
    delegate_keys l = Ok keyed ->
    length keyed = length l
    /\ forall key cards, In (key, cards) keyed ->
                         exists delegate,
                           cards !! 0%nat = Some delegate
                           /\ _value delegate = key.
Proof.
  induction l as [|cards t IH]; intros keyed H; cbn [delegate_keys] in H.
  - injection H as <-. split; [reflexivity | intros ? ? []].
  - unbind_in H. unbind_in H. injection H as <-.
    destruct (IH _ eq_refl) as [I1 I2]. split; [cbn; rewrite I1; reflexivity|].
    intros key cards' [[= <- <-]|Hin]; [|eapply I2; exact Hin].
    unfold py_get in E. destruct (py_index cards 0) eqn:Ei; [|discriminate].
    cbn [bind] in E. unfold py_index in Ei. cbv zeta in Ei.
    destruct cards as [|c rest]; [discriminate|].
    cbn in Ei. injection Ei as <-. cbn in E. injection E as <-.
    exists c. split; reflexivity.
Qed.

Lemma index_decks_spec (l : list (list Card)) :
  forall index ds,
    index_decks index l = Ok ds ->
    length ds = length l
    /\ forall i deck,
        ds !! i = Some deck ->
        exists cards delegate,
          l !! i = Some cards /\ cards !! 0%nat = Some delegate
          /\ deck = mkDeck (<[0%nat := open_up delegate]> cards)
                           DeckState.UNDISCLOSED (index + Z.of_nat i)
                           None None.
Proof.
  induction l as [|cards t IH]; intros index ds H; cbn [index_decks] in H.
  - injection H as <-. split; [reflexivity | intros ? ? [=]].
  - cbv zeta in H. cbn [_cards] in H. unbind_in H. unbind_in H.
    injection H as <-.
    destruct (IH _ _ E0) as [I1 I2]. split; [cbn; rewrite I1; reflexivity|].
    intros i deck Hi. destruct i as [|i]; cbn in Hi.
    + injection Hi as <-. exists cards, a. split; [reflexivity|].
      unfold py_get in E. destruct cards as [|c rest]; [discriminate|].
      cbn in E. injection E as <-. split; [reflexivity|].
      replace (index + Z.of_nat 0) with index by lia. reflexivity.
    + destruct (I2 i deck Hi) as (cards' & delegate & H1 & H2 & ->).
      exists cards', delegate. repeat split; try assumption.
      replace (index + 1 + Z.of_nat i) with (index + Z.of_nat (S i)) by lia.
      reflexivity.
Qed.

(** X24.  When [build_decks] returns, it returns [DECK_PER_PILE] decks;
    the deck in slot [i] has index [i], is UNDISCLOSED, has met no
    opponent and has no card to open yet, and its delegate, the card in
    slot 0, lies open; the delegates' values ascend with the slots. *)
Theorem build_decks_spec (pile : list Card) (ds : list Deck) :
  build_decks DECK_PER_PILE CARD_PER_DECK shuffle joker_value_strategy
              joker_position_strategy pile = Ok ds ->
  length ds = Z.to_nat DECK_PER_PILE
  /\ well_indexed ds
  /\ (forall i deck,
         ds !! i = Some deck ->
         _state deck = DeckState.UNDISCLOSED
         /\ _opponent_deck_index deck = None
         /\ card_to_open_index deck = None
         /\ exists delegate, _cards deck !! 0%nat = Some delegate
                             /\ open_ delegate = true)
  /\ forall i j deck_i deck_j,
      (i <= j)%nat -> ds !! i = Some deck_i -> ds !! j = Some deck_j ->
      exists value_i value_j,
        Deck_.delegate_value deck_i = Ok value_i
        /\ Deck_.delegate_value deck_j = Ok value_j
        /\ value_i <= value_j.
Proof.
  unfold build_decks. cbv zeta. intros H. unbind_in H. unbind_in H.
  rename a into dealt, a0 into keyed.
  apply deal_decks_length in E. cbn in E.
  destruct (delegate_keys_spec _ _ E0) as [K1 K2].
  destruct (stable_sort_spec keyed) as (S1 & S2 & S3).
  destruct (index_decks_spec _ _ _ H) as [D1 D2].
  rewrite length_map in D1.
  assert (forall i deck,
             ds !! i = Some deck ->
             exists key cards delegate,
               stable_sort keyed !! i = Some (key, cards)
               /\ cards !! 0%nat = Some delegate
               /\ _value delegate = key
               /\ deck = mkDeck (<[0%nat := open_up delegate]> cards)
                                DeckState.UNDISCLOSED (Z.of_nat i)
                                None None) as Hdeck.
  { intros i deck Hi.
    destruct (D2 i deck Hi) as (cards & delegate & L1 & L2 & ->).
    change (List.map ?f ?l) with (f <$> l) in L1.
    rewrite list_lookup_fmap in L1.
    destruct (stable_sort keyed !! i) as [[key cards']|] eqn:Es;
      [|discriminate].
    cbn in L1. injection L1 as ->.
    assert (In (key, cards) keyed) as Hin
        by (apply S3, list_elem_of_In; eapply list_elem_of_lookup_2;
            exact Es).
    destruct (K2 _ _ Hin) as (delegate' & L2' & Hv).
    assert (delegate' = delegate) as -> by congruence.
    exists key, cards, delegate. repeat split; try assumption. }
  split; [lia|]. split; [|split].
  - intros i deck Hi.
    destruct (Hdeck i deck Hi) as (key & cards & delegate & _ & _ & _ & ->).
    reflexivity.
  - intros i deck Hi.
    destruct (Hdeck i deck Hi) as (key & cards & delegate & _ & L & _ & ->).
    repeat split. exists (open_up delegate). split; [|reflexivity].
    cbn. destruct cards; [discriminate | reflexivity].
  - intros i j deck_i deck_j Hij Hi Hj.
    destruct (Hdeck i deck_i Hi) as (ki & ci & di & Si & Li & Vi & ->).
    destruct (Hdeck j deck_j Hj) as (kj & cj & dj & Sj & Lj & Vj & ->).
    exists ki, kj.
    pose proof (ascending_lookup _ S1 i j _ _ Hij Si Sj) as Hle.
    unfold Deck_.delegate_value, py_get. cbn [_cards].
    destruct ci as [|c1 r1]; [discriminate|].
    destruct cj as [|c2 r2]; [discriminate|].
    cbn in Li, Lj. injection Li as <-. injection Lj as <-.
    cbn. subst. repeat split. exact Hle.
Qed.
End BuildDecksFacts.

(** The decks a player builds from the red pile, left as it is, with the
    strategies [Thirteen] and [JokerAnywhere]; none if it raised. *)
Definition sample_built_decks : list Deck :=
  match build_decks 9 3 (fun pile => pile) (Thirteen.apply K0)
                    JokerAnywhere.apply (RedPile K0) with
  | Ok ds => ds
  | Raise _ => []
  end.

Lemma build_decks_spec_witness :
  length sample_built_decks = 9%nat /\ well_indexed sample_built_decks.
Proof.
  destruct (build_decks_spec 9 3 (fun pile => pile) (Thirteen.apply K0)
              JokerAnywhere.apply (RedPile K0) sample_built_decks)
    as (H1 & H2 & _).
  - vm_compute. reflexivity.
  - split; [exact H1 | exact H2].
Defined.

(** ** The computer's deck choice is accepted *)

Lemma well_indexed_In (ds : list Deck) (deck : Deck) :
  well_indexed ds -> In deck ds ->
  exists k, ds !! k = Some deck /\ _index deck = Z.of_nat k.
Proof.
  intros Hw Hin. apply list_elem_of_In, list_elem_of_lookup in Hin as [k Hk].
  exists k. split; [exact Hk | apply Hw; exact Hk].
Qed.

(** X25.  The deck [BiggestOffenseDeck] picks among the offense's decks,
    each sitting in the slot its index names, is accepted when its index
    is given to [process_offense_deck_index_input]: that very deck is sent
    to the duel, and [_deck_in_duel_index] names its slot. *)
Theorem biggest_offense_deck_accepted (g : Game.t) (d : Duel.t) :
  Game.duel_ongoing g = Some d ->
  well_indexed (decks (Game.player g (Duel.offense d))) ->
  existsb Deck_.is_undisclosed (decks (Game.player g (Duel.offense d)))
  = true ->
  exists deck k g',
    BiggestOffenseDeck.apply (decks (Game.player g (Duel.offense d)))
    = Ok deck
    /\ Game.process_offense_deck_index_input g (_index deck)
       = Ok (g', (MsgOffenseDeckChosen (_index deck + 1),
                  Duration.AFTER_DECK_CHOICE))
    /\ deck_in_duel (Game.player g' (Duel.offense d)) = Some k
    /\ _deck_in_duel_index (Game.player g' (Duel.offense d))
       = Some (Z.of_nat k)
    /\ decks (Game.player g' (Duel.offense d)) !! k
       = Some (mkDeck (_cards deck) DeckState.IN_DUEL (_index deck)
                      (_opponent_deck_index deck) (card_to_open_index deck)).
Proof.
  intros Hd Hw Hex.
  destruct (biggest_offense_deck_spec (decks (Game.player g (Duel.offense d))))
    as [[_ Hnone]|(deck & Happly & Hin & Hund & _)].
  { apply existsb_exists in Hex as (x & Hx & Hu).
    rewrite (Hnone x Hx) in Hu. discriminate. }
  destruct (well_indexed_In _ _ Hw Hin) as (k & Hk & Hix).
  exists deck, k. eexists. split; [exact Happly|].
  unfold Game.process_offense_deck_index_input, Game.duel.
  rewrite Hd. cbn [bind]. cbv zeta.
  rewrite Hix, (py_index_nat _ _ (lookup_lt_Some _ _ _ Hk)). cbn [bind].
  rewrite Hk, Hund. split; [reflexivity|].
  unfold Game.Duel_summon_offense, Player_.send_to_duel, Deck_.enter_duel.
  pose proof (lookup_lt_Some _ _ _ Hk) as Hlt.
  destruct g as [pr pb ? ? ? ? ? ?], d as [? ? ? ? ? ? [] ?]; cbn in *;
    rewrite Hix, list_lookup_insert_eq by exact Hlt;
    repeat split; reflexivity.
Qed.

Lemma biggest_offense_deck_accepted_witness :
  exists deck k g',
    BiggestOffenseDeck.apply (decks (Game.player first_duel_game Red))
    = Ok deck
    /\ Game.process_offense_deck_index_input first_duel_game (_index deck)
       = Ok (g', (MsgOffenseDeckChosen (_index deck + 1),
                  Duration.AFTER_DECK_CHOICE))
    /\ deck_in_duel (Game.player g' Red) = Some k
    /\ _deck_in_duel_index (Game.player g' Red) = Some (Z.of_nat k)
    /\ decks (Game.player g' Red) !! k
       = Some (mkDeck (_cards deck) DeckState.IN_DUEL (_index deck)
                      (_opponent_deck_index deck) (card_to_open_index deck)).
Proof.
  apply (biggest_offense_deck_accepted first_duel_game first_duel).
  - reflexivity.
  - intros i deck Hi.
    do 9 (destruct i as [|i]; [injection Hi as <-; reflexivity|]).
    discriminate Hi.
  - reflexivity.
Defined.

(** ** Shouts by key presses *)

Section KeypressFacts.
Variable K : Constants.
Variable key_settings : Color -> list (Action.t * ascii).

(** The key is bound, for the player [c], to an action among [valid]. *)
Definition key_counts (valid : list Action.t) (c : Color)
           (key_pressed : ascii) : bool :=
  match key_to_action key_settings c key_pressed with
  | Some action => existsb (Action.eqb action) valid
  | None => false
  end.

Lemma key_shouts_spec (g : Game.t) (round_ : Z) (key_pressed : ascii)
      (c : Color) (valid : list Action.t) :
  Player_.valid_actions K (Game.player g c) round_ = Ok valid ->
  key_shouts K key_settings g round_ key_pressed c
  = Ok (if key_counts valid c key_pressed
        then [mkShout c (key_to_action key_settings c key_pressed)]
        else []).
Proof.
  intros Hv. unfold key_shouts, key_counts. rewrite Hv. cbn [bind].
  destruct (key_to_action key_settings c key_pressed); [|reflexivity].
  destruct (existsb _ _); reflexivity.
Qed.

(** X26.  From the keys pressed, each player is left with the action of
    the first key that is bound, in that player's settings, to one of the
    player's valid actions; keys bound to nothing valid are passed over,
    and a player none of whose keys counts keeps the action of the round
    before. *)
Theorem first_counting_key_decides (g : Game.t) (round_ : Z)
        (keys_pressed : list ascii) (valid : Color -> list Action.t) :
  (forall c, Player_.valid_actions K (Game.player g c) round_
             = Ok (valid c)) ->
  exists shouts,
    keypress_shouts K key_settings g round_ keys_pressed = Ok shouts
    /\ forall c,
        resolved shouts g c
        = match List.find (key_counts (valid c) c) keys_pressed with
          | Some key_pressed => key_to_action key_settings c key_pressed
          | None => recent_action (Game.player g c)
          end.
Proof.
  intros Hv.
  assert (exists shouts,
             keypress_shouts K key_settings g round_ keys_pressed = Ok shouts
             /\ forall c,
                 List.find (fun s => Color_eqb (shout_player s) c) shouts
                 = match List.find (key_counts (valid c) c) keys_pressed with
                   | Some key_pressed =>
                       Some (mkShout c (key_to_action key_settings c
                                                      key_pressed))
                   | None => None
                   end) as (shouts & Hs & Hfind).
  { induction keys_pressed as [|key rest IH]; cbn [keypress_shouts].
    - exists []. split; [reflexivity|]. intros c. reflexivity.
    - destruct IH as (more & -> & Hmore).
      rewrite !(key_shouts_spec _ _ _ _ _ (Hv _)). cbn [bind].
      eexists. split; [reflexivity|].
      intros c. cbn [List.find]. specialize (Hmore c).
      destruct c;
        destruct (key_counts (valid Red) Red key),
                 (key_counts (valid Black) Black key);
        cbn; exact Hmore || reflexivity. }
  exists shouts. split; [exact Hs|].
  intros c. unfold resolved. rewrite hear_first_shout, Hfind.
  destruct (List.find _ keys_pressed); reflexivity.
Qed.
End KeypressFacts.

(** The settings [bottom_left()] and [top_right()] that [take_pile] gives
    the red and the black player. *)
Definition default_key_settings (c : Color) : list (Action.t * ascii) :=
  match c with
  | Red => [(Action.IDLE, "b"); (Action.DARE, "z"); (Action.DIE, "x");
            (Action.DONE, "c"); (Action.DRAW, "v")]
  | Black => [(Action.IDLE, "y"); (Action.DARE, "u"); (Action.DIE, "i");
              (Action.DONE, "o"); (Action.DRAW, "p")]
  end%char.

Lemma first_counting_key_decides_witness :
  exists shouts,
    keypress_shouts K0 default_key_settings late_game 2
                    ["v"; "u"; "x"; "z"]%char = Ok shouts
    /\ resolved shouts late_game Red = Some Action.DIE
    /\ resolved shouts late_game Black = Some Action.DARE.
Proof.
  destruct (first_counting_key_decides K0 default_key_settings late_game 2
              ["v"; "u"; "x"; "z"]%char
              (fun _ => [Action.DONE; Action.DARE; Action.DIE]))
    as (shouts & H1 & H2).
  - intros []; reflexivity.
  - exists shouts. split; [exact H1|].
    rewrite (H2 Red), (H2 Black). split; reflexivity.
Defined.

(** ** Edges of the deck choice *)

Lemma py_index_negative {A : Type} (l : list A) (i : Z) :
  - Z.of_nat (length l) <= i < 0 ->
  py_index l i = Ok (Z.to_nat (Z.of_nat (length l) + i)).
Proof.
  intros H. unfold py_index. cbv zeta.
  replace (0 <=? i) with false by (symmetry; apply Z.leb_gt; lia).
  replace (i <? 0) with true by (symmetry; apply Z.ltb_lt; lia).
  replace (- Z.of_nat (length l) <=? i) with true
    by (symmetry; apply Z.leb_le; lia).
  reflexivity.
Qed.

Lemma py_index_outside {A : Type} (l : list A) (i : Z) :
  i < - Z.of_nat (length l) \/ Z.of_nat (length l) <= i ->
  py_index l i = Raise IndexError.
Proof.
  intros H. unfold py_index. cbv zeta.
  destruct (Z.leb_spec 0 i), (Z.ltb_spec i (Z.of_nat (length l))),
    (Z.ltb_spec i 0), (Z.leb_spec (- Z.of_nat (length l)) i);
    cbn; try reflexivity; lia.
Qed.

(** X27.  [process_offense_deck_index_input] does not check the index
    against [DECK_PER_PILE]: an index beyond the offense's decks, on
    either side, raises [IndexError]; a negative index within reach counts
    from the last deck, which is sent to the duel if it is undisclosed,
    the reply naming the deck number [index + 1]; and the index of a deck
    that is not undisclosed leaves the game as it is. *)
Theorem offense_deck_index_edges (g : Game.t) (d : Duel.t) (index : Z) :
  Game.duel_ongoing g = Some d ->
  let offense_decks := decks (Game.player g (Duel.offense d)) in
  let n := Z.of_nat (length offense_decks) in
  (index < - n \/ n <= index ->
   Game.process_offense_deck_index_input g index = Raise IndexError)
  /\ (forall deck,
         - n <= index < 0 ->
         offense_decks !! Z.to_nat (n + index) = Some deck ->
         Deck_.is_undisclosed deck = true ->
         Game.process_offense_deck_index_input g index
         = Ok (Game.Duel_summon_offense g d (Z.to_nat (n + index)) deck,
               (MsgOffenseDeckChosen (index + 1),
                Duration.AFTER_DECK_CHOICE)))
  /\ (forall k deck,
         index = Z.of_nat k \/ (- n <= index < 0 /\ k = Z.to_nat (n + index)) ->
         offense_decks !! k = Some deck ->
         Deck_.is_undisclosed deck = false ->
         Game.process_offense_deck_index_input g index
         = Ok (g, (MsgChooseUndisclosedDeck, Duration.AFTER_DECK_CHOICE))).
Proof.
  intros Hd offense_decks n.
  unfold Game.process_offense_deck_index_input, Game.duel.
  rewrite Hd. cbn [bind]. cbv zeta. fold offense_decks.
  split; [|split].
  - intros H. rewrite py_index_outside by exact H. reflexivity.
  - intros deck Hi Hk Hu. rewrite py_index_negative by exact Hi.
    cbn [bind]. fold n. rewrite Hk, Hu. reflexivity.
  - intros k deck Hi Hk Hu.
    assert (py_index offense_decks index = Ok k) as ->.
    { destruct Hi as [-> | [Hi ->]].
      - apply py_index_nat. eapply lookup_lt_Some. exact Hk.
      - apply py_index_negative. exact Hi. }
    cbn [bind]. rewrite Hk, Hu. reflexivity.
Qed.

Lemma offense_deck_index_edges_witness :
  Game.process_offense_deck_index_input first_duel_game 9
  = Raise IndexError
  /\ exists g',
      Game.process_offense_deck_index_input first_duel_game (-1)
      = Ok (g', (MsgOffenseDeckChosen 0, Duration.AFTER_DECK_CHOICE))
      /\ deck_in_duel (Game.player g' Red) = Some 8%nat.
Proof.
  destruct (offense_deck_index_edges first_duel_game first_duel 9 eq_refl)
    as (H1 & _).
  destruct (offense_deck_index_edges first_duel_game first_duel (-1) eq_refl)
    as (_ & H2 & _).
  split.
  - apply H1. right. simpl. lia.
  - eexists. split.
    + apply H2; [simpl; lia | reflexivity | reflexivity].
    + reflexivity.
Defined.

(** ** The loser a duel records *)

(** X28.  When [Duel.end] is given a winner and no loser, as in every
    call [process_shout] makes for a duel that is won, the duel records
    the winner as its loser as well: with the offense and the defense two
    players, [duel.loser] is the player who won. *)
Theorem duel_end_loser_is_winner (K : Constants) (g g' : Game.t)
        (d : Duel.t) (s : DuelState.t) (w : Color) :
  Game.duel_ongoing g = Some d ->
  Duel.defense d <> Duel.offense d ->
  Game.Duel_end K g s (Some w) None = Ok g' ->
  exists d',
    Game.duel_ongoing g' = Some d'
    /\ Duel._state d' = s
    /\ Duel.winner d' = Some w
    /\ Duel.loser d' = Some w.
Proof.
  intros Hd Hne. unfold Game.Duel_end, Game.duel. rewrite Hd. cbn [bind].
  cbv zeta. destruct (negb _); [discriminate|]. cbn [bind].
  intros [= <-].
  destruct g as [pr pb ? ? ? ? ? ?], d as [? ? ? ? ? ? o f].
  cbn in Hne.
  destruct o, f, w; try congruence; cbn; eexists;
    repeat split; reflexivity.
Qed.

Lemma duel_end_loser_is_winner_witness :
  exists g' d',
    Game.Duel_end K0 (late_game_at 3) DuelState.FINISHED (Some Red) None
    = Ok g'
    /\ Game.duel_ongoing g' = Some d'
    /\ Duel.winner d' = Some Red
    /\ Duel.loser d' = Some Red.
Proof.
  eexists.
  destruct (duel_end_loser_is_winner K0 (late_game_at 3) _
              (Duel.mk 6 3 false None None DuelState.ONGOING Red Black)
              DuelState.FINISHED Red eq_refl ltac:(discriminate) eq_refl)
    as (d' & H1 & _ & H2 & H3).
  exists d'. repeat split; assumption.
Defined.

(** ** Undisclosed decks stay out of the shouts *)

Lemma filter_alter_same {A : Type} (P : A -> bool) (f : A -> A) (k : nat)
      (l : list A) :
  (forall x, l !! k = Some x -> P x = false /\ P (f x) = false) ->
  List.filter P (alter f k l) = List.filter P l.
Proof.
  revert k. induction l as [|y t IH]; intros k H; [reflexivity|].
  destruct k as [|k]; cbn.
  - destruct (H y eq_refl) as [-> ->]. reflexivity.
  - change (list_alter f k t) with (alter f k t).
    rewrite IH by (intros x Hx; apply H; exact Hx). reflexivity.
Qed.

(** A player after [Duel.end]: untouched, or with the deck in duel
    closed. *)
Definition closed_or_kept (p p' : Player) : Prop :=
  (decks p' = decks p /\ deck_in_duel p' = deck_in_duel p)
  \/ (decks p' = decks (Game.close_deck p) /\ deck_in_duel p' = None).

Lemma close_deck_twice (p : Player) :
  Game.close_deck (Game.close_deck p) = Game.close_deck p.
Proof.
  unfold Game.close_deck. destruct (deck_in_duel p) eqn:E; cbn.
  - reflexivity.
  - rewrite E. reflexivity.
Qed.

Lemma close_deck_released (p : Player) :
  deck_in_duel (Game.close_deck p) = None.
Proof.
  unfold Game.close_deck. destruct (deck_in_duel p) eqn:E;
    [reflexivity | exact E].
Qed.

Lemma Duel_end_closed_or_kept (K : Constants) (g g' : Game.t)
      (s : DuelState.t) (w l : option Color) :
  Game.Duel_end K g s w l = Ok g' ->
  forall c, closed_or_kept (Game.player g c) (Game.player g' c).
Proof.
  unfold Game.Duel_end, Game.duel.
  destruct (Game.duel_ongoing g) as [d|] eqn:Hd; [|discriminate].
  cbn [bind]. cbv zeta. destruct (negb _); [discriminate|].
  assert (forall (g1 : Game.t) c,
             closed_or_kept
               (Game.player g1 c)
               (Game.player
                  (fold_left (fun g c => Game.with_player g c
                                           (Game.close_deck (Game.player g c)))
                             (Duel.players (Duel.ended d s w l)) g1) c))
    as Hclose.
  { intros g1 c. unfold Duel.players. cbn [fold_left].
    destruct g1 as [pr pb ? ? ? ? ? ?].
    destruct (Duel.offense (Duel.ended d s w l)),
      (Duel.defense (Duel.ended d s w l)), c; cbn;
      rewrite ?close_deck_twice;
      first [ left; split; reflexivity
            | right; split; [reflexivity | apply close_deck_released] ]. }
  assert (forall g1 c c', Game.player (Game.award_point g1 c) c'
                          = Game.player g1 c'
                          \/ Game.player (Game.award_point g1 c) c'
                             = Player_.with_points
                                 (Game.player g1 c')
                                 (points (Game.player g1 c') + 1)) as Haward.
  { intros g1 c c'. destruct g1, c, c'; cbn; auto. }
  assert (forall g1 d1 c, Game.player (Game.with_duel g1 d1) c
                          = Game.player g1 c) as Hduel
      by (intros g1 d1 c; destruct g1, c; reflexivity).
  assert (forall (g1 : Game.t) c,
             (decks (Game.player g1 c) = decks (Game.player g c)
              /\ deck_in_duel (Game.player g1 c)
                 = deck_in_duel (Game.player g c)) ->
             closed_or_kept
               (Game.player g c)
               (Game.player
                  (fold_left (fun g c => Game.with_player g c
                                           (Game.close_deck (Game.player g c)))
                             (Duel.players (Duel.ended d s w l)) g1) c))
    as Hfrom.
  { intros g1 c [E1 E2]. destruct (Hclose g1 c) as [[C1 C2]|[C1 C2]].
    - left. split; congruence.
    - right. split; [|exact C2]. rewrite C1.
      unfold Game.close_deck. rewrite E2.
      destruct (deck_in_duel (Game.player g c)); cbn; congruence. }
  intros H c.
  destruct w as [w|], l as [l|]; cbn [bind] in H;
    try (destruct s; cbn [bind] in H; try discriminate);
    injection H as <-; apply Hfrom;
    repeat match goal with
           | |- context [Game.player (Game.award_point ?g1 ?x) c] =>
               destruct (Haward g1 x c) as [-> | ->]
           end;
    rewrite ?Hduel; split; reflexivity.
Qed.

(** Each player's deck in duel, if any, is not an undisclosed deck. *)
Definition decks_in_duel_disclosed (g : Game.t) : Prop :=
  forall c k deck,
    deck_in_duel (Game.player g c) = Some k ->
    decks (Game.player g c) !! k = Some deck ->
    Deck_.is_undisclosed deck = false.

(** X29.  A round of shouts leaves every player's undisclosed decks as
    they are, the decks in duel not being undisclosed ones. *)
Theorem shout_keeps_undisclosed_decks (K : Constants) (g g' : Game.t)
        (shouts : list Shout) (reply : Game.Reply) :
  decks_in_duel_disclosed g ->
  Game.process_shout K g shouts = Ok (g', reply) ->
  decks_in_duel_disclosed g'
  /\ forall c, Player_.undisclosed_decks (Game.player g' c)
               = Player_.undisclosed_decks (Game.player g c).
Proof.
  intros Hdis H.
  refine (process_shout_invariant K
            (fun x => decks_in_duel_disclosed x
                      /\ forall c, Player_.undisclosed_decks (Game.player x c)
                                   = Player_.undisclosed_decks
                                       (Game.player g c))
            _ g g' shouts reply H (conj Hdis (fun c => eq_refl))).
  clear. intros g1 g2 Hs [Hdis Hund].
  assert (forall c, closed_or_kept (Game.player g1 c) (Game.player g2 c))
    as Hck.
  { destruct Hs as [g1 c a|g1 c|g1 c Hc|g1 c Hc|g1 g2 s w l He|g1 res w].
    1-4: intros c'; left; destruct g1, c, c'; split; reflexivity.
    - eapply Duel_end_closed_or_kept. exact He.
    - intros c'. left. destruct g1, c'; split; reflexivity. }
  split.
  - intros c k deck Hk Hdeck.
    destruct (Hck c) as [[E1 E2]|[_ E2]]; [|congruence].
    rewrite E1 in Hdeck. rewrite E2 in Hk. eapply Hdis; eassumption.
  - intros c. rewrite <- Hund. unfold Player_.undisclosed_decks.
    destruct (Hck c) as [[-> _]|[-> _]]; [reflexivity|].
    unfold Game.close_deck.
    destruct (deck_in_duel (Game.player g1 c)) as [k|] eqn:Ek;
      [|reflexivity].
    cbn. apply filter_alter_same. intros deck Hdeck.
    split; [eapply Hdis; eassumption | reflexivity].
Qed.

Lemma shout_keeps_undisclosed_decks_witness :
  Player_.undisclosed_decks
    (Game.player (after_shouts K0 late_game
                    [shout Red Action.DIE; shout Black Action.DARE]) Red)
  = Player_.undisclosed_decks (Game.player late_game Red).
Proof.
  refine (proj2 (shout_keeps_undisclosed_decks K0 late_game _
                   [shout Red Action.DIE; shout Black Action.DARE]
                   (MsgDied Red, Duration.AFTER_DUEL_ENDS) _ _) Red).
  - intros [] k deck [= <-] [= <-]; reflexivity.
  - vm_compute. reflexivity.
Defined.
